(** * ollama-rename-img: a shallow embedding of [src/ollama_rename_img/main.py]

    The development follows the module top to bottom: Python [str] values,
    the filename builder [ImageClassification.keywords_to_string_with_delimiter],
    the pathlib/os.path helpers the module calls, a small file-system and
    logger state, and then [convert_webp_to_jpeg], [convert_files_to_jpeg],
    [generate_keywords], [process_image] and [process_dir].

    Modelling conventions.
    - A Python [str] is a list of characters; a character is a code point
      below 256 (Latin-1), so [str.isdigit], [str.lower] and [str.strip] are
      the restriction of CPython's tables to that range.
    - Exceptions are values of [exn]; a call that may raise returns a sum.
    - The file system is an association list from paths to nodes, in the
      order the operating system lists them; paths are compared as pathlib
      compares them, component by component.  [os.rename] walks its two
      paths as the kernel does: it refuses a NUL byte and an over-long name
      and follows [..]; the root, the working directory and the directories
      above it are not listed, they always exist.
    - The logger is a level and the list of records that passed the level
      test; every call of the model on the world outside (file system,
      image library, classifier) is recorded in a trace of events.
    - Pillow, the classifier service and the JSON and pydantic parsing are
      parameters of the program; each may raise any exception. *)

From Stdlib Require Import List Ascii String Bool Arith ZArith Lia DecimalString.
Import ListNotations.
Local Open Scope list_scope.

(** ** Python strings *)

Definition str := list ascii.

(** String literals: [L ".webp"] is the Python literal [".webp"]. *)
Definition L (s : string) : str := list_ascii_of_string s.

Definition ascii_eq_dec : forall a b : ascii, {a = b} + {a <> b} := ascii_dec.
Definition str_eq_dec : forall a b : str, {a = b} + {a <> b} :=
  list_eq_dec ascii_dec.
Definition str_eqb (a b : str) : bool := if str_eq_dec a b then true else false.

Definition code (c : ascii) : nat := nat_of_ascii c.

(** [char.isdigit()]: the decimal digits and, in Latin-1, the superscripts
    U+00B2, U+00B3 and U+00B9. *)
Definition isdigit (c : ascii) : bool :=
  let n := code c in
  ((48 <=? n) && (n <=? 57)) || (n =? 178) || (n =? 179) || (n =? 185).

(** [str.lower()] on one character: A-Z and the Latin-1 capitals
    U+00C0..U+00DE except the multiplication sign U+00D7. *)
Definition lower_char (c : ascii) : ascii :=
  let n := code c in
  if ((65 <=? n) && (n <=? 90))
     || ((192 <=? n) && (n <=? 222) && negb (n =? 215))
  then ascii_of_nat (n + 32) else c.

Definition lower (s : str) : str := map lower_char s.

(** [str.isspace()] on one character, as used by [str.strip()]. *)
Definition isspace (c : ascii) : bool :=
  let n := code c in
  ((9 <=? n) && (n <=? 13)) || ((28 <=? n) && (n <=? 32))
  || (n =? 133) || (n =? 160).

Fixpoint lstrip (s : str) : str :=
  match s with
  | c :: r => if isspace c then lstrip r else s
  | [] => []
  end.

Definition strip (s : str) : str := rev (lstrip (rev (lstrip s))).

(** [s.startswith(p)] and [s.endswith(p)]. *)
Fixpoint startswith (s p : str) : bool :=
  match p, s with
  | [], _ => true
  | a :: p', b :: s' => if ascii_eq_dec a b then startswith s' p' else false
  | _ :: _, [] => false
  end.

Definition endswith (s p : str) : bool := startswith (rev s) (rev p).

(** [s.replace(old, new)]: left to right, non-overlapping.  [skip] counts
    the characters of a match that remain to be dropped. *)
Fixpoint replace_from (old new : str) (skip : nat) (s : str) : str :=
  match s with
  | [] => []
  | c :: r =>
      match skip with
      | S k => replace_from old new k r
      | O => if startswith s old
             then new ++ replace_from old new (List.length old - 1) r
             else c :: replace_from old new 0 r
      end
  end.

Definition replace (old new s : str) : str :=
  match old with
  | [] => new ++ flat_map (fun c => c :: new) s
  | _ :: _ => replace_from old new 0 s
  end.

(** [sep.join(items)]. *)
Fixpoint join (sep : str) (items : list str) : str :=
  match items with
  | [] => []
  | [x] => x
  | x :: rest => x ++ sep ++ join sep rest
  end.

(** [s.count(c)] for a one-character [c]. *)
Definition count_char (c : ascii) (s : str) : nat := count_occ ascii_eq_dec s c.

(** ** Exceptions *)

Inductive exn : Type :=
| ValueError (msg : str)
| BadParameter (msg : str)
| JSONDecodeError
| ValidationError
| FileNotFoundError
| IsADirectoryError
| NotADirectoryError
| OSError (errno : nat)
| UnidentifiedImageError
| DecompressionBombError
| ServiceError.

(** The error numbers of Linux that [OSError] carries below. *)
Definition EBUSY : nat := 16.
Definition ENAMETOOLONG : nat := 36.

(** [isinstance(e, IOError)]; [IOError] is an alias of [OSError], and
    Pillow's [UnidentifiedImageError] derives from it.  Its
    [DecompressionBombError] does not, nor does [ValueError]. *)
Definition is_IOError (e : exn) : bool :=
  match e with
  | FileNotFoundError | IsADirectoryError | NotADirectoryError
  | OSError _ | UnidentifiedImageError => true
  | _ => false
  end.

Definition is_JSONDecodeError (e : exn) : bool :=
  match e with JSONDecodeError => true | _ => false end.

(** ** The filename builder (main.py, lines 15-41) *)

Definition accepted_delimiters : list str := [L "_"; L "-"; L " "].

Definition accepted (delimiter : str) : bool :=
  existsb (str_eqb delimiter) accepted_delimiters.

(** [any(char.isdigit() for char in keyword)]. *)
Definition has_digit (keyword : str) : bool := existsb isdigit keyword.

(** The comprehension of lines 35-39, one pass over [self.keywords]. *)
Fixpoint cleaned_keywords (delimiter : str) (keywords : list str) : list str :=
  match keywords with
  | [] => []
  | keyword :: rest =>
      if negb (has_digit keyword)
      then replace (L " ") delimiter keyword :: cleaned_keywords delimiter rest
      else cleaned_keywords delimiter rest
  end.

Definition keywords_to_string_with_delimiter
    (keywords : list str) (delimiter : str) : exn + str :=
  if negb (accepted delimiter)
  then inl (ValueError
              (L "Delimiter must be underscore '_', dash '-', or space ' '"))
  else inr (join delimiter (firstn 5 (cleaned_keywords delimiter keywords))).

(** The sanitization rule as the specification words it, steps (a) to (d). *)
Module SanitizeSpec.

(** (a) discard any keyword containing at least one digit character. *)
Definition discard_digits (keywords : list str) : list str :=
  filter (fun k => negb (has_digit k)) keywords.

(** (b) replace the spaces of a keyword with the delimiter character. *)
Definition replace_spaces (d : ascii) (keyword : str) : str :=
  map (fun c => if ascii_eq_dec c " "%char then d else c) keyword.

(** (c) keep only the first 5, in their original order. *)
Definition keep_first_5 (keywords : list str) : list str := firstn 5 keywords.

(** The keywords that survive (a) and (c), before any rewriting. *)
Definition survivors (keywords : list str) : list str :=
  keep_first_5 (discard_digits keywords).

Definition entries (d : ascii) (keywords : list str) : list str :=
  keep_first_5 (map (replace_spaces d) (discard_digits keywords)).

(** The characters of a keyword that step (b) turns into, or leaves as, the
    delimiter: its spaces and its own occurrences of the delimiter. *)
Definition delimiter_sources (d : ascii) (keyword : str) : nat :=
  count_char " "%char keyword
  + (if ascii_eq_dec d " "%char then 0 else count_char d keyword).

(** (d) join them with the delimiter. *)
Definition sanitize (d : ascii) (keywords : list str) : str :=
  join [d] (entries d keywords).

End SanitizeSpec.

(** ** pathlib and os.path *)

(** [s.rfind(c)] for a one-character [c]: the highest index, or -1. *)
Fixpoint rfind (s : str) (c : ascii) : Z :=
  match s with
  | [] => (-1)%Z
  | x :: r =>
      let i := rfind r c in
      if (0 <=? i)%Z then (i + 1)%Z
      else if ascii_eq_dec x c then 0%Z else (-1)%Z
  end.

(** The slices [s[:i]], [s[i:]] and [s[i:j]] for [0 <= i]. *)
Definition upto (s : str) (i : Z) : str := firstn (Z.to_nat i) s.
Definition from (s : str) (i : Z) : str := skipn (Z.to_nat i) s.
Definition slice (s : str) (i j : Z) : str := from (upto s j) i.

Definition len (s : str) : Z := Z.of_nat (List.length s).

(** [os.path.splitext] (posixpath): split at the last dot of the last
    component, unless that component consists of leading dots up to it. *)
Definition splitext (p : str) : str * str :=
  let sepIndex := rfind p "/"%char in
  let dotIndex := rfind p "."%char in
  if (sepIndex <? dotIndex)%Z then
    if existsb (fun ch => if ascii_eq_dec ch "."%char then false else true)
               (slice p (sepIndex + 1) dotIndex)
    then (upto p dotIndex, from p dotIndex)
    else (p, [])
  else (p, []).

(** A [PurePosixPath]: its root ([""], ["/"] or ["//"]) and its components. *)
Record Path : Type := mkPath { root : str; parts : list str }.

Definition Path_eq_dec : forall p q : Path, {p = q} + {p <> q}.
Proof. decide equality; [apply (list_eq_dec str_eq_dec) | apply str_eq_dec]. Defined.

Definition Path_eqb (p q : Path) : bool := if Path_eq_dec p q then true else false.

(** [s.split("/")]. *)
Fixpoint split_sep (s : str) : list str :=
  match s with
  | [] => [[]]
  | c :: r =>
      if ascii_eq_dec c "/"%char then [] :: split_sep r
      else match split_sep r with
           | w :: ws => (c :: w) :: ws
           | [] => [[c]]
           end
  end.

Fixpoint lstrip_sep (s : str) : str :=
  match s with
  | c :: r => if ascii_eq_dec c "/"%char then lstrip_sep r else s
  | [] => []
  end.

(** The posix flavour's [splitroot]: exactly two leading slashes are kept. *)
Definition splitroot (part : str) : str * str :=
  match part with
  | c :: _ =>
      if ascii_eq_dec c "/"%char then
        let stripped := lstrip_sep part in
        if (List.length part - List.length stripped =? 2)%nat
        then (L "//", stripped) else (L "/", stripped)
      else ([], part)
  | [] => ([], [])
  end.

Definition is_component (x : str) : bool :=
  match x with
  | [] => false
  | _ => negb (str_eqb x (L "."))
  end.

(** [Path(s)]: empty and ["."] components are dropped. *)
Definition parse_path (s : str) : Path :=
  let (rt, rel) := splitroot s in
  mkPath rt (filter is_component (split_sep rel)).

(** [p / s]: an absolute [s] replaces [p]. *)
Definition joinpath (p : Path) (s : str) : Path :=
  let q := parse_path s in
  match root q with
  | [] => mkPath (root p) (parts p ++ parts q)
  | _ => q
  end.

(** [str(p)]. *)
Definition path_str (p : Path) : str :=
  match root p, parts p with
  | [], [] => L "."
  | rt, ps => rt ++ join (L "/") ps
  end.

(** [p.name]. *)
Definition name (p : Path) : str := last (parts p) [].

(** [p.suffix] and [p.stem]. *)
Definition suffix (p : Path) : str :=
  let nm := name p in
  let i := rfind nm "."%char in
  if ((0 <? i) && (i <? len nm - 1))%Z then from nm i else [].

Definition stem (p : Path) : str :=
  let nm := name p in
  let i := rfind nm "."%char in
  if ((0 <? i) && (i <? len nm - 1))%Z then upto nm i else nm.

Definition parent (p : Path) : Path := mkPath (root p) (removelast (parts p)).

Definition child (d : Path) (nm : str) : Path := mkPath (root d) (parts d ++ [nm]).

(** [q] is listed directly inside [d]. *)
Definition is_child_of (d q : Path) : bool :=
  match parts q with
  | [] => false
  | _ => Path_eqb (parent q) d
  end.

(** ** The file system *)

Inductive node : Type :=
| File (content : str)
| Dir.

(** Paths to nodes, in listing order; the first binding of a path counts. *)
Definition FS := list (Path * node).

Fixpoint lookup (fs : FS) (p : Path) : option node :=
  match fs with
  | [] => None
  | (q, n) :: r => if Path_eq_dec q p then Some n else lookup r p
  end.

Definition delete (fs : FS) (p : Path) : FS :=
  filter (fun e => negb (Path_eqb (fst e) p)) fs.

(** Bind [p] to [n]: in place when [p] is listed, at the end otherwise. *)
Fixpoint write (fs : FS) (p : Path) (n : node) : FS :=
  match fs with
  | [] => [(p, n)]
  | (q, m) :: r => if Path_eq_dec q p then (p, n) :: r else (q, m) :: write r p n
  end.

Definition is_dir (fs : FS) (p : Path) : bool :=
  match lookup fs p with Some Dir => true | _ => false end.

Definition is_file (fs : FS) (p : Path) : bool :=
  match lookup fs p with Some (File _) => true | _ => false end.

(** The entries of directory [d], in listing order ([os.listdir]). *)
Definition listdir (fs : FS) (d : Path) : list Path :=
  filter (is_child_of d) (map fst fs).

Definition fs_iterdir (fs : FS) (d : Path) : exn + list Path :=
  match lookup fs d with
  | Some Dir => inr (listdir fs d)
  | Some (File _) => inl NotADirectoryError
  | None => inl FileNotFoundError
  end.

(** [d.glob("*.webp")]: the entries of [d] (files and directories alike,
    hidden ones included) whose name matches the pattern case-sensitively;
    nothing when [d] is not a directory. *)
Definition fs_glob_webp (fs : FS) (d : Path) : list Path :=
  if is_dir fs d
  then filter (fun q => endswith (name q) (L ".webp")) (listdir fs d)
  else [].

(** [open(p, "rb").read()]. *)
Definition fs_read (fs : FS) (p : Path) : exn + str :=
  match lookup fs p with
  | Some (File c) => inr c
  | Some Dir => inl IsADirectoryError
  | None => inl FileNotFoundError
  end.

(** [open(p, "w+b")] followed by writing [c]; with the empty [c], the open
    alone, which creates the file or empties the one that exists. *)
Definition fs_create (fs : FS) (p : Path) (c : str) : exn + FS :=
  match lookup fs p with
  | Some Dir => inl IsADirectoryError
  | Some (File _) => inr (write fs p (File c))
  | None => if is_dir fs (parent p) then inr (write fs p (File c))
            else inl FileNotFoundError
  end.

(** The limits of Linux on one component and on a whole path, in bytes. *)
Definition NAME_MAX : nat := 255.
Definition PATH_MAX : nat := 4096.

(** The length of [os.fsencode(s)]: UTF-8 takes two bytes for a code point
    from U+0080 on. *)
Definition fsencode_length (s : str) : nat :=
  List.length s + List.length (filter (fun c => 128 <=? code c) s).

Definition has_nul (s : str) : bool := existsb (fun c => code c =? 0) s.

(** One step up from a directory the walk has reached: the root is its own
    parent, and above the working directory the path grows by [..]. *)
Definition up (d : Path) : Path :=
  match parts d with
  | [] => match root d with [] => child d (L "..") | _ => d end
  | _ :: _ => if str_eqb (name d) (L "..") then child d (L "..") else parent d
  end.

(** The kernel's walk from the directory [cur] through the components
    [comps]: [..] steps up, any other component must name a directory. *)
Fixpoint fs_walk (fs : FS) (cur : Path) (comps : list str) : exn + Path :=
  match comps with
  | [] => inr cur
  | c :: rest =>
      if str_eqb c (L "..") then fs_walk fs (up cur) rest
      else if NAME_MAX <? fsencode_length c then inl (OSError ENAMETOOLONG)
      else match lookup fs (child cur c) with
           | Some Dir => fs_walk fs (child cur c) rest
           | Some (File _) => inl NotADirectoryError
           | None => inl FileNotFoundError
           end
  end.

(** The directory that holds the last component of [p]. *)
Definition fs_parent (fs : FS) (p : Path) : exn + Path :=
  fs_walk fs (mkPath (root p) []) (removelast (parts p)).

(** The last component of [p] when it is a name: neither missing nor [..]. *)
Definition last_name (p : Path) : option str :=
  match parts p with
  | [] => None
  | _ :: _ => if str_eqb (name p) (L "..") then None else Some (name p)
  end.

(** The path under which the file system lists what [p] designates: the
    directory the walk reaches, then the last component. *)
Definition fs_locate (fs : FS) (p : Path) : exn + Path :=
  match fs_parent fs p with
  | inl e => inl e
  | inr d =>
      match last_name p with
      | None => inl (OSError EBUSY)
      | Some x => if NAME_MAX <? fsencode_length x
                  then inl (OSError ENAMETOOLONG)
                  else inr (child d x)
      end
  end.

(** [os.rename(src, dst)] for a regular file [src].  [process_image] only
    renames a path it has just opened and read, so [src] is looked up as it
    is listed; [dst] is a path the program has built, and it is walked.
    Python refuses a NUL byte in either path; the kernel refuses a path of
    [PATH_MAX] bytes or more and replaces a regular file that [dst]
    designates. *)
Definition fs_rename (fs : FS) (src dst : Path) : exn + FS :=
  if has_nul (path_str src) || has_nul (path_str dst)
  then inl (ValueError (L "embedded null byte"))
  else if (PATH_MAX <=? fsencode_length (path_str src))
          || (PATH_MAX <=? fsencode_length (path_str dst))
  then inl (OSError ENAMETOOLONG)
  else
    match fs_locate fs dst with
    | inl e => inl e
    | inr d =>
        match lookup fs src with
        | None => inl FileNotFoundError
        | Some Dir => inl IsADirectoryError
        | Some (File c) =>
            if Path_eq_dec src d then inr fs
            else match lookup fs d with
                 | Some Dir => inl IsADirectoryError
                 | _ => inr (write (delete fs src) d (File c))
                 end
        end
    end.

(** [os.unlink(p)]. *)
Definition fs_unlink (fs : FS) (p : Path) : exn + FS :=
  match lookup fs p with
  | Some (File _) => inr (delete fs p)
  | Some Dir => inl IsADirectoryError
  | None => inl FileNotFoundError
  end.

(** ** The logger and the program state *)

Inductive loglevel : Type := INFO | WARNING | ERROR.

Definition levelno (l : loglevel) : nat :=
  match l with INFO => 20 | WARNING => 30 | ERROR => 40 end.

(** What the program does to the world outside it, in order. *)
Inductive event : Type :=
| EvGlob (d : Path)
| EvIterdir (d : Path)
| EvIsFile (p : Path)
| EvImageOpen (p : Path)
| EvImageSave (p : Path)
| EvRead (p : Path)
| EvChat (image : str)
| EvRename (src dst : Path)
| EvUnlink (p : Path).

Definition is_fs_access (e : event) : bool :=
  match e with EvChat _ => false | _ => true end.

Definition is_chat (e : event) : bool :=
  match e with EvChat _ => true | _ => false end.

Record state : Type := mkState {
  fs : FS;
  level : loglevel;                 (* [logger.level] *)
  log : list (loglevel * str);      (* records that passed [isEnabledFor] *)
  trace : list event
}.

(** Line 74: the module sets the logger to ERROR when it is imported. *)
Definition initial_state (fs0 : FS) : state := mkState fs0 ERROR [] [].

Definition set_fs (f : FS) (st : state) : state :=
  mkState f (level st) (log st) (trace st).

Definition emit (e : event) (st : state) : state :=
  mkState (fs st) (level st) (log st) (trace st ++ [e]).

(** [logger.log(lvl, msg)]: dropped unless [lvl >= logger.level]. *)
Definition log_record (lvl : loglevel) (msg : str) (st : state) : state :=
  if levelno (level st) <=? levelno lvl
  then mkState (fs st) (level st) (log st ++ [(lvl, msg)]) (trace st)
  else st.

(** ** A state and exception monad *)

Definition M (A : Type) : Type := state -> (exn + A) * state.

Definition ret {A} (a : A) : M A := fun st => (inr a, st).

Definition raise {A} (e : exn) : M A := fun st => (inl e, st).

Definition bind {A B} (m : M A) (k : A -> M B) : M B :=
  fun st => match m st with
            | (inr a, st') => k a st'
            | (inl e, st') => (inl e, st')
            end.

Notation "x <- m ;; k" := (bind m (fun x => k))
  (at level 61, m at next level, right associativity).
Notation "m ;;; k" := (bind m (fun _ => k))
  (at level 61, right associativity).

(** [try: m except E: handler] where [E] is the class tested by [is_E]. *)
Definition try_except {A} (m : M A) (is_E : exn -> bool) (handler : exn -> M A)
  : M A :=
  fun st => match m st with
            | (inl e, st') => if is_E e then handler e st' else (inl e, st')
            | r => r
            end.

Definition lift {A} (r : exn + A) : M A := fun st => (r, st).

Definition do_emit (e : event) : M unit := fun st => (inr tt, emit e st).

Definition logger (lvl : loglevel) (msg : str) : M unit :=
  fun st => (inr tt, log_record lvl msg st).

(** A file-system call that may raise and, when it succeeds, replaces the
    file system. *)
Definition fs_update (f : FS -> exn + FS) : M unit :=
  fun st => match f (fs st) with
            | inr fs' => (inr tt, set_fs fs' st)
            | inl e => (inl e, st)
            end.

Definition fs_query {A} (f : FS -> exn + A) : M A :=
  fun st => (f (fs st), st).

(** A call that reads the state and may raise, without changing it. *)
Definition query {A} (f : state -> exn + A) : M A :=
  fun st => (f st, st).

(** [st'] is reached from [st] by logging and by acting on the world: the
    logger level is the same and the log and the trace have only grown. *)
Definition extends (st st' : state) : Prop :=
  level st' = level st
  /\ (exists l, log st' = log st ++ l)
  /\ (exists t, trace st' = trace st ++ t).

(** A computation that never changes the logger level and never forgets a
    record or an event. *)
Definition monotone {A} (m : M A) : Prop :=
  forall st, extends st (snd (m st)).

(** A computation whose final state extends [f st], for the state [st] it
    starts in: what [f] adds is still there when it ends. *)
Definition after {A} (f : state -> state) (m : M A) : Prop :=
  forall st, extends (f st) (snd (m st)).

(** A computation that always returns normally. *)
Definition total {A} (m : M A) : Prop :=
  forall st, exists a, fst (m st) = inr a.

(** [str(n)] for a natural number. *)
Definition str_of_nat (n : nat) : str :=
  L (NilZero.string_of_uint (Nat.to_uint n)).

(** [str(e)]: the text of an exception, in the wording of Linux; no
    statement below depends on the wording. *)
Definition exn_str (e : exn) : str :=
  match e with
  | ValueError m | BadParameter m => m
  | JSONDecodeError => L "Expecting value"
  | ValidationError => L "validation error for ImageClassification"
  | FileNotFoundError => L "[Errno 2] No such file or directory"
  | IsADirectoryError => L "[Errno 21] Is a directory"
  | NotADirectoryError => L "[Errno 20] Not a directory"
  | OSError errno => L "[Errno " ++ str_of_nat errno ++ L "]"
  | UnidentifiedImageError => L "cannot identify image file"
  | DecompressionBombError => L "Image size exceeds limit of pixels"
  | ServiceError => L "service error"
  end.

(** ** The program (main.py, lines 44-195) *)

(** An image that Pillow has opened and converted to RGB, seen through what
    [img.save(path, "JPEG")] will do once it has opened [path] for writing:
    encode and write the bytes [jpeg], or raise [e] from the encoder.  In
    the second case recent versions of Pillow remove the file when the save
    has created it, older ones leave it empty: [removes_created] tells
    which. *)
Inductive image : Type :=
| Saves (jpeg : str)
| SaveRaises (e : exn) (removes_created : bool).

Section Program.

(** The external collaborators.
    - [decode c]: Pillow on a file that holds the bytes [c], from
      [Image.open] to the end of [convert("RGB")]: the image, or the
      exception raised, which need not be an [IOError]
      ([DecompressionBombError], [ValueError] and others are not).
    - [chat history image]: [ollama.chat] on the (base64-encoded) bytes of
      an image, followed by the lookup of the message content in the
      response.  The service need not answer the same image twice alike:
      its answer may depend on [history], the events of the run up to and
      including this call.
    - [loads text]: [json.loads(text)] followed by the construction of the
      [ImageClassification] model from the parsed object; the keyword list,
      or the exception either step raises. *)
Variable decode : str -> exn + image.
Variable chat : list event -> str -> exn + str.
Variable loads : str -> exn + list str.

Definition not_webp_message : str :=
  L "The file is not a WebP image based on its extension.".

Definition failed_message : str :=
  L "Failed to open or process the file. Please ensure it is a valid WebP image.".

(** [Image.open(file_path)] and the decoding that [convert("RGB")] forces. *)
Definition image_open (file_path : str) : M image :=
  do_emit (EvImageOpen (parse_path file_path)) ;;;
  c <- fs_query (fun f => fs_read f (parse_path file_path)) ;;
  lift (decode c).

(** [img.save(new_file_path, "JPEG")]: the output is opened for writing,
    which creates or empties it, before the encoder runs. *)
Definition image_save (new_file_path : str) (img : image) : M unit :=
  let p := parse_path new_file_path in
  do_emit (EvImageSave p) ;;;
  created <- query (fun st => inr (match lookup (fs st) p with
                                   | None => true
                                   | Some _ => false
                                   end)) ;;
  fs_update (fun f => fs_create f p []) ;;;
  match img with
  | Saves jpeg => fs_update (fun f => inr (write f p (File jpeg)))
  | SaveRaises e removes_created =>
      (if created && removes_created
       then fs_update (fun f => inr (delete f p))
       else ret tt) ;;;
      raise e
  end.

(** Lines 44-69. *)
Definition convert_webp_to_jpeg (file_path : str) : M str :=
  if negb (endswith (lower file_path) (L ".webp"))
  then ret not_webp_message
  else
    try_except
      (img <- image_open file_path ;;
       let new_file_path := fst (splitext file_path) ++ L ".jpeg" in
       image_save new_file_path img ;;;
       ret new_file_path)
      is_IOError
      (fun _ => ret failed_message).

(** Lines 77-83. *)
Definition configure_logging (verbose : bool) : M unit :=
  fun st => (inr tt, mkState (fs st) (if verbose then INFO else ERROR)
                             (log st) (trace st)).

(** [file.is_file()]. *)
Definition path_is_file (file : Path) : M bool :=
  do_emit (EvIsFile file) ;;;
  query (fun st => inr (is_file (fs st) file)).

(** The loop of lines 88-91 over the listing [entries]. *)
Fixpoint convert_loop (entries : list Path) (converted_list : list Path)
  : M (list Path) :=
  match entries with
  | [] => ret converted_list
  | file :: rest =>
      isf <- path_is_file file ;;
      if isf && str_eqb (lower (suffix file)) (L ".webp")
      then jpeg_file_path <- convert_webp_to_jpeg (path_str file) ;;
           convert_loop rest (converted_list ++ [parse_path jpeg_file_path])
      else convert_loop rest converted_list
  end.

(** Lines 86-92. *)
Definition convert_files_to_jpeg (directory_path : Path) : M (list Path) :=
  do_emit (EvIterdir directory_path) ;;;
  entries <- fs_query (fun f => fs_iterdir f directory_path) ;;
  convert_loop entries [].

(** Lines 95-109, with the lookup of line 125. *)
Definition generate_keywords (image_path : Path) : M str :=
  do_emit (EvRead image_path) ;;;
  img <- fs_query (fun f => fs_read f image_path) ;;
  do_emit (EvChat img) ;;;
  query (fun st => chat (trace st) img).

(** [next((w for w in webp_files if w.stem == file.stem), None)]. *)
Definition find_webp (webp_files : list Path) (file : Path) : option Path :=
  find (fun w => str_eqb (stem w) (stem file)) webp_files.

(** [webp_files.remove(x)]: drops the first element equal to [x]. *)
Fixpoint list_remove (x : Path) (l : list Path) : list Path :=
  match l with
  | [] => []
  | y :: r => if Path_eq_dec y x then r else y :: list_remove x r
  end.

Definition path_rename (src dst : Path) : M unit :=
  do_emit (EvRename src dst) ;;;
  fs_update (fun f => fs_rename f src dst).

Definition path_unlink (p : Path) : M unit :=
  do_emit (EvUnlink p) ;;;
  fs_update (fun f => fs_unlink f p).

(** Lines 126-128: the code fences are removed and the text is stripped. *)
Definition strip_fences (content : str) : str :=
  strip (replace (L "```") [] (replace (L "```json") [] content)).

(** The body of the [try] statement, lines 123-147.  It returns the list
    [webp_files] as the body leaves it. *)
Definition process_body (directory_path : Path) (delimiter : str)
    (file : Path) (webp_files : list Path) : M (list Path) :=
  content <- generate_keywords file ;;
  let resp := strip_fences content in
  keywords <- lift (loads resp) ;;
  new_file_name <- lift (keywords_to_string_with_delimiter keywords delimiter) ;;
  let new_file_path := joinpath directory_path (new_file_name ++ suffix file) in
  path_rename file new_file_path ;;;
  logger INFO (L "Renamed " ++ name file ++ L " to " ++ name new_file_path) ;;;
  match find_webp webp_files file with
  | Some webp_file =>
      path_unlink webp_file ;;;
      let webp_files' := list_remove webp_file webp_files in
      logger INFO (L "Removed original WebP file: " ++ path_str webp_file) ;;;
      ret webp_files'
  | None =>
      logger WARNING
        (L "No corresponding WebP file found for " ++ name file) ;;;
      ret webp_files
  end.

(** Every exception of the model derives from [Exception]. *)
Definition is_Exception (e : exn) : bool := true.

(** The text an [except] clause logs for [file]. *)
Definition handler_message (file : Path) (e : exn) : str :=
  if is_JSONDecodeError e
  then L "Failed to parse JSON response for " ++ path_str file
  else L "Error processing " ++ path_str file ++ L ": " ++ exn_str e.

(** The two [except] clauses, lines 149-152.  [webp_files] is only changed
    by the last statement of the body that can raise no more, so a handler
    sees it as it was. *)
Definition process_handler (file : Path) (webp_files : list Path) (e : exn)
  : M (list Path) :=
  (if is_JSONDecodeError e
   then logger ERROR (L "Failed to parse JSON response for " ++ path_str file)
   else logger ERROR
          (L "Error processing " ++ path_str file ++ L ": " ++ exn_str e)) ;;;
  ret webp_files.

(** One iteration of the loop of line 118. *)
Definition process_one (directory_path : Path) (delimiter : str)
    (file : Path) (webp_files : list Path) : M (list Path) :=
  if str_eqb (name file) (L ".DS_Store")
  then ret webp_files
  else try_except (process_body directory_path delimiter file webp_files)
                  is_Exception
                  (process_handler file webp_files).

Fixpoint process_loop (directory_path : Path) (delimiter : str)
    (converted_files : list Path) (webp_files : list Path) : M (list Path) :=
  match converted_files with
  | [] => ret webp_files
  | file :: rest =>
      webp_files' <- process_one directory_path delimiter file webp_files ;;
      process_loop directory_path delimiter rest webp_files'
  end.

(** Lines 155-156. *)
Fixpoint report_remaining (webp_files : list Path) : M unit :=
  match webp_files with
  | [] => ret tt
  | remaining_webp :: rest =>
      logger WARNING (L "Unprocessed WebP file: " ++ path_str remaining_webp) ;;;
      report_remaining rest
  end.

(** Lines 112-156.  The result is the list [webp_files] as the call leaves
    it (the caller's list, mutated in place). *)
Definition process_image (directory_path : Path) (converted_files : list Path)
    (webp_files : list Path) (delimiter : str) : M (list Path) :=
  remaining <- process_loop directory_path delimiter converted_files webp_files ;;
  report_remaining remaining ;;;
  ret remaining.

(** Lines 159-195. *)
Definition process_dir (directory_path : str) (delimiter : str) (verbose : bool)
  : M unit :=
  if negb (accepted delimiter)
  then raise (BadParameter (L "Delimiter must be '_', '-', or ' ' (space)."))
  else
    let dir_path := parse_path directory_path in
    configure_logging verbose ;;;
    do_emit (EvGlob dir_path) ;;;
    webp_files <- query (fun st => inr (fs_glob_webp (fs st) dir_path)) ;;
    logger INFO (L "Found " ++ str_of_nat (List.length webp_files)
                 ++ L " WebP files") ;;;
    converted_jpg_files <- convert_files_to_jpeg dir_path ;;
    logger INFO (L "Converted " ++ str_of_nat (List.length converted_jpg_files)
                 ++ L " files to JPEG") ;;;
    match converted_jpg_files with
    | [] => logger WARNING (L "No JPEG files to process. Exiting.")
    | _ :: _ =>
        process_image dir_path converted_jpg_files webp_files delimiter ;;;
        ret tt
    end.

End Program.

(** The state in which line 188 starts the normalization: the logger is
    configured, the legacy files are globbed and their number is logged. *)
Definition before_normalization (dir_path : Path) (verbose : bool) (st : state)
  : state :=
  let st1 := emit (EvGlob dir_path)
                  (mkState (fs st) (if verbose then INFO else ERROR)
                           (log st) (trace st)) in
  log_record INFO
    (L "Found " ++ str_of_nat (List.length (fs_glob_webp (fs st) dir_path))
     ++ L " WebP files") st1.

(** The file [convert_webp_to_jpeg] writes for the listing entry [file]. *)
Definition output_path (file : Path) : Path :=
  parse_path (fst (splitext (path_str file)) ++ L ".jpeg").

(** The test of line 89 on the suffix. *)
Definition has_legacy_suffix (file : Path) : bool :=
  str_eqb (lower (suffix file)) (L ".webp").

(** The file system a save leaves behind when the encoder raises, [fs']
    being the file system once the output is opened: the output the save
    has created is removed when Pillow does so. *)
Definition after_failed_save (f fs' : FS) (out : Path) (removes_created : bool)
  : FS :=
  if match lookup f out with None => true | Some _ => false end
     && removes_created
  then delete fs' out else fs'.

(** [e] is an exception that Pillow raises on a file holding the bytes
    [c], while it opens and converts it or while it saves it. *)
Definition pillow_raises (decode : str -> exn + image) (c : str) (e : exn)
  : Prop :=
  decode c = inl e \/ exists removes_created,
                        decode c = inr (SaveRaises e removes_created).

(** An exception that leaves the [with] block of lines 58-67: an [IOError]
    is turned into the failure message, any other exception escapes. *)
Definition caught (e : exn) (st : state) : (exn + str) * state :=
  if is_IOError e then (inr failed_message, st) else (inl e, st).

(** ** Concrete collaborators and directories *)

Module Examples.

(** A decoder that accepts the files starting with the RIFF tag, takes
    those starting with BOMB for decompression bombs and identifies no
    other. *)
Definition decode (c : str) : exn + image :=
  if startswith c (L "RIFF") then inr (Saves (L "JFIF" ++ c))
  else if startswith c (L "BOMB") then inl DecompressionBombError
  else inl UnidentifiedImageError.

(** A classifier that answers [reply] inside a json code fence. *)
Definition chat (reply : str) (history : list event) (image : str)
  : exn + str :=
  inr (L "```json" ++ L " " ++ reply ++ L " " ++ L "```").

Definition scenario_A_keywords : list str :=
  [L "sunset"; L "beach"; L "ocean2"; L "wave"; L "sky"; L "cloud"].

(** A parser that knows four documents: [A] holds the keywords of
    scenario A, [C] an empty keyword array, [cat] the single keyword cat,
    [up] the single keyword [../up]; any other text is not JSON. *)
Definition loads (text : str) : exn + list str :=
  if str_eqb text (L "A") then inr scenario_A_keywords
  else if str_eqb text (L "C") then inr []
  else if str_eqb text (L "cat") then inr [L "cat"]
  else if str_eqb text (L "up") then inr [L "../up"]
  else inl JSONDecodeError.

Definition pics : Path := parse_path (L "pics").

(** [pics/] holding one valid legacy image. *)
Definition fs_photo : FS :=
  [(pics, Dir); (child pics (L "photo.webp"), File (L "RIFFphoto"))].

(** [pics/] holding a legacy file that is not an image. *)
Definition fs_bad : FS :=
  [(pics, Dir); (child pics (L "bad.webp"), File (L "garbage"))].

(** [pics/] holding a valid image with an upper-case legacy extension. *)
Definition fs_upper : FS :=
  [(pics, Dir); (child pics (L "photo.WEBP"), File (L "RIFFphoto"))].

(** [pics/] holding a directory named like a legacy file next to a valid
    image of the same stem. *)
Definition fs_clash : FS :=
  [(pics, Dir); (child pics (L "photo.webp"), Dir);
   (child pics (L "photo.WEBP"), File (L "RIFFphoto"))].

(** [pics/] holding a legacy image and an older JPEG of the same stem. *)
Definition fs_overwrite : FS :=
  [(pics, Dir); (child pics (L "photo.webp"), File (L "RIFFphoto"));
   (child pics (L "photo.jpeg"), File (L "JFIFold"))].

(** [pics/] without any legacy file. *)
Definition fs_plain : FS :=
  [(pics, Dir); (child pics (L "notes.txt"), File (L "hello"))].

Definition photo_webp : Path := child pics (L "photo.webp").
Definition photo_WEBP : Path := child pics (L "photo.WEBP").
Definition photo_jpeg : Path := child pics (L "photo.jpeg").

(** [fs_photo] once the normalization has converted the image. *)
Definition fs_converted : FS :=
  [(pics, Dir); (photo_webp, File (L "RIFFphoto"));
   (photo_jpeg, File (L "JFIFRIFFphoto"))].

(** The state in which [process_image] starts on [fs_converted]. *)
Definition st_converted : state := mkState fs_converted ERROR [] [].






(** [pics/] holding a decompression bomb before a valid image. *)
Definition fs_bomb : FS :=
  [(pics, Dir); (child pics (L "big.webp"), File (L "BOMB"));
   (photo_webp, File (L "RIFFphoto"))].

End Examples.

(** ** The matched legacy file, as the specification words it *)

Module MatchSpec.




End MatchSpec.

(** ** Well-formed paths and counts, for the statements below *)

(** The roots pathlib produces. *)
Definition valid_root (r : str) : bool :=
  str_eqb r [] || str_eqb r (L "/") || str_eqb r (L "//").

(** A component as pathlib keeps it: not empty, not [.], no separator. *)
Definition valid_name (nm : str) : bool :=
  is_component nm
  && negb (existsb (fun c => if ascii_eq_dec c "/"%char then true else false) nm).

(** A path as [Path(...)] builds it. *)
Definition valid_path (p : Path) : bool :=
  valid_root (root p) && forallb valid_name (parts p).

(** A directory the kernel's walk reaches in one step at most: the root,
    the working directory, or a directory listed directly inside one of
    them under a name that is not [..] and not too long. *)
Definition top_level (d : Path) : bool :=
  match parts d with
  | [] => true
  | [x] => negb (str_eqb x (L "..")) && (fsencode_length x <=? NAME_MAX)
  | _ :: _ :: _ => false
  end.

(** A string that has a character other than the dot: the test of the loop
    of [os.path.splitext] on the text before the last dot. *)
Definition has_non_dot (s : str) : bool :=
  existsb (fun ch => if ascii_eq_dec ch "."%char then false else true) s.

(** The regular files of [entries] that pass the test of line 89. *)
Definition legacy_files (f : FS) (entries : list Path) : list Path :=
  filter (fun file => is_file f file && has_legacy_suffix file) entries.

(** A computation that leaves the logger level alone and adds to the log
    only records whose level the logger admits. *)
Definition logs_within_level {A} (m : M A) : Prop :=
  forall st,
    level (snd (m st)) = level st
    /\ exists l, log (snd (m st)) = log st ++ l
                 /\ Forall (fun r => levelno (level st) <= levelno (fst r)) l.

(** The number of classifier calls in a trace. *)
Definition chat_calls (t : list event) : nat := List.length (filter is_chat t).

(** The files of a batch that the loop of line 118 does not skip. *)
Definition processed_files (converted_files : list Path) : list Path :=
  filter (fun file => negb (str_eqb (name file) (L ".DS_Store"))) converted_files.

(** * Properties of the filename builder *)

Lemma accepted_cases (delimiter : str) :
  accepted delimiter = true ->
  delimiter = L "_" \/ delimiter = L "-" \/ delimiter = L " ".
Proof.
  unfold accepted, accepted_delimiters, str_eqb; simpl.
  repeat (destruct (str_eq_dec _ _); [ tauto | ]); discriminate.
Qed.

Lemma accepted_single (delimiter : str) :
  accepted delimiter = true ->
  exists d, delimiter = [d] /\ isdigit d = false.
Proof.
  intros H; destruct (accepted_cases _ H) as [-> | [-> | ->]];
    eexists; split; reflexivity.
Qed.

Lemma replace_char (c d : ascii) (s : str) :
  replace [c] [d] s = map (fun x => if ascii_eq_dec x c then d else x) s.
Proof.
  unfold replace.
  induction s as [| x r IH]; [ reflexivity | ].
  cbn [replace_from startswith List.length Nat.sub map].
  destruct (ascii_eq_dec c x) as [-> | Hne].
  - destruct (ascii_eq_dec x x); [ | congruence ].
    destruct r; cbn [app]; rewrite <- IH; reflexivity.
  - destruct (ascii_eq_dec x c); [ congruence | ].
    rewrite <- IH; reflexivity.
Qed.

Lemma replace_space_spec (d : ascii) (k : str) :
  replace (L " ") [d] k = SanitizeSpec.replace_spaces d k.
Proof. apply replace_char. Qed.

Lemma cleaned_keywords_spec (d : ascii) (keywords : list str) :
  cleaned_keywords [d] keywords
  = map (SanitizeSpec.replace_spaces d) (SanitizeSpec.discard_digits keywords).
Proof.
  induction keywords as [| k r IH]; [ reflexivity | ].
  cbn [cleaned_keywords SanitizeSpec.discard_digits filter].
  destruct (negb (has_digit k)); cbn [map];
    rewrite IH; [ rewrite replace_space_spec | ]; reflexivity.
Qed.

Lemma has_digit_replace_spaces (d : ascii) (k : str) :
  isdigit d = false ->
  has_digit (SanitizeSpec.replace_spaces d k) = has_digit k.
Proof.
  intros Hd; unfold has_digit, SanitizeSpec.replace_spaces.
  induction k as [| c r IH]; [ reflexivity | ].
  cbn [map existsb]; rewrite IH.
  destruct (ascii_eq_dec c " "%char) as [-> | _]; [ rewrite Hd | ]; reflexivity.
Qed.

Lemma has_digit_app (a b : str) :
  has_digit (a ++ b) = has_digit a || has_digit b.
Proof. apply existsb_app. Qed.

Lemma has_digit_join (sep : str) (items : list str) :
  has_digit sep = false ->
  Forall (fun k => has_digit k = false) items ->
  has_digit (join sep items) = false.
Proof.
  intros Hs; induction 1 as [| x l Hx Hl IH]; [ reflexivity | ].
  destruct l as [| y l']; [ exact Hx | ].
  change (join sep (x :: y :: l')) with (x ++ sep ++ join sep (y :: l')).
  rewrite !has_digit_app, Hx, Hs, IH; reflexivity.
Qed.

Lemma discard_digits_Forall (keywords : list str) :
  Forall (fun k => has_digit k = false) (SanitizeSpec.discard_digits keywords).
Proof.
  apply Forall_forall; intros k Hk.
  apply filter_In in Hk; destruct Hk as [_ Hk].
  now apply negb_true_iff in Hk.
Qed.

Lemma Forall_firstn {A} (P : A -> Prop) (n : nat) (l : list A) :
  Forall P l -> Forall P (firstn n l).
Proof.
  intros H; revert n; induction H as [| x l Hx Hl IH]; intros [| n];
    cbn [firstn]; auto.
Qed.

Lemma entries_no_digit (d : ascii) (keywords : list str) :
  isdigit d = false ->
  Forall (fun k => has_digit k = false) (SanitizeSpec.entries d keywords).
Proof.
  intros Hd; unfold SanitizeSpec.entries, SanitizeSpec.keep_first_5.
  apply Forall_firstn, Forall_forall; intros e He.
  apply in_map_iff in He; destruct He as [k [<- Hk]].
  rewrite has_digit_replace_spaces by exact Hd.
  eapply Forall_forall in Hk; [ exact Hk | apply discard_digits_Forall ].
Qed.

Lemma entries_survivors (d : ascii) (keywords : list str) :
  SanitizeSpec.entries d keywords
  = map (SanitizeSpec.replace_spaces d) (SanitizeSpec.survivors keywords).
Proof.
  unfold SanitizeSpec.entries, SanitizeSpec.survivors, SanitizeSpec.keep_first_5.
  apply firstn_map.
Qed.

Lemma builder_spec (keywords : list str) (d : ascii) :
  accepted [d] = true ->
  keywords_to_string_with_delimiter keywords [d]
  = inr (SanitizeSpec.sanitize d keywords).
Proof.
  intros H; unfold keywords_to_string_with_delimiter; rewrite H; cbn [negb].
  rewrite cleaned_keywords_spec; reflexivity.
Qed.

(** C1. For every keyword list and accepted delimiter the builder returns
    the string the four-step sanitization rule describes: the keywords
    without a digit, their spaces replaced by the delimiter, the first five
    of them in their original order, joined with the delimiter.  The joined
    entries are at most five, none of them contains a digit, and neither
    does the result. *)
Theorem C1_sanitization (keywords : list str) (delimiter : str) :
  accepted delimiter = true ->
  exists d, delimiter = [d]
    /\ keywords_to_string_with_delimiter keywords delimiter
       = inr (SanitizeSpec.sanitize d keywords)
    /\ firstn 5 (cleaned_keywords delimiter keywords)
       = SanitizeSpec.entries d keywords
    /\ SanitizeSpec.entries d keywords
       = map (SanitizeSpec.replace_spaces d)
             (firstn 5 (filter (fun k => negb (has_digit k)) keywords))
    /\ List.length (SanitizeSpec.entries d keywords) <= 5
    /\ Forall (fun e => has_digit e = false) (SanitizeSpec.entries d keywords)
    /\ has_digit (SanitizeSpec.sanitize d keywords) = false.
Proof.
  intros H; destruct (accepted_single _ H) as [d [-> Hd]].
  exists d; split; [ reflexivity | ].
  split; [ now apply builder_spec | ].
  split; [ now rewrite cleaned_keywords_spec | ].
  split; [ apply entries_survivors | ].
  split; [ apply firstn_le_length | ].
  split; [ now apply entries_no_digit | ].
  apply has_digit_join; [ cbn; now rewrite Hd | now apply entries_no_digit ].
Qed.


Lemma count_char_app (c : ascii) (a b : str) :
  count_char c (a ++ b) = count_char c a + count_char c b.
Proof. apply count_occ_app. Qed.

Lemma count_char_join (d : ascii) (items : list str) :
  count_char d (join [d] items)
  = (List.length items - 1) + list_sum (map (count_char d) items).
Proof.
  induction items as [| x l IH]; [ reflexivity | ].
  destruct l as [| y l'].
  - unfold list_sum; cbn [join List.length map fold_right]. lia.
  - change (join [d] (x :: y :: l')) with (x ++ [d] ++ join [d] (y :: l')).
    rewrite !count_char_app, IH.
    assert (Hd : count_char d [d] = 1).
    { unfold count_char; cbn. destruct (ascii_eq_dec d d); congruence. }
    rewrite Hd. unfold list_sum; cbn [List.length map fold_right]. lia.
Qed.

Lemma count_char_replace_spaces (d : ascii) (k : str) :
  count_char d (SanitizeSpec.replace_spaces d k)
  = SanitizeSpec.delimiter_sources d k.
Proof.
  unfold SanitizeSpec.delimiter_sources, SanitizeSpec.replace_spaces, count_char.
  induction k as [| c r IH]; [ destruct (ascii_eq_dec d " "); reflexivity | ].
  cbn [map count_occ]. rewrite IH.
  destruct (ascii_eq_dec c " "%char) as [-> | Hc].
  - destruct (ascii_eq_dec d d); [ | congruence ].
    destruct (ascii_eq_dec " "%char " "%char); [ | congruence ].
    destruct (ascii_eq_dec d " "%char) as [-> | Hd].
    + reflexivity.
    + destruct (ascii_eq_dec " "%char d); [ congruence | lia ].
  - destruct (ascii_eq_dec c d) as [-> | Hcd].
    + destruct (ascii_eq_dec d " "%char); [ congruence | ].
      lia.
    + destruct (ascii_eq_dec d " "%char); reflexivity.
Qed.

Lemma delimiter_sources_zero (d : ascii) (k : str) :
  ~ In " "%char k -> ~ In d k -> SanitizeSpec.delimiter_sources d k = 0.
Proof.
  intros Hs Hd; unfold SanitizeSpec.delimiter_sources, count_char.
  rewrite (proj1 (count_occ_not_In ascii_eq_dec k " "%char) Hs).
  rewrite (proj1 (count_occ_not_In ascii_eq_dec k d) Hd).
  destruct (ascii_eq_dec d " "%char); reflexivity.
Qed.

Lemma list_sum_zero (l : list nat) :
  Forall (fun n => n = 0) l -> list_sum l = 0.
Proof.
  induction 1 as [| x l Hx _ IH]; [ reflexivity | ].
  change (list_sum (x :: l)) with (x + list_sum l); now rewrite Hx, IH.
Qed.

(** C7 (amended). For every keyword list and accepted delimiter the result
    is the kept entries joined with exactly that character between
    consecutive entries; the character occurs in the result once per
    junction and, besides, once for every space and every occurrence of the
    delimiter inside a kept keyword.  When no kept keyword contains a space
    or the delimiter, it occurs between entries and nowhere else. *)
Theorem C7_delimiter_occurrences (keywords : list str) (delimiter : str) :
  accepted delimiter = true ->
  exists d, delimiter = [d]
    /\ keywords_to_string_with_delimiter keywords delimiter
       = inr (join [d] (SanitizeSpec.entries d keywords))
    /\ count_char d (join [d] (SanitizeSpec.entries d keywords))
       = (List.length (SanitizeSpec.entries d keywords) - 1)
         + list_sum (map (SanitizeSpec.delimiter_sources d)
                         (SanitizeSpec.survivors keywords))
    /\ ((forall k, In k (SanitizeSpec.survivors keywords) ->
                   ~ In " "%char k /\ ~ In d k) ->
        count_char d (join [d] (SanitizeSpec.entries d keywords))
        = List.length (SanitizeSpec.entries d keywords) - 1).
Proof.
  intros H; destruct (accepted_single _ H) as [d [-> _]].
  exists d; split; [ reflexivity | ].
  split; [ now apply builder_spec | ].
  assert (Hcount :
    count_char d (join [d] (SanitizeSpec.entries d keywords))
    = (List.length (SanitizeSpec.entries d keywords) - 1)
      + list_sum (map (SanitizeSpec.delimiter_sources d)
                      (SanitizeSpec.survivors keywords))).
  { rewrite count_char_join, entries_survivors, map_map.
    f_equal. f_equal. apply map_ext; intros k.
    apply count_char_replace_spaces. }
  split; [ exact Hcount | ].
  intros Hclean; rewrite Hcount, list_sum_zero; [ lia | ].
  apply Forall_forall; intros n Hn.
  apply in_map_iff in Hn; destruct Hn as [k [<- Hk]].
  destruct (Hclean k Hk); now apply delimiter_sources_zero.
Qed.

(** * The file system *)

Lemma str_eqb_eq (a b : str) : str_eqb a b = true <-> a = b.
Proof. unfold str_eqb; destruct (str_eq_dec a b); split; congruence. Qed.

Lemma Path_eqb_refl (p : Path) : Path_eqb p p = true.
Proof. unfold Path_eqb; destruct (Path_eq_dec p p); congruence. Qed.

Lemma Path_eqb_neq (p q : Path) : p <> q -> Path_eqb p q = false.
Proof. unfold Path_eqb; destruct (Path_eq_dec p q); congruence. Qed.

Lemma lookup_write_eq (f : FS) (p : Path) (n : node) :
  lookup (write f p n) p = Some n.
Proof.
  induction f as [| [q m] r IH]; cbn [write lookup].
  - destruct (Path_eq_dec p p); congruence.
  - destruct (Path_eq_dec q p) as [-> | Hne]; cbn [lookup].
    + destruct (Path_eq_dec p p); congruence.
    + destruct (Path_eq_dec q p); congruence.
Qed.

Lemma lookup_write_neq (f : FS) (p q : Path) (n : node) :
  p <> q -> lookup (write f p n) q = lookup f q.
Proof.
  intros Hpq; induction f as [| [x m] r IH]; cbn [write lookup].
  - destruct (Path_eq_dec p q); congruence.
  - destruct (Path_eq_dec x p) as [-> | Hne]; cbn [lookup].
    + destruct (Path_eq_dec p q); congruence.
    + destruct (Path_eq_dec x q); congruence.
Qed.

Lemma lookup_delete_eq (f : FS) (p : Path) : lookup (delete f p) p = None.
Proof.
  unfold delete; induction f as [| [q m] r IH]; cbn [filter lookup fst];
    [ reflexivity | ].
  unfold Path_eqb at 1; destruct (Path_eq_dec q p) as [-> | Hne]; cbn [negb].
  - exact IH.
  - cbn [lookup]; destruct (Path_eq_dec q p); congruence.
Qed.

Lemma lookup_delete_neq (f : FS) (p q : Path) :
  p <> q -> lookup (delete f p) q = lookup f q.
Proof.
  intros Hpq; unfold delete;
    induction f as [| [x m] r IH]; cbn [filter lookup fst]; [ reflexivity | ].
  unfold Path_eqb at 1; destruct (Path_eq_dec x p) as [-> | Hne]; cbn [negb].
  - rewrite IH; destruct (Path_eq_dec p q); congruence.
  - cbn [lookup]; rewrite IH; reflexivity.
Qed.




(** * The logger *)

Lemma fs_log_record lvl msg st : fs (log_record lvl msg st) = fs st.
Proof. unfold log_record; destruct (_ <=? _); reflexivity. Qed.

Lemma trace_log_record lvl msg st : trace (log_record lvl msg st) = trace st.
Proof. unfold log_record; destruct (_ <=? _); reflexivity. Qed.

Lemma level_log_record lvl msg st : level (log_record lvl msg st) = level st.
Proof. unfold log_record; destruct (_ <=? _); reflexivity. Qed.

Lemma log_record_enabled lvl msg st :
  levelno (level st) <= levelno lvl ->
  log (log_record lvl msg st) = log st ++ [(lvl, msg)].
Proof.
  intros H; unfold log_record.
  destruct (Nat.leb_spec (levelno (level st)) (levelno lvl)); [ reflexivity | lia ].
Qed.

Lemma log_record_disabled lvl msg st :
  levelno lvl < levelno (level st) -> log_record lvl msg st = st.
Proof.
  intros H; unfold log_record.
  destruct (Nat.leb_spec (levelno (level st)) (levelno lvl)); [ lia | reflexivity ].
Qed.

Lemma log_record_error msg st :
  log (log_record ERROR msg st) = log st ++ [(ERROR, msg)].
Proof. apply log_record_enabled; destruct (level st); cbn; lia. Qed.

Lemma log_record_incl lvl msg st : incl (log st) (log (log_record lvl msg st)).
Proof.
  unfold log_record; destruct (_ <=? _); cbn [log];
    [ apply incl_appl | ]; apply incl_refl.
Qed.

(** * One iteration of [process_image] *)

Section Iteration.

Variable decode : str -> exn + image.
Variable chat : list event -> str -> exn + str.
Variable loads : str -> exn + list str.

Variables (directory_path : Path) (delimiter : str).
Variables (file : Path) (webp_files : list Path) (st : state).

(** The body of the [try], once the classification of [file] succeeded with
    the derived name [new_file_name], spelled out step by step. *)
Lemma process_body_classified (img content new_file_name : str)
    (keywords : list str) :
  fs_read (fs st) file = inr img ->
  chat ((trace st ++ [EvRead file]) ++ [EvChat img]) img = inr content ->
  loads (strip_fences content) = inr keywords ->
  keywords_to_string_with_delimiter keywords delimiter = inr new_file_name ->
  let target := joinpath directory_path (new_file_name ++ suffix file) in
  let st2 := emit (EvRename file target)
                  (emit (EvChat img) (emit (EvRead file) st)) in
  process_body chat loads directory_path delimiter file webp_files st
  = match fs_rename (fs st) file target with
    | inl e => (inl e, st2)
    | inr fs1 =>
        let st3 := log_record INFO
                     (L "Renamed " ++ name file ++ L " to " ++ name target)
                     (set_fs fs1 st2) in
        match find_webp webp_files file with
        | None =>
            (inr webp_files,
             log_record WARNING
               (L "No corresponding WebP file found for " ++ name file) st3)
        | Some w =>
            let st4 := emit (EvUnlink w) st3 in
            match fs_unlink fs1 w with
            | inl e => (inl e, st4)
            | inr fs2 =>
                (inr (list_remove w webp_files),
                 log_record INFO
                   (L "Removed original WebP file: " ++ path_str w)
                   (set_fs fs2 st4))
            end
        end
    end.
Proof.
  intros Hread Hchat Hloads Hname target st2.
  unfold process_body, generate_keywords, bind, do_emit, fs_query, query, lift.
  cbn [fs trace emit]. rewrite Hread. cbn [fs trace emit]. rewrite Hchat, Hloads, Hname.
  unfold path_rename, path_unlink, bind, do_emit, fs_update, logger, ret.
  cbn [fs emit]. fold target.
  destruct (fs_rename (fs st) file target) as [e | fs1]; [ reflexivity | ].
  destruct (find_webp webp_files file) as [w |]; [ | reflexivity ].
  cbn [fs emit]. rewrite fs_log_record. cbn [fs set_fs].
  destruct (fs_unlink fs1 w) as [e | fs2]; reflexivity.
Qed.

End Iteration.

Lemma find_webp_In (webp_files : list Path) (file w : Path) :
  find_webp webp_files file = Some w ->
  In w webp_files /\ stem w = stem file.
Proof.
  intros H; apply find_some in H; destruct H as [Hin Hst]; split; [ exact Hin | ].
  unfold str_eqb in Hst; destruct (str_eq_dec (stem w) (stem file));
    [ assumption | discriminate ].
Qed.


Lemma list_remove_incl (w : Path) (l : list Path) : incl (list_remove w l) l.
Proof.
  induction l as [| y r IH]; [ apply incl_refl | ].
  cbn [list_remove]; destruct (Path_eq_dec y w).
  - apply incl_tl, incl_refl.
  - intros x [-> | Hx]; [ now left | right; now apply IH ].
Qed.


Lemma process_one_not_skipped chat loads d delim file webp st :
  str_eqb (name file) (L ".DS_Store") = false ->
  process_one chat loads d delim file webp st
  = try_except (process_body chat loads d delim file webp) is_Exception
               (process_handler file webp) st.
Proof. intros H; unfold process_one; now rewrite H. Qed.

Lemma process_handler_eq (file : Path) (webp_files : list Path) (e : exn)
    (st : state) :
  process_handler file webp_files e st
  = (inr webp_files, log_record ERROR (handler_message file e) st).
Proof.
  unfold process_handler, handler_message, bind, logger, ret.
  destruct (is_JSONDecodeError e); reflexivity.
Qed.

(** Membership of an event in the trace a run leaves behind. *)
Ltac trace_in :=
  cbn [is_Exception]; rewrite ?process_handler_eq;
  repeat first [ rewrite trace_log_record
               | progress cbn [fst snd trace set_fs emit] ];
  rewrite ?in_app_iff; cbn [In]; tauto.




Section Renamer.

Variable chat : list event -> str -> exn + str.
Variable loads : str -> exn + list str.




End Renamer.

(** * Monotone computations *)

Lemma extends_refl (st : state) : extends st st.
Proof. repeat split; exists []; now rewrite app_nil_r. Qed.

Lemma extends_trans (a b c : state) : extends a b -> extends b c -> extends a c.
Proof.
  intros [Hl1 [[l1 Hg1] [t1 Ht1]]] [Hl2 [[l2 Hg2] [t2 Ht2]]].
  split; [ congruence | split ].
  - exists (l1 ++ l2); now rewrite Hg2, Hg1, app_assoc.
  - exists (t1 ++ t2); now rewrite Ht2, Ht1, app_assoc.
Qed.

Lemma extends_trace (a b : state) (e : event) :
  extends a b -> In e (trace a) -> In e (trace b).
Proof. intros [_ [_ [t ->]]] H; apply in_or_app; now left. Qed.

Lemma extends_log (a b : state) r :
  extends a b -> In r (log a) -> In r (log b).
Proof. intros [_ [[l ->] _]] H; apply in_or_app; now left. Qed.

Lemma extends_emit (e : event) (st : state) : extends st (emit e st).
Proof.
  split; [ reflexivity | split ]; cbn [log trace emit];
    [ exists []; now rewrite app_nil_r | now exists [e] ].
Qed.

Lemma extends_log_record lvl msg st : extends st (log_record lvl msg st).
Proof.
  unfold log_record; destruct (_ <=? _); [ | apply extends_refl ].
  split; [ reflexivity | split ]; cbn [log trace];
    [ now exists [(lvl, msg)] | exists []; now rewrite app_nil_r ].
Qed.

Lemma extends_set_fs f st : extends st (set_fs f st).
Proof. repeat split; exists []; cbn; now rewrite app_nil_r. Qed.

Lemma monotone_ret {A} (a : A) : monotone (ret a).
Proof. intros st; apply extends_refl. Qed.

Lemma monotone_raise {A} (e : exn) : monotone (@raise A e).
Proof. intros st; apply extends_refl. Qed.

Lemma monotone_lift {A} (r : exn + A) : monotone (lift r).
Proof. intros st; apply extends_refl. Qed.

Lemma monotone_bind {A B} (m : M A) (k : A -> M B) :
  monotone m -> (forall a, monotone (k a)) -> monotone (bind m k).
Proof.
  intros Hm Hk st; unfold bind.
  specialize (Hm st); destruct (m st) as [[e | a] st1]; cbn [snd] in *.
  - exact Hm.
  - eapply extends_trans; [ exact Hm | apply Hk ].
Qed.

Lemma monotone_try_except {A} (m : M A) is_E (h : exn -> M A) :
  monotone m -> (forall e, monotone (h e)) -> monotone (try_except m is_E h).
Proof.
  intros Hm Hh st; unfold try_except.
  specialize (Hm st); destruct (m st) as [[e | a] st1]; cbn [snd] in *.
  - destruct (is_E e); [ | exact Hm ].
    eapply extends_trans; [ exact Hm | apply Hh ].
  - exact Hm.
Qed.

Lemma monotone_do_emit (e : event) : monotone (do_emit e).
Proof. intros st; apply extends_emit. Qed.

Lemma monotone_logger lvl msg : monotone (logger lvl msg).
Proof. intros st; apply extends_log_record. Qed.

Lemma monotone_fs_update f : monotone (fs_update f).
Proof.
  intros st; unfold fs_update; destruct (f (fs st));
    [ apply extends_refl | apply extends_set_fs ].
Qed.

Lemma monotone_fs_query {A} (f : FS -> exn + A) : monotone (fs_query f).
Proof. intros st; apply extends_refl. Qed.

Lemma monotone_query {A} (f : state -> exn + A) : monotone (query f).
Proof. intros st; apply extends_refl. Qed.

Create HintDb mono.
#[export] Hint Resolve monotone_ret monotone_raise monotone_lift
  monotone_do_emit monotone_logger monotone_fs_update monotone_fs_query
  monotone_query : mono.

Ltac mono :=
  repeat first
    [ apply monotone_bind; [ | intros ? ]
    | apply monotone_try_except; [ | intros ? ]
    | solve [ auto with mono ]
    | match goal with
      | |- monotone (match ?x with _ => _ end) => destruct x
      | |- monotone (if ?x then _ else _) => destruct x
      end ].

Section Monotonicity.

Variable decode : str -> exn + image.
Variable chat : list event -> str -> exn + str.
Variable loads : str -> exn + list str.

Lemma monotone_generate_keywords file : monotone (generate_keywords chat file).
Proof. unfold generate_keywords; mono. Qed.

Lemma monotone_process_body d delim file webp :
  monotone (process_body chat loads d delim file webp).
Proof.
  unfold process_body, path_rename, path_unlink; mono.
Qed.

Lemma monotone_process_one d delim file webp :
  monotone (process_one chat loads d delim file webp).
Proof.
  unfold process_one, process_handler; mono.
Qed.

Lemma monotone_process_loop d delim files webp :
  monotone (process_loop chat loads d delim files webp).
Proof.
  revert webp; induction files as [| f r IH]; intros webp; cbn [process_loop].
  - mono.
  - apply monotone_bind; [ apply monotone_process_one | intros a; apply IH ].
Qed.

Lemma monotone_report_remaining webp : monotone (report_remaining webp).
Proof. induction webp as [| w r IH]; cbn [report_remaining]; mono. Qed.

Lemma monotone_process_image d files webp delim :
  monotone (process_image chat loads d files webp delim).
Proof.
  unfold process_image; mono;
    first [ apply monotone_process_loop | apply monotone_report_remaining ].
Qed.

Lemma monotone_convert_webp_to_jpeg file_path :
  monotone (convert_webp_to_jpeg decode file_path).
Proof. unfold convert_webp_to_jpeg, image_open, image_save; mono. Qed.

Lemma monotone_convert_loop entries acc :
  monotone (convert_loop decode entries acc).
Proof.
  revert acc; induction entries as [| f r IH]; intros acc; cbn [convert_loop].
  - mono.
  - unfold path_is_file. apply monotone_bind.
    + apply monotone_bind; [ auto with mono | intros _ st; apply extends_refl ].
    + intros isf. destruct (isf && _); [ | apply IH ].
      apply monotone_bind;
        [ apply monotone_convert_webp_to_jpeg | intros a; apply IH ].
Qed.

Lemma monotone_convert_files_to_jpeg d :
  monotone (convert_files_to_jpeg decode d).
Proof. unfold convert_files_to_jpeg; mono; apply monotone_convert_loop. Qed.

End Monotonicity.

Lemma total_bind {A B} (m : M A) (k : A -> M B) :
  total m -> (forall a, total (k a)) -> total (bind m k).
Proof.
  intros Hm Hk st; unfold bind.
  destruct (Hm st) as [a Ha]; destruct (m st) as [[e | a'] st1]; cbn [fst] in Ha;
    [ discriminate | apply Hk ].
Qed.

Lemma total_ret {A} (a : A) : total (ret a).
Proof. intros st; now exists a. Qed.

Lemma total_logger lvl msg : total (logger lvl msg).
Proof. intros st; now exists tt. Qed.

Lemma bind_inr {A B} (m : M A) (k : A -> M B) (st st1 : state) (a : A) :
  m st = (inr a, st1) -> bind m k st = k a st1.
Proof. intros H; unfold bind; now rewrite H. Qed.

Lemma bind_inr_inv {A B} (m : M A) (k : A -> M B) (st st2 : state) (b : B) :
  bind m k st = (inr b, st2) ->
  exists a st1, m st = (inr a, st1) /\ k a st1 = (inr b, st2).
Proof.
  unfold bind; destruct (m st) as [[e | a] st1]; [ discriminate | ].
  intros H; now exists a, st1.
Qed.

Lemma total_run {A} (m : M A) (st : state) :
  total m -> exists a, m st = (inr a, snd (m st)).
Proof.
  intros H; destruct (H st) as [a Ha]; exists a.
  destruct (m st) as [r st1]; cbn [fst snd] in *; now subst.
Qed.

Section Loop.

Variable chat : list event -> str -> exn + str.
Variable loads : str -> exn + list str.
Variables (directory_path : Path) (delimiter : str).


Lemma process_one_raised file webp st e st1 :
  str_eqb (name file) (L ".DS_Store") = false ->
  process_body chat loads directory_path delimiter file webp st = (inl e, st1) ->
  process_one chat loads directory_path delimiter file webp st
  = (inr webp, log_record ERROR (handler_message file e) st1).
Proof.
  intros Hds Hbody; rewrite process_one_not_skipped by exact Hds.
  unfold try_except; rewrite Hbody; cbn [is_Exception].
  apply process_handler_eq.
Qed.

Lemma total_process_one file webp :
  total (process_one chat loads directory_path delimiter file webp).
Proof.
  intros st; unfold process_one.
  destruct (str_eqb (name file) (L ".DS_Store")); [ now exists webp | ].
  unfold try_except.
  destruct (process_body chat loads directory_path delimiter file webp st)
    as [[e | a] st1].
  - cbn [is_Exception]; rewrite process_handler_eq; now exists webp.
  - now exists a.
Qed.

Lemma total_process_loop files webp :
  total (process_loop chat loads directory_path delimiter files webp).
Proof.
  revert webp; induction files as [| f r IH]; intros webp; cbn [process_loop].
  - apply total_ret.
  - apply total_bind; [ apply total_process_one | intros a; apply IH ].
Qed.

Lemma total_report_remaining webp : total (report_remaining webp).
Proof.
  induction webp as [| w r IH]; cbn [report_remaining];
    [ apply total_ret | apply total_bind; [ apply total_logger | intros _; exact IH ] ].
Qed.

Lemma total_process_image files webp :
  total (process_image chat loads directory_path files webp delimiter).
Proof.
  unfold process_image. apply total_bind; [ apply total_process_loop | intros a ].
  apply total_bind; [ apply total_report_remaining | intros _; apply total_ret ].
Qed.

(** The first thing an iteration does is read the file. *)
Lemma after_emit_bind {A} (e : event) (k : unit -> M A) :
  monotone (k tt) -> after (emit e) (bind (do_emit e) k).
Proof. intros Hk st; apply Hk. Qed.

Lemma after_bind {A B} (f : state -> state) (m : M A) (k : A -> M B) :
  after f m -> (forall a, monotone (k a)) -> after f (bind m k).
Proof.
  intros Hm Hk st; unfold bind.
  specialize (Hm st); destruct (m st) as [[e | a] st1]; cbn [snd] in *.
  - exact Hm.
  - eapply extends_trans; [ exact Hm | apply Hk ].
Qed.

Lemma after_try_except {A} (f : state -> state) (m : M A) is_E
    (h : exn -> M A) :
  after f m -> (forall e, monotone (h e)) -> after f (try_except m is_E h).
Proof.
  intros Hm Hh st; unfold try_except.
  specialize (Hm st); destruct (m st) as [[e | a] st1]; cbn [snd] in *.
  - destruct (is_E e); [ | exact Hm ].
    eapply extends_trans; [ exact Hm | apply Hh ].
  - exact Hm.
Qed.

Lemma process_body_after_read file webp :
  after (emit (EvRead file))
        (process_body chat loads directory_path delimiter file webp).
Proof.
  unfold process_body, path_rename, path_unlink.
  apply after_bind; [ | intros content; mono ].
  unfold generate_keywords; apply after_emit_bind; mono.
Qed.

Lemma process_one_reads file webp st :
  str_eqb (name file) (L ".DS_Store") = false ->
  In (EvRead file)
     (trace (snd (process_one chat loads directory_path delimiter file webp st))).
Proof.
  intros Hds; rewrite process_one_not_skipped by exact Hds.
  eapply extends_trace.
  - apply after_try_except; [ apply process_body_after_read | ].
    intros e; unfold process_handler; mono.
  - cbn [trace emit]; apply in_or_app; right; now left.
Qed.

Lemma process_loop_reads files webp st file :
  In file files ->
  str_eqb (name file) (L ".DS_Store") = false ->
  In (EvRead file)
     (trace (snd (process_loop chat loads directory_path delimiter files webp st))).
Proof.
  revert webp st; induction files as [| f r IH]; intros webp st Hin Hds;
    [ destruct Hin | ].
  cbn [process_loop].
  destruct (total_run _ st (total_process_one f webp)) as [webp' Hone].
  rewrite (bind_inr _ _ _ _ _ Hone).
  destruct Hin as [-> | Hin].
  - eapply extends_trace; [ apply monotone_process_loop | ].
    now apply process_one_reads.
  - now apply IH.
Qed.

Lemma process_body_result file webp st a st1 :
  process_body chat loads directory_path delimiter file webp st = (inr a, st1) ->
  a = webp \/ exists w, find_webp webp file = Some w /\ a = list_remove w webp.
Proof.
  unfold process_body; intros H.
  repeat (apply bind_inr_inv in H; destruct H as (? & ? & _ & H)).
  destruct (find_webp webp file) as [w |].
  - repeat (apply bind_inr_inv in H; destruct H as (? & ? & _ & H)).
    injection H as <- _; right; now exists w.
  - repeat (apply bind_inr_inv in H; destruct H as (? & ? & _ & H)).
    injection H as <- _; now left.
Qed.

Lemma process_one_incl file webp st a :
  fst (process_one chat loads directory_path delimiter file webp st) = inr a ->
  incl a webp.
Proof.
  unfold process_one.
  destruct (str_eqb (name file) (L ".DS_Store")).
  { cbn; intros H; injection H as <-; apply incl_refl. }
  unfold try_except.
  destruct (process_body chat loads directory_path delimiter file webp st)
    as [[e | b] st1] eqn:Hbody.
  - cbn [is_Exception]; rewrite process_handler_eq.
    cbn; intros H; injection H as <-; apply incl_refl.
  - cbn; intros H; injection H as <-.
    destruct (process_body_result _ _ _ _ _ Hbody) as [-> | [w [_ ->]]];
      [ apply incl_refl | apply list_remove_incl ].
Qed.

Lemma process_loop_incl files webp st remaining :
  fst (process_loop chat loads directory_path delimiter files webp st)
  = inr remaining ->
  incl remaining webp.
Proof.
  revert webp st; induction files as [| f r IH]; intros webp st;
    cbn [process_loop].
  - cbn; intros H; injection H as <-; apply incl_refl.
  - destruct (total_run _ st (total_process_one f webp)) as [webp' Hone].
    rewrite (bind_inr _ _ _ _ _ Hone). intros H.
    apply incl_tran with webp'; [ eapply IH; exact H | ].
    apply (process_one_incl f webp st); now rewrite Hone.
Qed.

End Loop.

Lemma report_remaining_spec (webp : list Path) (st : state) :
  fst (report_remaining webp st) = inr tt
  /\ fs (snd (report_remaining webp st)) = fs st
  /\ trace (snd (report_remaining webp st)) = trace st
  /\ (levelno (level st) <= levelno WARNING ->
      forall w, In w webp ->
        In (WARNING, L "Unprocessed WebP file: " ++ path_str w)
           (log (snd (report_remaining webp st))))
  /\ (levelno WARNING < levelno (level st) ->
      snd (report_remaining webp st) = st).
Proof.
  revert st; induction webp as [| w r IH]; intros st.
  - cbn; repeat split; [ intros _ w [] ].
  - cbn [report_remaining]; unfold bind, logger.
    set (st1 := log_record WARNING (L "Unprocessed WebP file: " ++ path_str w) st).
    destruct (IH st1) as [H1 [H2 [H3 [H4 H5]]]].
    split; [ exact H1 | ].
    split; [ rewrite H2; apply fs_log_record | ].
    split; [ rewrite H3; apply trace_log_record | ].
    split.
    + intros Hlvl x [<- | Hx].
      * eapply extends_log; [ apply monotone_report_remaining | ].
        unfold st1; rewrite log_record_enabled by exact Hlvl.
        apply in_or_app; right; now left.
      * apply H4; [ unfold st1; now rewrite level_log_record | exact Hx ].
    + intros Hlvl.
      assert (Hst1 : st1 = st) by (apply log_record_disabled; exact Hlvl).
      rewrite H5; [ exact Hst1 | now rewrite Hst1 ].
Qed.

Section Failures.

Variable chat : list event -> str -> exn + str.
Variable loads : str -> exn + list str.
Variables (directory_path : Path) (delimiter : str).

(** An exception leaves the body either before the rename has changed
    anything, or from the deletion of the matched legacy file, after the
    rename. *)
Lemma process_body_raised (file : Path) (webp : list Path) (st st1 : state)
    (e : exn) :
  process_body chat loads directory_path delimiter file webp st = (inl e, st1) ->
  fs st1 = fs st
  \/ exists new_file_name fs1 w,
       fs_rename (fs st) file
                 (joinpath directory_path (new_file_name ++ suffix file))
       = inr fs1
       /\ find_webp webp file = Some w
       /\ fs_unlink fs1 w = inl e
       /\ fs st1 = fs1.
Proof.
  destruct (fs_read (fs st) file) as [e0 | img] eqn:Hread.
  { unfold process_body, generate_keywords, bind, do_emit, fs_query.
    cbn [fs emit]; rewrite Hread; intros H; injection H as _ <-; now left. }
  destruct (chat ((trace st ++ [EvRead file]) ++ [EvChat img]) img)
    as [e0 | content] eqn:Hchat.
  { unfold process_body, generate_keywords, bind, do_emit, fs_query, query, lift.
    cbn [fs trace emit]; rewrite Hread, Hchat; intros H; injection H as _ <-; now left. }
  destruct (loads (strip_fences content)) as [e0 | keywords] eqn:Hloads.
  { unfold process_body, generate_keywords, bind, do_emit, fs_query, query, lift.
    cbn [fs trace emit]; rewrite Hread, Hchat, Hloads.
    intros H; injection H as _ <-; now left. }
  destruct (keywords_to_string_with_delimiter keywords delimiter)
    as [e0 | new_file_name] eqn:Hname.
  { unfold process_body, generate_keywords, bind, do_emit, fs_query, query, lift.
    cbn [fs trace emit]; rewrite Hread, Hchat, Hloads, Hname.
    intros H; injection H as _ <-; now left. }
  rewrite (process_body_classified chat loads directory_path delimiter file webp
             st img content new_file_name keywords Hread Hchat Hloads Hname).
  cbv zeta.
  destruct (fs_rename (fs st) file _) as [e0 | fs1] eqn:Hren.
  { intros H; injection H as _ <-; now left. }
  destruct (find_webp webp file) as [w |]; [ | discriminate ].
  destruct (fs_unlink fs1 w) as [e0 | fs2] eqn:Hunl; [ | discriminate ].
  intros H; injection H as <- <-; right.
  exists new_file_name, fs1, w.
  rewrite Hren. cbn [fs emit]. rewrite fs_log_record. cbn [fs set_fs].
  repeat split; assumption.
Qed.

(** C5 (amended). The batch never aborts: [process_image] returns normally
    whatever happens to single files, and every file of the batch other
    than [.DS_Store] is read.  An exception raised in an iteration is
    caught, an error record naming the file is logged, the tracked list is
    left as it was and the loop goes on; the exception either left the file
    system as it was (the rename and the delete are skipped), or it was
    raised by the deletion of the matched legacy file, after the rename,
    which then stands.  After the loop a warning naming each legacy file
    still tracked is handed to the logger, which records it exactly when its
    level admits warnings; the report touches no file. *)
Theorem C5_failures_stay_local
    (converted_files webp_files : list Path) (st : state) :
  let loop := process_loop chat loads directory_path delimiter
                           converted_files webp_files st in
  let result := process_image chat loads directory_path converted_files
                              webp_files delimiter st in
  (exists remaining,
      fst loop = inr remaining
      /\ fst result = inr remaining
      /\ incl remaining webp_files
      /\ fs (snd result) = fs (snd loop)
      /\ trace (snd result) = trace (snd loop)
      /\ (levelno (level st) <= levelno WARNING ->
          forall w, In w remaining ->
            In (WARNING, L "Unprocessed WebP file: " ++ path_str w)
               (log (snd result)))
      /\ (levelno WARNING < levelno (level st) -> snd result = snd loop))
  /\ (forall file,
        In file converted_files ->
        str_eqb (name file) (L ".DS_Store") = false ->
        In (EvRead file) (trace (snd result)))
  /\ (forall file webp st0 e st1,
        str_eqb (name file) (L ".DS_Store") = false ->
        process_body chat loads directory_path delimiter file webp st0
        = (inl e, st1) ->
        process_one chat loads directory_path delimiter file webp st0
        = (inr webp, log_record ERROR (handler_message file e) st1)
        /\ In (ERROR, handler_message file e)
              (log (log_record ERROR (handler_message file e) st1))
        /\ (fs st1 = fs st0
            \/ exists new_file_name fs1 w,
                 fs_rename (fs st0) file
                   (joinpath directory_path (new_file_name ++ suffix file))
                 = inr fs1
                 /\ find_webp webp file = Some w
                 /\ fs_unlink fs1 w = inl e
                 /\ fs st1 = fs1)).
Proof.
  intros loop result.
  destruct (total_run _ st (total_process_loop chat loads directory_path
                              delimiter converted_files webp_files))
    as [remaining Hloop].
  fold loop in Hloop.
  assert (Hres : result
                 = (inr remaining, snd (report_remaining remaining (snd loop)))).
  { unfold result, process_image. rewrite (bind_inr _ _ _ _ _ Hloop).
    destruct (report_remaining_spec remaining (snd loop)) as [H1 _].
    unfold bind. destruct (report_remaining remaining (snd loop)) as [r st2].
    cbn [fst snd] in *. now rewrite H1. }
  destruct (report_remaining_spec remaining (snd loop)) as [_ [H2 [H3 [H4 H5]]]].
  assert (Hext : extends st (snd loop)) by apply monotone_process_loop.
  split; [ | split ].
  - exists remaining. rewrite Hres, Hloop. cbn [fst snd].
    split; [ reflexivity | ]. split; [ reflexivity | ].
    split; [ apply (process_loop_incl chat loads directory_path delimiter
                      converted_files webp_files st); fold loop;
             now rewrite Hloop | ].
    split; [ exact H2 | ]. split; [ exact H3 | ].
    destruct Hext as [Hlvl _].
    split; intros Hl; [ apply H4 | apply H5 ]; now rewrite Hlvl.
  - intros file Hin Hds. rewrite Hres; cbn [snd]. rewrite H3.
    now apply process_loop_reads.
  - intros file webp st0 e st1 Hds Hbody.
    split; [ now apply process_one_raised | ].
    split; [ rewrite log_record_error; apply in_or_app; right; now left | ].
    eapply process_body_raised; exact Hbody.
Qed.

End Failures.

Lemma accepted_In (delimiter : str) :
  accepted delimiter = true <-> In delimiter accepted_delimiters.
Proof.
  unfold accepted; rewrite existsb_exists; split.
  - intros [x [Hx Heq]]; unfold str_eqb in Heq.
    destruct (str_eq_dec delimiter x); [ now subst | discriminate ].
  - intros H; exists delimiter; split; [ exact H | ].
    unfold str_eqb; destruct (str_eq_dec delimiter delimiter); congruence.
Qed.

Section Command.

Variable decode : str -> exn + image.
Variable chat : list event -> str -> exn + str.
Variable loads : str -> exn + list str.

(** C6. A delimiter outside the accepted set makes the command raise the
    configuration error before anything else happens: the state it leaves
    is the state it found, so no file-system access and no other effect
    precedes the rejection, and the run ends there, before any call of the
    filename builder. *)
Theorem C6_invalid_delimiter_rejected
    (directory_path delimiter : str) (verbose : bool) (st : state) :
  ~ In delimiter accepted_delimiters ->
  let result := process_dir decode chat loads directory_path delimiter verbose st in
  result
  = (inl (BadParameter (L "Delimiter must be '_', '-', or ' ' (space).")), st)
  /\ trace (snd result) = trace st
  /\ filter is_fs_access (trace (snd result)) = filter is_fs_access (trace st)
  /\ fs (snd result) = fs st.
Proof.
  intros Hnot result.
  assert (Hacc : accepted delimiter = false).
  { destruct (accepted delimiter) eqn:H; [ | reflexivity ].
    apply accepted_In in H; contradiction. }
  assert (Hres : result
    = (inl (BadParameter (L "Delimiter must be '_', '-', or ' ' (space).")), st)).
  { unfold result, process_dir; rewrite Hacc; reflexivity. }
  rewrite Hres; repeat split.
Qed.

Lemma process_dir_accepted
    (directory_path delimiter : str) (verbose : bool) (st : state) :
  accepted delimiter = true ->
  let dir_path := parse_path directory_path in
  process_dir decode chat loads directory_path delimiter verbose st
  = match convert_files_to_jpeg decode dir_path
            (before_normalization dir_path verbose st) with
    | (inl e, st2) => (inl e, st2)
    | (inr converted, st2) =>
        let st3 := log_record INFO
                     (L "Converted " ++ str_of_nat (List.length converted)
                      ++ L " files to JPEG") st2 in
        match converted with
        | [] => (inr tt,
                 log_record WARNING (L "No JPEG files to process. Exiting.") st3)
        | _ :: _ =>
            bind (process_image chat loads dir_path converted
                    (fs_glob_webp (fs st) dir_path) delimiter)
                 (fun _ => ret tt) st3
        end
    end.
Proof.
  intros Hacc dir_path; unfold process_dir; rewrite Hacc; cbn [negb].
  fold dir_path. unfold before_normalization.
  unfold bind at 1 2 3 4 5, configure_logging, do_emit, logger, query.
  cbn [fs emit].
  destruct (convert_files_to_jpeg decode dir_path _) as [[e | converted] st2];
    [ reflexivity | ].
  unfold bind at 1. destruct converted; reflexivity.
Qed.

Lemma convert_loop_no_legacy (entries acc : list Path) (st : state) :
  (forall e, In e entries ->
             is_file (fs st) e && has_legacy_suffix e = false) ->
  convert_loop decode entries acc st
  = (inr acc, mkState (fs st) (level st) (log st)
                      (trace st ++ map EvIsFile entries)).
Proof.
  revert st; induction entries as [| f r IH]; intros st Hall.
  - cbn; rewrite app_nil_r; now destruct st.
  - cbn [convert_loop]; unfold path_is_file, bind at 1 2, do_emit, query.
    cbn [fs emit].
    change (str_eqb (lower (suffix f)) (L ".webp")) with (has_legacy_suffix f).
    rewrite (Hall f (or_introl eq_refl)).
    rewrite IH by (intros e He; apply Hall; now right).
    cbn [fs level log trace emit map]. now rewrite <- app_assoc.
Qed.

(** X16. When the directory lists no regular file whose suffix is the
    legacy extension up to case, the command hands the logger the warning
    that there is nothing to process and returns: the file system is the
    one it found, and the only events are the glob, the listing and the
    file tests of the normalization; no image is opened, no classifier
    call is made, nothing is renamed or deleted. *)
Theorem process_dir_without_legacy_files
    (directory_path delimiter : str) (verbose : bool) (st : state) :
  accepted delimiter = true ->
  is_dir (fs st) (parse_path directory_path) = true ->
  (forall e, In e (listdir (fs st) (parse_path directory_path)) ->
             is_file (fs st) e && has_legacy_suffix e = false) ->
  let dir_path := parse_path directory_path in
  let result := process_dir decode chat loads directory_path delimiter verbose st in
  fst result = inr tt
  /\ fs (snd result) = fs st
  /\ trace (snd result)
     = trace st ++ EvGlob dir_path :: EvIterdir dir_path
                   :: map EvIsFile (listdir (fs st) dir_path)
  /\ filter is_chat (trace (snd result)) = filter is_chat (trace st)
  /\ (verbose = true ->
      In (WARNING, L "No JPEG files to process. Exiting.") (log (snd result))).
Proof.
  intros Hacc Hdir Hall dir_path result.
  assert (Hfs : fs (before_normalization dir_path verbose st) = fs st).
  { unfold before_normalization; now rewrite fs_log_record. }
  assert (Htr : trace (before_normalization dir_path verbose st)
                = trace st ++ [EvGlob dir_path]).
  { unfold before_normalization; now rewrite trace_log_record. }
  assert (Hlv : level (before_normalization dir_path verbose st)
                = if verbose then INFO else ERROR).
  { unfold before_normalization; now rewrite level_log_record. }
  assert (Hconv : convert_files_to_jpeg decode dir_path
                    (before_normalization dir_path verbose st)
                  = (inr [],
                     mkState (fs st) (if verbose then INFO else ERROR)
                       (log (before_normalization dir_path verbose st))
                       (trace st ++ EvGlob dir_path :: EvIterdir dir_path
                                 :: map EvIsFile (listdir (fs st) dir_path)))).
  { unfold convert_files_to_jpeg, bind at 1 2, do_emit, fs_query.
    cbn [fs emit]. rewrite Hfs. unfold fs_iterdir.
    unfold is_dir in Hdir. fold dir_path in Hdir.
    destruct (lookup (fs st) dir_path) as [[c |] |]; try discriminate.
    rewrite convert_loop_no_legacy
      by (cbn [fs emit]; rewrite Hfs; exact Hall).
    cbn [fs level log trace emit]. rewrite Hfs, Hlv, Htr.
    now rewrite <- !app_assoc. }
  unfold result. rewrite process_dir_accepted by exact Hacc.
  fold dir_path. rewrite Hconv. cbn [fst snd].
  rewrite !fs_log_record, !trace_log_record. cbn [fs trace].
  split; [ reflexivity | ]. split; [ reflexivity | ]. split; [ reflexivity | ].
  split.
  - assert (Hnone : forall l, filter is_chat (map EvIsFile l) = []).
    { induction l as [| x l IHl]; [ reflexivity | exact IHl ]. }
    rewrite !filter_app. cbn [app filter is_chat].
    now rewrite Hnone, app_nil_r.
  - intros ->. rewrite log_record_enabled.
    + apply in_or_app; right; now left.
    + rewrite level_log_record; cbn; lia.
Qed.

End Command.

(** * Suffixes *)

Lemma startswith_app (p s : str) : startswith (p ++ s) p = true.
Proof.
  induction p as [| a p IH]; [ now destruct s | ].
  cbn; destruct (ascii_eq_dec a a); congruence.
Qed.


Lemma endswith_app (a p : str) : endswith (a ++ p) p = true.
Proof. unfold endswith; rewrite rev_app_distr; apply startswith_app. Qed.


Lemma lower_app (a b : str) : lower (a ++ b) = lower a ++ lower b.
Proof. apply map_app. Qed.


Lemma join_last (sep : str) (ps : list str) :
  ps <> [] -> exists pre, join sep ps = pre ++ last ps [].
Proof.
  induction ps as [| x l IH]; [ congruence | intros _ ].
  destruct l as [| y l']; [ now exists [] | ].
  destruct IH as [pre Hpre]; [ discriminate | ].
  exists (x ++ sep ++ pre).
  change (join sep (x :: y :: l')) with (x ++ sep ++ join sep (y :: l')).
  change (last (x :: y :: l') []) with (last (y :: l') []).
  now rewrite Hpre, <- !app_assoc.
Qed.

(** A non-empty suffix is the end of the name, and of the path string. *)
Lemma suffix_of_name (p : Path) :
  suffix p <> [] -> exists a, name p = a ++ suffix p.
Proof.
  unfold suffix; destruct (_ && _)%Z; [ intros _ | congruence ].
  exists (upto (name p) (rfind (name p) "."%char)).
  unfold upto, from; now rewrite firstn_skipn.
Qed.

Lemma path_str_name (p : Path) :
  parts p <> [] -> exists pre, path_str p = pre ++ name p.
Proof.
  intros H; destruct (join_last (L "/") (parts p) H) as [pre Hpre].
  exists (root p ++ pre); unfold path_str, name.
  destruct (root p) as [| c r] eqn:Hr;
    [ destruct (parts p); [ congruence | exact Hpre ] | ].
  now rewrite Hpre, app_assoc.
Qed.

Lemma legacy_suffix_parts (p : Path) :
  has_legacy_suffix p = true -> suffix p <> [] /\ parts p <> [].
Proof.
  unfold has_legacy_suffix; rewrite str_eqb_eq; intros H.
  assert (Hs : suffix p <> []) by (intros E; rewrite E in H; discriminate).
  split; [ exact Hs | ].
  intros E; apply Hs; unfold suffix, name; rewrite E; cbn.
  reflexivity.
Qed.

(** The test of line 89 implies the test of line 55. *)
Lemma legacy_suffix_endswith (p : Path) :
  has_legacy_suffix p = true ->
  endswith (lower (path_str p)) (L ".webp") = true.
Proof.
  intros H; destruct (legacy_suffix_parts p H) as [Hs Hp].
  destruct (suffix_of_name p Hs) as [a Ha].
  destruct (path_str_name p Hp) as [pre Hpre].
  rewrite Hpre, Ha, app_assoc, lower_app.
  apply str_eqb_eq in H; rewrite H. apply endswith_app.
Qed.


(** * The normalization *)

Lemma fs_read_IOError (f : FS) (p : Path) (e : exn) :
  fs_read f p = inl e -> is_IOError e = true.
Proof.
  unfold fs_read; destruct (lookup f p) as [[c |] |]; intros H;
    try discriminate; injection H as <-; reflexivity.
Qed.

Lemma fs_create_IOError (f : FS) (p : Path) (c : str) (e : exn) :
  fs_create f p c = inl e -> is_IOError e = true.
Proof.
  unfold fs_create; destruct (lookup f p) as [[c' |] |];
    [ discriminate | | destruct (is_dir f (parent p)); [ discriminate | ] ];
    intros H; injection H as <-; reflexivity.
Qed.

(** Creating a file changes the binding of its path only, and never the
    kind of a node that exists. *)
Lemma fs_create_frame (f f' : FS) (out : Path) (c : str) :
  fs_create f out c = inr f' ->
  (forall p, out <> p -> lookup f' p = lookup f p)
  /\ (forall p, lookup f p <> None ->
                lookup f' p <> None /\ is_file f' p = is_file f p).
Proof.
  intros H.
  assert (Hw : f' = write f out (File c) /\ lookup f out <> Some Dir).
  { revert H; unfold fs_create.
    destruct (lookup f out) as [[c' |] |]; [ | discriminate | ].
    - intros H; injection H as <-; split; [ reflexivity | discriminate ].
    - destruct (is_dir f (parent out)); [ | discriminate ].
      intros H; injection H as <-; split; [ reflexivity | discriminate ]. }
  destruct Hw as [-> Hnd]; split.
  - intros p Hp; now apply lookup_write_neq.
  - intros p Hp; unfold is_file.
    destruct (Path_eq_dec out p) as [<- | Hne].
    + rewrite lookup_write_eq; split; [ discriminate | ].
      destruct (lookup f out) as [[c' |] |]; congruence.
    + rewrite lookup_write_neq by exact Hne; now split.
Qed.

Section Conversion.

Variable decode : str -> exn + image.

(** What one conversion does, for a path string that passes line 55. *)
Lemma convert_webp_to_jpeg_cases (file_path : str) (st : state) :
  endswith (lower file_path) (L ".webp") = true ->
  let p := parse_path file_path in
  let new_file_path := fst (splitext file_path) ++ L ".jpeg" in
  let out := parse_path new_file_path in
  let st1 := emit (EvImageOpen p) st in
  let st2 := emit (EvImageSave out) st1 in
  convert_webp_to_jpeg decode file_path st
  = match fs_read (fs st) p with
    | inl e => (inr failed_message, st1)
    | inr c =>
        match decode c with
        | inl e => caught e st1
        | inr img =>
            match fs_create (fs st) out [] with
            | inl e => (inr failed_message, st2)
            | inr fs' =>
                match img with
                | Saves jpeg =>
                    (inr new_file_path, set_fs (write fs' out (File jpeg)) st2)
                | SaveRaises e removes_created =>
                    caught e (set_fs (after_failed_save (fs st) fs' out
                                                        removes_created) st2)
                end
            end
        end
    end.
Proof.
  intros Hend p new_file_path out st1 st2.
  unfold convert_webp_to_jpeg; rewrite Hend; cbn [negb].
  unfold try_except, image_open, image_save, bind, do_emit, fs_query, fs_update,
    query, lift, caught, after_failed_save.
  fold p. fold new_file_path. fold out. cbn [fs emit].
  destruct (fs_read (fs st) p) as [e | c] eqn:Hread.
  { now rewrite (fs_read_IOError _ _ _ Hread). }
  destruct (decode c) as [e | img]; [ now destruct (is_IOError e) | ].
  cbn [fs emit].
  destruct (fs_create (fs st) out []) as [e | fs'] eqn:Hc.
  { now rewrite (fs_create_IOError _ _ _ _ Hc). }
  destruct img as [jpeg | e rm]; [ reflexivity | ].
  cbn [fs set_fs emit].
  destruct (lookup (fs st) out) as [n |]; cbn [andb];
    [ | destruct rm ]; unfold ret, raise; cbn [fs set_fs emit];
    now destruct (is_IOError e).
Qed.

Lemma In_snoc_event (e x : event) (t : list event) :
  In e (t ++ [x]) <-> In e t \/ e = x.
Proof. rewrite in_app_iff; cbn; intuition congruence. Qed.

(** Opening the output changes the binding of the output only, and the
    failure of the encoder after it leaves every file that existed in
    existence. *)
Lemma after_failed_save_frame (f fs' : FS) (out : Path) (rm : bool) :
  fs_create f out [] = inr fs' ->
  (forall p, out <> p ->
             lookup (after_failed_save f fs' out rm) p = lookup f p)
  /\ (forall p, lookup f p <> None ->
                lookup (after_failed_save f fs' out rm) p <> None
                /\ is_file (after_failed_save f fs' out rm) p = is_file f p).
Proof.
  intros Hc; destruct (fs_create_frame _ _ _ _ Hc) as [Hframe Hkind].
  unfold after_failed_save.
  destruct (lookup f out) as [n |] eqn:Hout; cbn [andb];
    [ now split | destruct rm; [ | now split ] ].
  split.
  - intros p Hp; rewrite lookup_delete_neq by exact Hp; now apply Hframe.
  - intros p Hp. assert (Hne : out <> p) by congruence.
    unfold is_file; rewrite lookup_delete_neq by exact Hne.
    rewrite (Hframe p Hne); now split.
Qed.

Lemma write_after_create_frame (f fs' : FS) (out : Path) (jpeg : str) :
  fs_create f out [] = inr fs' ->
  (forall p, out <> p -> lookup (write fs' out (File jpeg)) p = lookup f p)
  /\ (forall p, lookup f p <> None ->
                lookup (write fs' out (File jpeg)) p <> None
                /\ is_file (write fs' out (File jpeg)) p = is_file f p)
  /\ lookup (write fs' out (File jpeg)) out = Some (File jpeg).
Proof.
  intros Hc; destruct (fs_create_frame _ _ _ _ Hc) as [Hframe Hkind].
  split; [ | split; [ | apply lookup_write_eq ] ].
  - intros p Hp; rewrite lookup_write_neq by exact Hp; now apply Hframe.
  - intros p Hp; destruct (Hkind p Hp) as [H1 H2]; unfold is_file in *.
    destruct (Path_eq_dec out p) as [<- | Hne].
    + rewrite lookup_write_eq; split; [ discriminate | ].
      rewrite <- H2. revert Hc; unfold fs_create.
      destruct (lookup f out) as [[c |] |]; [ | discriminate | congruence ].
      intros H; injection H as <-; now rewrite lookup_write_eq.
    + rewrite lookup_write_neq by exact Hne; now split.
Qed.

(** One round of the loop for an entry that passes line 89: what it does
    to the files and to the trace, whether it returns or raises. *)
Lemma convert_step (file : Path) (st : state) :
  has_legacy_suffix file = true ->
  let r := convert_webp_to_jpeg decode (path_str file)
                                (emit (EvIsFile file) st) in
  (forall p, output_path file <> p -> lookup (fs (snd r)) p = lookup (fs st) p)
  /\ (forall p, lookup (fs st) p <> None ->
                lookup (fs (snd r)) p <> None
                /\ is_file (fs (snd r)) p = is_file (fs st) p)
  /\ (forall q, In (EvImageOpen q) (trace (snd r)) ->
                In (EvImageOpen q) (trace st) \/ q = parse_path (path_str file))
  /\ In (EvImageOpen (parse_path (path_str file))) (trace (snd r))
  /\ extends (emit (EvIsFile file) st) (snd r)
  /\ match fst r with
     | inr s => parse_path s = output_path file
                \/ parse_path s = parse_path failed_message
     | inl e => is_IOError e = false /\ exists c, pillow_raises decode c e
     end.
Proof.
  intros Hleg r.
  assert (Hend := legacy_suffix_endswith file Hleg).
  assert (Hopen : forall q t,
    In (EvImageOpen q)
       (t ++ [EvIsFile file] ++ [EvImageOpen (parse_path (path_str file))]) ->
    In (EvImageOpen q) t \/ q = parse_path (path_str file)).
  { intros q t H; rewrite !in_app_iff in H; cbn in H.
    destruct H as [H | [[H | []] | [H | []]]];
      [ now left | discriminate | injection H as <-; now right ]. }
  assert (Hopen2 : forall q t x,
    In (EvImageOpen q)
       ((t ++ [EvIsFile file] ++ [EvImageOpen (parse_path (path_str file))])
        ++ [EvImageSave x]) ->
    In (EvImageOpen q) t \/ q = parse_path (path_str file)).
  { intros q t x H; rewrite In_snoc_event in H; destruct H as [H | H];
      [ now apply Hopen | discriminate ]. }
  assert (Hmine : forall t,
    In (EvImageOpen (parse_path (path_str file)))
       (t ++ [EvIsFile file] ++ [EvImageOpen (parse_path (path_str file))])).
  { intros t; rewrite !in_app_iff; cbn; tauto. }
  assert (Hext : extends (emit (EvIsFile file) st) (snd r)).
  { apply monotone_convert_webp_to_jpeg. }
  split; [ | split; [ | split; [ | split; [ | split; [ exact Hext | ] ] ] ] ];
    subst r;
    rewrite (convert_webp_to_jpeg_cases (path_str file)
               (emit (EvIsFile file) st) Hend);
    cbn zeta; cbn [fs trace emit];
    change (parse_path (fst (splitext (path_str file)) ++ L ".jpeg"))
      with (output_path file);
    (destruct (fs_read (fs st) (parse_path (path_str file))) as [e | c];
     [ | destruct (decode c) as [e | img] eqn:Hdec;
         [ unfold caught; destruct (is_IOError e) eqn:HIO
         | destruct (fs_create (fs st) (output_path file) []) as [e | fs'] eqn:Hc;
           [ | destruct img as [jpeg | e rm];
               [ | unfold caught; destruct (is_IOError e) eqn:HIO ] ] ] ]);
    cbn [fst snd fs trace set_fs emit];
    rewrite <- ?app_assoc;
    try solve [ auto
              | intros p Hp; now split
              | intros q Hq; now apply Hopen in Hq
              | intros q Hq; rewrite app_assoc in Hq; now apply Hopen2 in Hq
              | apply Hmine
              | apply in_or_app; left; rewrite app_assoc; apply Hmine
              | rewrite app_assoc; apply in_or_app; left; apply Hmine
              | now apply (write_after_create_frame _ _ _ _ Hc)
              | now apply (after_failed_save_frame _ _ _ _ Hc)
              | rewrite !in_app_iff; cbn [In]; tauto
              | split; [ exact HIO | exists c; left; exact Hdec ]
              | split; [ exact HIO | exists c; right; exists rm; exact Hdec ]
              | intros q Hq; rewrite !in_app_iff in Hq; cbn [In] in Hq;
                repeat match type of Hq with
                       | _ \/ _ => destruct Hq as [Hq | Hq]
                       end;
                first [ now left | discriminate | contradiction
                      | injection Hq as <-; now right ] ].
Qed.

Lemma In_trace_IsFile (q file : Path) (t : list event) :
  In (EvImageOpen q) (t ++ [EvIsFile file]) -> In (EvImageOpen q) t.
Proof. rewrite In_snoc_event; intros [H | H]; [ exact H | discriminate ]. Qed.

(** One round of the loop of lines 88-91. *)
Lemma convert_loop_cons (file : Path) (rest acc : list Path) (st : state) :
  convert_loop decode (file :: rest) acc st
  = if is_file (fs st) file && has_legacy_suffix file
    then match convert_webp_to_jpeg decode (path_str file)
                 (emit (EvIsFile file) st) with
         | (inl e, st1) => (inl e, st1)
         | (inr s, st1) => convert_loop decode rest (acc ++ [parse_path s]) st1
         end
    else convert_loop decode rest acc (emit (EvIsFile file) st).
Proof.
  cbn [convert_loop]; unfold path_is_file, bind, do_emit, query.
  cbn [fs emit].
  change (str_eqb (lower (suffix file)) (L ".webp")) with (has_legacy_suffix file).
  destruct (is_file (fs st) file && has_legacy_suffix file); reflexivity.
Qed.

(** The loop of lines 88-91 over entries that exist: what it does to the
    files and to the trace, whether it returns or raises, and the list it
    returns when it does. *)
Lemma convert_loop_spec (entries : list Path) :
  forall (acc : list Path) (st : state),
  (forall f, In f entries -> lookup (fs st) f <> None) ->
  let r := convert_loop decode entries acc st in
  (forall p,
      (forall f, In f entries -> has_legacy_suffix f = true ->
                 is_file (fs st) f = true -> output_path f <> p) ->
      lookup (fs (snd r)) p = lookup (fs st) p)
  /\ (forall p, lookup (fs st) p <> None ->
                lookup (fs (snd r)) p <> None
                /\ is_file (fs (snd r)) p = is_file (fs st) p)
  /\ (forall q, In (EvImageOpen q) (trace (snd r)) ->
        In (EvImageOpen q) (trace st)
        \/ exists f, In f entries /\ has_legacy_suffix f = true
                     /\ is_file (fs st) f = true
                     /\ q = parse_path (path_str f))
  /\ match fst r with
     | inl e => is_IOError e = false /\ exists c, pillow_raises decode c e
     | inr l =>
         (forall f, In f entries -> has_legacy_suffix f = true ->
            is_file (fs st) f = true ->
            In (EvImageOpen (parse_path (path_str f))) (trace (snd r))
            /\ (In (output_path f) l \/ In (parse_path failed_message) l))
         /\ (forall q, In q l ->
               In q acc
               \/ exists f, In f entries /\ has_legacy_suffix f = true
                            /\ is_file (fs st) f = true
                            /\ (q = output_path f \/ q = parse_path failed_message))
         /\ incl acc l
     end.
Proof.
  induction entries as [| file rest IH]; intros acc st Hex r.
  - subst r; cbn [convert_loop ret fst snd].
    split; [ reflexivity | ].
    split; [ intros p Hp; now split | ].
    split; [ intros q Hq; now left | ].
    split; [ intros f [] | ].
    split; [ intros q Hq; now left | apply incl_refl ].
  - subst r. rewrite convert_loop_cons.
    destruct (is_file (fs st) file && has_legacy_suffix file) eqn:Htest.
    + apply andb_prop in Htest; destruct Htest as [Hisf Hleg].
      destruct (convert_step file st Hleg)
        as (Hframe & Hkind & Hopen & Hmine & Hext & Hres).
      destruct (convert_webp_to_jpeg decode (path_str file)
                  (emit (EvIsFile file) st)) as [[e | s] st1];
        cbn [fst snd] in *.
      * split; [ | split; [ exact Hkind | split; [ | exact Hres ] ] ].
        -- intros p Hp; apply Hframe, Hp; [ now left | exact Hleg | exact Hisf ].
        -- intros q Hq; destruct (Hopen q Hq) as [H | ->]; [ now left | right ].
           exists file; repeat split; auto; now left.
      * assert (Hkeep : forall f, In f rest ->
                  is_file (fs st1) f = is_file (fs st) f).
        { intros f Hf; apply Hkind, Hex; now right. }
        specialize (IH (acc ++ [parse_path s]) st1).
        destruct IH as (F & K & O & T).
        { intros f Hf; apply Hkind, Hex; now right. }
        split; [ | split; [ | split ] ].
        -- intros p Hp; rewrite F, Hframe; [ reflexivity | | ].
           ++ apply Hp; [ now left | exact Hleg | exact Hisf ].
           ++ intros f Hf Hl Hi; apply Hp; [ now right | exact Hl | ].
              now rewrite <- Hkeep.
        -- intros p Hp; destruct (Hkind p Hp) as [H1 H2].
           destruct (K p H1) as [H3 H4]; split; [ exact H3 | congruence ].
        -- intros q Hq; destruct (O q Hq) as [H | (f & Hf & Hl & Hi & ->)].
           ++ destruct (Hopen q H) as [H' | ->]; [ now left | right ].
              exists file; repeat split; auto; now left.
           ++ right; exists f; repeat split; auto; [ now right | ].
              now rewrite <- Hkeep.
        -- destruct (convert_loop decode rest (acc ++ [parse_path s]) st1)
             as [[e | l] st'] eqn:Hloop; cbn [fst snd] in *; [ exact T | ].
           destruct T as (C & R & A).
           split; [ | split ].
           ++ intros f [<- | Hf] Hl Hi.
              ** split.
                 --- eapply extends_trace; [ | exact Hmine ].
                     replace st' with (snd (convert_loop decode rest
                                              (acc ++ [parse_path s]) st1))
                       by now rewrite Hloop.
                     apply monotone_convert_loop.
                 --- assert (Hin : In (parse_path s) l).
                     { apply A, in_or_app; right; now left. }
                     destruct Hres as [<- | <-]; [ now left | now right ].
              ** apply C; auto. now rewrite Hkeep.
           ++ intros q Hq; destruct (R q Hq) as [H | (f & Hf & Hl & Hi & Hq')].
              ** apply in_app_or in H; destruct H as [H | [<- | []]]; [ now left | ].
                 right; exists file; repeat split; auto; now left.
              ** right; exists f; repeat split; auto; [ now right | ].
                 now rewrite <- Hkeep.
           ++ intros x Hx; apply A, in_or_app; now left.
    + specialize (IH acc (emit (EvIsFile file) st)).
      destruct IH as (F & K & O & T).
      { intros f Hf; cbn [fs emit]; apply Hex; now right. }
      cbn [fs emit trace] in *.
      split; [ | split; [ exact K | split ] ].
      * intros p Hp; apply F; intros f Hf; apply Hp; now right.
      * intros q Hq; destruct (O q Hq) as [H | (f & Hf & Hl & Hi & ->)].
        -- left; now apply In_trace_IsFile in H.
        -- right; exists f; repeat split; auto; now right.
      * destruct (convert_loop decode rest acc (emit (EvIsFile file) st))
          as [[e | l] st'] eqn:Hloop; cbn [fst snd] in *; [ exact T | ].
        destruct T as (C & R & A).
        split; [ | split; [ | exact A ] ].
        -- intros f [<- | Hf] Hl Hi; [ | now apply C ].
           rewrite Hl, Hi in Htest; discriminate.
        -- intros q Hq; destruct (R q Hq) as [H | (f & Hf & Hl & Hi & Hq')];
             [ now left | ].
           right; exists f; repeat split; auto; now right.
Qed.

End Conversion.

Lemma lookup_In (f : FS) (p : Path) : In p (map fst f) -> lookup f p <> None.
Proof.
  induction f as [| [q n] r IH]; [ intros [] | ].
  cbn [map fst lookup]; destruct (Path_eq_dec q p); [ discriminate | ].
  intros [H | H]; [ congruence | now apply IH ].
Qed.

Lemma listdir_exists (f : FS) (d p : Path) :
  In p (listdir f d) -> lookup f p <> None.
Proof. unfold listdir; intros H; apply filter_In in H; now apply lookup_In. Qed.

Lemma fs_iterdir_listdir (f : FS) (d : Path) (entries : list Path) :
  fs_iterdir f d = inr entries -> entries = listdir f d /\ is_dir f d = true.
Proof.
  unfold fs_iterdir, is_dir; destruct (lookup f d) as [[c |] |]; try discriminate.
  intros H; injection H as <-; now split.
Qed.

Section Listing.

Variable decode : str -> exn + image.

Lemma convert_files_to_jpeg_listing (d : Path) (st : state) (entries : list Path) :
  fs_iterdir (fs st) d = inr entries ->
  convert_files_to_jpeg decode d st
  = convert_loop decode entries [] (emit (EvIterdir d) st).
Proof.
  intros H; unfold convert_files_to_jpeg, bind, do_emit, fs_query.
  cbn [fs emit]; now rewrite H.
Qed.

Lemma In_trace_Iterdir (q d : Path) (t : list event) :
  In (EvImageOpen q) (t ++ [EvIterdir d]) -> In (EvImageOpen q) t.
Proof. rewrite In_snoc_event; intros [H | H]; [ exact H | discriminate ]. Qed.


End Listing.


Section Cleanup.

Variable chat : list event -> str -> exn + str.
Variable loads : str -> exn + list str.
Variables (directory_path : Path) (delimiter : str).




End Cleanup.



(** * The scenarios of the specification, run on the model *)

Section Scenarios.

Import Examples.

(** Scenario A with the underscore: [ocean2] is dropped, five keywords are
    kept. *)
Lemma C1_sanitization_witness :
  accepted (L "_") = true
  /\ exists d, L "_" = [d]
       /\ keywords_to_string_with_delimiter scenario_A_keywords (L "_")
          = inr (SanitizeSpec.sanitize d scenario_A_keywords)
       /\ firstn 5 (cleaned_keywords (L "_") scenario_A_keywords)
          = SanitizeSpec.entries d scenario_A_keywords
       /\ SanitizeSpec.entries d scenario_A_keywords
          = map (SanitizeSpec.replace_spaces d)
                (firstn 5 (filter (fun k => negb (has_digit k))
                                  scenario_A_keywords))
       /\ List.length (SanitizeSpec.entries d scenario_A_keywords) <= 5
       /\ Forall (fun e => has_digit e = false)
                 (SanitizeSpec.entries d scenario_A_keywords)
       /\ has_digit (SanitizeSpec.sanitize d scenario_A_keywords) = false.
Proof.
  split; [ reflexivity | ].
  apply (C1_sanitization scenario_A_keywords (L "_")); reflexivity.
Defined.

Example scenario_A_name :
  keywords_to_string_with_delimiter scenario_A_keywords (L "_")
  = inr (L "sunset_beach_wave_sky_cloud").
Proof. reflexivity. Qed.

(** C7 fails as stated: two entries are joined by one underscore, and the
    result holds two, the second one inside the first entry. *)
Lemma C7_counterexample :
  accepted (L "_") = true
  /\ keywords_to_string_with_delimiter [L "hot dog"; L "bun"] (L "_")
     = inr (L "hot_dog_bun")
  /\ firstn 5 (cleaned_keywords (L "_") [L "hot dog"; L "bun"])
     = [L "hot_dog"; L "bun"]
  /\ count_char "_"%char (L "hot_dog_bun") = 2
  /\ count_char "_"%char (L "hot_dog_bun")
     <> List.length (firstn 5 (cleaned_keywords (L "_") [L "hot dog"; L "bun"])) - 1.
Proof. repeat split; vm_compute; congruence. Qed.

(** The same keywords: one junction and one replaced space. *)
Lemma C7_delimiter_occurrences_witness :
  accepted (L "_") = true
  /\ exists d, L "_" = [d]
       /\ keywords_to_string_with_delimiter [L "hot dog"; L "bun"] (L "_")
          = inr (join [d] (SanitizeSpec.entries d [L "hot dog"; L "bun"]))
       /\ count_char d (join [d] (SanitizeSpec.entries d [L "hot dog"; L "bun"]))
          = (List.length (SanitizeSpec.entries d [L "hot dog"; L "bun"]) - 1)
            + list_sum (map (SanitizeSpec.delimiter_sources d)
                            (SanitizeSpec.survivors [L "hot dog"; L "bun"]))
       /\ ((forall k, In k (SanitizeSpec.survivors [L "hot dog"; L "bun"]) ->
                      ~ In " "%char k /\ ~ In d k) ->
           count_char d (join [d] (SanitizeSpec.entries d [L "hot dog"; L "bun"]))
           = List.length (SanitizeSpec.entries d [L "hot dog"; L "bun"]) - 1).
Proof.
  split; [ reflexivity | ].
  apply (C7_delimiter_occurrences [L "hot dog"; L "bun"] (L "_")); reflexivity.
Defined.



(** C3 at an undecodable legacy file: the list the normalization returns
    holds one element, the error message turned into a path, and no file
    was created. *)
Theorem C3_undecodable_file_yields_a_path :
  let result := convert_files_to_jpeg decode pics (initial_state fs_bad) in
  decode (L "garbage") = inl UnidentifiedImageError
  /\ fst result = inr [parse_path failed_message]
  /\ fs (snd result) = fs_bad
  /\ lookup (fs (snd result)) (parse_path failed_message) = None
  /\ trace (snd result)
     = [EvIterdir pics; EvIsFile (child pics (L "bad.webp"));
        EvImageOpen (child pics (L "bad.webp"))].
Proof. vm_compute. repeat split. Qed.


Example scenario_A_run :
  let st := snd (process_dir decode (chat (L "A")) loads (L "pics") (L "_")
                             false (initial_state fs_photo)) in
  fs st = [(pics, Dir);
           (child pics (L "sunset_beach_wave_sky_cloud.jpeg"),
            File (L "JFIFRIFFphoto"))].
Proof. reflexivity. Qed.

(** C5 fails as stated.  [pics/] holds the directory [photo.webp] and the
    image [photo.WEBP]; the run is not verbose.  The iteration for
    [photo.jpeg] raises when it unlinks the matched entry, the error is
    recorded, and yet the rename has been done; the entry stays tracked and
    the end-of-batch warning about it is dropped by the logger. *)
Lemma C5_counterexample :
  let st := snd (process_dir decode (chat (L "cat")) loads (L "pics") (L "_")
                             false (initial_state fs_clash)) in
  fs_glob_webp fs_clash pics = [photo_webp]
  /\ fst (convert_files_to_jpeg decode pics
            (before_normalization pics false (initial_state fs_clash)))
     = inr [photo_jpeg]
  /\ log st = [(ERROR, handler_message photo_jpeg IsADirectoryError)]
  /\ In (EvRename photo_jpeg (child pics (L "cat.jpeg"))) (trace st)
  /\ lookup (fs st) (child pics (L "cat.jpeg")) = Some (File (L "JFIFRIFFphoto"))
  /\ lookup (fs st) photo_jpeg = None
  /\ lookup (fs st) photo_webp = Some Dir
  /\ ~ In (WARNING, L "Unprocessed WebP file: pics/photo.webp") (log st).
Proof.
  vm_compute. repeat split; auto 12.
  intros [H | []]; discriminate.
Qed.

(** Scenario B on the converted directory: the response is not JSON, the
    iteration raises before the rename and leaves the files as they were. *)
Lemma C5_failures_stay_local_witness :
  process_body (chat (L "zzz")) loads pics (L "_") photo_jpeg [photo_webp]
               st_converted
  = (inl JSONDecodeError,
     emit (EvChat (L "JFIFRIFFphoto")) (emit (EvRead photo_jpeg) st_converted))
  /\ process_one (chat (L "zzz")) loads pics (L "_") photo_jpeg [photo_webp]
                 st_converted
     = (inr [photo_webp],
        log_record ERROR (handler_message photo_jpeg JSONDecodeError)
          (emit (EvChat (L "JFIFRIFFphoto"))
                (emit (EvRead photo_jpeg) st_converted)))
  /\ exists remaining,
       fst (process_image (chat (L "zzz")) loads pics [photo_jpeg] [photo_webp]
                          (L "_") st_converted) = inr remaining.
Proof.
  destruct (C5_failures_stay_local (chat (L "zzz")) loads pics (L "_")
              [photo_jpeg] [photo_webp] st_converted)
    as [[remaining [_ [Hres _]]] [_ Hfail]].
  assert (Hbody :
    process_body (chat (L "zzz")) loads pics (L "_") photo_jpeg [photo_webp]
                 st_converted
    = (inl JSONDecodeError,
       emit (EvChat (L "JFIFRIFFphoto")) (emit (EvRead photo_jpeg) st_converted)))
    by reflexivity.
  split; [ exact Hbody | ].
  split; [ exact (proj1 (Hfail photo_jpeg [photo_webp] st_converted _ _
                           eq_refl Hbody)) | ].
  exists remaining; exact Hres.
Defined.

(** The delimiter [+] is rejected. *)
Lemma C6_invalid_delimiter_rejected_witness :
  ~ In (L "+") accepted_delimiters
  /\ let result := process_dir decode (chat (L "A")) loads (L "pics") (L "+")
                               false (initial_state fs_photo) in
     result
     = (inl (BadParameter (L "Delimiter must be '_', '-', or ' ' (space).")),
        initial_state fs_photo)
     /\ trace (snd result) = trace (initial_state fs_photo)
     /\ filter is_fs_access (trace (snd result))
        = filter is_fs_access (trace (initial_state fs_photo))
     /\ fs (snd result) = fs (initial_state fs_photo).
Proof.
  assert (Hnot : ~ In (L "+") accepted_delimiters).
  { cbn; intros [H | [H | [H | []]]]; discriminate. }
  split; [ exact Hnot | ].
  apply (C6_invalid_delimiter_rejected decode (chat (L "A")) loads
           (L "pics") (L "+") false (initial_state fs_photo) Hnot).
Defined.

(** C8 at a directory whose only legacy file cannot be decoded.  The
    normalization creates no file, so there is nothing to classify; yet the
    list it returns is not empty, the command does not stop at line 191, and
    [process_image] runs on the error message taken for a path: it tries to
    read it and logs an error.  The classifier is not called here, only
    because no file of that name exists. *)
Theorem C8_undecodable_files_are_processed :
  let st0 := before_normalization pics true (initial_state fs_bad) in
  let converted := convert_files_to_jpeg decode pics st0 in
  let result := process_dir decode (chat (L "A")) loads (L "pics") (L "_")
                            true (initial_state fs_bad) in
  fst converted = inr [parse_path failed_message]
  /\ fs (snd converted) = fs_bad
  /\ fst result = inr tt
  /\ fs (snd result) = fs_bad
  /\ trace (snd result)
     = [EvGlob pics; EvIterdir pics; EvIsFile (child pics (L "bad.webp"));
        EvImageOpen (child pics (L "bad.webp"));
        EvRead (parse_path failed_message)]
  /\ log (snd result)
     = [(INFO, L "Found 1 WebP files");
        (INFO, L "Converted 1 files to JPEG");
        (ERROR, handler_message (parse_path failed_message) FileNotFoundError);
        (WARNING, L "Unprocessed WebP file: pics/bad.webp")]
  /\ ~ In (WARNING, L "No JPEG files to process. Exiting.") (log (snd result)).
Proof.
  vm_compute. repeat split.
  intros H; repeat (destruct H as [H | H]; [ discriminate H | ]); exact H.
Qed.

(** Scenario D: [pics/] holds no legacy file. *)
Lemma process_dir_without_legacy_files_witness :
  (accepted (L "_") = true
   /\ is_dir (fs (initial_state fs_plain)) (parse_path (L "pics")) = true
   /\ (forall e, In e (listdir (fs (initial_state fs_plain))
                               (parse_path (L "pics"))) ->
                 is_file (fs (initial_state fs_plain)) e
                 && has_legacy_suffix e = false))
  /\ let dir_path := parse_path (L "pics") in
     let result := process_dir decode (chat (L "A")) loads (L "pics") (L "_")
                               true (initial_state fs_plain) in
     fst result = inr tt
     /\ fs (snd result) = fs (initial_state fs_plain)
     /\ trace (snd result)
        = trace (initial_state fs_plain)
          ++ EvGlob dir_path :: EvIterdir dir_path
             :: map EvIsFile (listdir (fs (initial_state fs_plain)) dir_path)
     /\ filter is_chat (trace (snd result))
        = filter is_chat (trace (initial_state fs_plain))
     /\ (true = true ->
         In (WARNING, L "No JPEG files to process. Exiting.")
            (log (snd result))).
Proof.
  assert (Hall : forall e, In e (listdir (fs (initial_state fs_plain))
                                         (parse_path (L "pics"))) ->
                   is_file (fs (initial_state fs_plain)) e
                   && has_legacy_suffix e = false).
  { intros e [<- | []]; reflexivity. }
  split; [ split; [ reflexivity | split; [ reflexivity | exact Hall ] ] | ].
  exact (process_dir_without_legacy_files decode (chat (L "A")) loads
           (L "pics") (L "_") true (initial_state fs_plain)
           eq_refl eq_refl Hall).
Defined.

Example scenario_D_run :
  process_dir decode (chat (L "A")) loads (L "pics") (L "_") false
              (initial_state fs_plain)
  = (inr tt,
     mkState fs_plain ERROR []
             [EvGlob pics; EvIterdir pics; EvIsFile (child pics (L "notes.txt"))]).
Proof. reflexivity. Qed.

(** C9 fails as stated: [pics/photo.jpeg] does not bear the legacy
    extension, and the normalization of [pics/] replaces its content by the
    conversion of [photo.webp]. *)
Lemma C9_counterexample :
  let st := snd (convert_files_to_jpeg decode pics (initial_state fs_overwrite)) in
  In photo_jpeg (listdir fs_overwrite pics)
  /\ has_legacy_suffix photo_jpeg = false
  /\ lookup fs_overwrite photo_jpeg = Some (File (L "JFIFold"))
  /\ lookup (fs st) photo_jpeg = Some (File (L "JFIFRIFFphoto"))
  /\ output_path photo_webp = photo_jpeg.
Proof. vm_compute. repeat split; auto. Qed.



Example case_variant_run :
  let st := snd (process_dir decode (chat (L "cat")) loads (L "pics") (L "_")
                             true (initial_state fs_upper)) in
  fs st = [(pics, Dir); (photo_WEBP, File (L "RIFFphoto"));
           (child pics (L "cat.jpeg"), File (L "JFIFRIFFphoto"))]
  /\ In (WARNING, L "No corresponding WebP file found for photo.jpeg") (log st).
Proof. vm_compute. split; auto 10. Qed.

End Scenarios.

(** * Further properties of the filename builder *)

Lemma join_nil_iff (sep : str) (items : list str) :
  sep <> [] -> (join sep items = [] <-> items = [] \/ items = [[]]).
Proof.
  intros Hsep; split.
  - destruct items as [| x [| y l]]; [ now left | cbn; intros ->; now right | ].
    change (join sep (x :: y :: l)) with (x ++ sep ++ join sep (y :: l)).
    intros H; apply app_eq_nil in H; destruct H as [_ H].
    apply app_eq_nil in H; destruct H as [H _]; contradiction.
  - intros [-> | ->]; reflexivity.
Qed.

Lemma firstn_5_small {A} (l : list A) (x : list A) :
  List.length x <= 1 -> (firstn 5 l = x <-> l = x).
Proof.
  intros Hx; split; [ | intros ->; apply firstn_all2; lia ].
  intros H.
  destruct l as [| a [| b l']]; [ exact H | exact H | ].
  rewrite <- H in Hx; cbn in Hx; lia.
Qed.

Lemma cleaned_keywords_nil_iff (d : ascii) (keywords : list str) :
  cleaned_keywords [d] keywords = []
  <-> filter (fun k => negb (has_digit k)) keywords = [].
Proof.
  rewrite cleaned_keywords_spec; unfold SanitizeSpec.discard_digits.
  destruct (filter _ keywords); cbn; split; congruence.
Qed.

Lemma cleaned_keywords_empty_iff (d : ascii) (keywords : list str) :
  cleaned_keywords [d] keywords = [[]]
  <-> filter (fun k => negb (has_digit k)) keywords = [[]].
Proof.
  rewrite cleaned_keywords_spec; unfold SanitizeSpec.discard_digits.
  destruct (filter _ keywords) as [| k [| k2 l]]; cbn; split; try congruence.
  - destruct k; cbn; congruence.
  - intros H; injection H as ->; reflexivity.
Qed.

(** X1. For an accepted delimiter the derived name is the empty string
    exactly when no keyword is free of digits, or when the only keyword free
    of digits is the empty keyword. *)
Theorem builder_empty_name (keywords : list str) (delimiter : str) :
  accepted delimiter = true ->
  (keywords_to_string_with_delimiter keywords delimiter = inr []
   <-> filter (fun k => negb (has_digit k)) keywords = []
       \/ filter (fun k => negb (has_digit k)) keywords = [[]]).
Proof.
  intros H; destruct (accepted_single _ H) as [d [-> _]].
  unfold keywords_to_string_with_delimiter; rewrite H; cbn [negb].
  rewrite <- cleaned_keywords_nil_iff with (d := d).
  rewrite <- cleaned_keywords_empty_iff with (d := d).
  rewrite <- (firstn_5_small (cleaned_keywords [d] keywords) []) by (cbn; lia).
  rewrite <- (firstn_5_small (cleaned_keywords [d] keywords) [[]]) by (cbn; lia).
  rewrite <- (join_nil_iff [d]) by discriminate.
  split; [ intros E; now injection E | intros ->; reflexivity ].
Qed.

Lemma cleaned_keywords_app (delimiter : str) (a b : list str) :
  cleaned_keywords delimiter (a ++ b)
  = cleaned_keywords delimiter a ++ cleaned_keywords delimiter b.
Proof.
  induction a as [| k r IH]; [ reflexivity | ].
  cbn [app cleaned_keywords]; destruct (negb (has_digit k)); cbn [app];
    now rewrite IH.
Qed.

Lemma cleaned_keywords_length (delimiter : str) (keywords : list str) :
  List.length (cleaned_keywords delimiter keywords)
  = List.length (filter (fun k => negb (has_digit k)) keywords).
Proof.
  induction keywords as [| k r IH]; [ reflexivity | ].
  cbn [cleaned_keywords filter]; destruct (negb (has_digit k)); cbn [List.length];
    now rewrite IH.
Qed.

(** X2. Once five keywords free of digits have been seen, whatever follows
    them in the list has no influence on the result, for any delimiter. *)
Theorem builder_ignores_the_rest
    (keywords more : list str) (delimiter : str) :
  5 <= List.length (filter (fun k => negb (has_digit k)) keywords) ->
  keywords_to_string_with_delimiter (keywords ++ more) delimiter
  = keywords_to_string_with_delimiter keywords delimiter.
Proof.
  intros H; unfold keywords_to_string_with_delimiter.
  destruct (negb (accepted delimiter)); [ reflexivity | ].
  rewrite cleaned_keywords_app, firstn_app.
  rewrite <- cleaned_keywords_length with (delimiter := delimiter) in H.
  replace (5 - List.length (cleaned_keywords delimiter keywords)) with 0 by lia.
  now rewrite firstn_0, app_nil_r.
Qed.

Lemma replace_same_char (c : ascii) (s : str) : replace [c] [c] s = s.
Proof.
  rewrite replace_char; induction s as [| x r IH]; [ reflexivity | ].
  cbn [map]; rewrite IH; destruct (ascii_eq_dec x c); congruence.
Qed.

Lemma cleaned_keywords_space (keywords : list str) :
  cleaned_keywords (L " ") keywords
  = filter (fun k => negb (has_digit k)) keywords.
Proof.
  induction keywords as [| k r IH]; [ reflexivity | ].
  cbn [cleaned_keywords filter]; destruct (negb (has_digit k)); rewrite IH;
    [ | reflexivity ].
  f_equal; apply (replace_same_char " "%char).
Qed.

(** X3. With the space as delimiter no keyword is rewritten: the result is
    the first five keywords free of digits, as they are, joined by spaces. *)
Theorem builder_space_keeps_keywords (keywords : list str) :
  keywords_to_string_with_delimiter keywords (L " ")
  = inr (join (L " ")
              (firstn 5 (filter (fun k => negb (has_digit k)) keywords))).
Proof.
  unfold keywords_to_string_with_delimiter.
  change (negb (accepted (L " "))) with false; cbv iota.
  now rewrite cleaned_keywords_space.
Qed.

(** * The code fences of the classifier's answer *)

Lemma startswith_head_neq (c x : ascii) (o r : str) :
  x <> c -> startswith (x :: r) (c :: o) = false.
Proof. intros H; cbn; destruct (ascii_eq_dec c x); congruence. Qed.

(** Text without the first character of the pattern is copied as it is. *)
Lemma replace_from_clean (c : ascii) (o new a b : str) :
  ~ In c a ->
  replace_from (c :: o) new 0 (a ++ b) = a ++ replace_from (c :: o) new 0 b.
Proof.
  induction a as [| x r IH]; intros H; [ reflexivity | ].
  cbn [app]; cbn [replace_from].
  rewrite startswith_head_neq by (intros ->; apply H; now left).
  rewrite IH by (intros Hin; apply H; now right); reflexivity.
Qed.

Lemma replace_from_skip (old new a b : str) :
  replace_from old new (List.length a) (a ++ b) = replace_from old new 0 b.
Proof.
  induction a as [| x r IH]; [ reflexivity | ].
  cbn [app List.length replace_from]; exact IH.
Qed.

(** An occurrence of the pattern at the front is replaced. *)
Lemma replace_from_match (c : ascii) (o new rest : str) :
  replace_from (c :: o) new 0 ((c :: o) ++ rest)
  = new ++ replace_from (c :: o) new 0 rest.
Proof.
  cbn [app]; cbn [replace_from].
  change (c :: o ++ rest) with ((c :: o) ++ rest); rewrite startswith_app.
  replace (List.length (c :: o) - 1) with (List.length o) by (cbn; lia).
  now rewrite replace_from_skip.
Qed.

Lemma replace_from_nothing (c : ascii) (o new s : str) :
  ~ In c s -> replace_from (c :: o) new 0 s = s.
Proof.
  intros H; rewrite <- (app_nil_r s) at 1.
  rewrite replace_from_clean by exact H. cbn; apply app_nil_r.
Qed.

(** A closing fence that is not followed by [json] is not taken for an
    opening one. *)
Lemma json_fence_not_at_closing (post : str) :
  ~ In "`"%char post ->
  startswith post (L "json") = false ->
  replace_from (L "```json") [] 0 (L "```" ++ post) = L "```" ++ post.
Proof.
  intros Hpost Hjson.
  assert (Hhead : forall o, startswith post ("`"%char :: o) = false).
  { intros o; destruct post as [| x r]; [ reflexivity | ].
    apply startswith_head_neq; intros ->; apply Hpost; now left. }
  change (L "```" ++ post) with ("`"%char :: "`"%char :: "`"%char :: post).
  change (L "```json")
    with ("`"%char :: "`"%char :: "`"%char :: L "json").
  cbn [replace_from startswith].
  destruct (ascii_eq_dec "`"%char "`"%char); [ | congruence ].
  rewrite Hjson, !Hhead.
  now rewrite replace_from_nothing by exact Hpost.
Qed.

Lemma replace_nonempty (c : ascii) (o new s : str) :
  replace (c :: o) new s = replace_from (c :: o) new 0 s.
Proof. reflexivity. Qed.

Lemma not_In_app {A} (x : A) (a b : list A) :
  ~ In x a -> ~ In x b -> ~ In x (a ++ b).
Proof. intros Ha Hb H; apply in_app_or in H; tauto. Qed.

(** X4. An answer wrapped in a json code fence is unwrapped: when the text
    before the fence, the text inside it and the text after it hold no
    backquote, and the text after it does not start with [json], both fences
    are removed and what remains is stripped of its surrounding white space.
    An answer without any backquote is only stripped. *)
Theorem strip_fences_unwraps (pre body post : str) :
  ~ In "`"%char pre ->
  ~ In "`"%char body ->
  ~ In "`"%char post ->
  startswith post (L "json") = false ->
  strip_fences (pre ++ L "```json" ++ body ++ L "```" ++ post)
  = strip (pre ++ body ++ post)
  /\ strip_fences (pre ++ body ++ post) = strip (pre ++ body ++ post).
Proof.
  intros Hpre Hbody Hpost Hjson; unfold strip_fences; split; f_equal.
  - assert (H1 : replace (L "```json") []
                   (pre ++ L "```json" ++ body ++ L "```" ++ post)
                 = pre ++ body ++ L "```" ++ post).
    { rewrite (replace_nonempty "`"%char (L "``json")).
      rewrite (replace_from_clean "`"%char (L "``json")) by exact Hpre.
      rewrite (replace_from_match "`"%char (L "``json")); cbn [app].
      rewrite (replace_from_clean "`"%char (L "``json")) by exact Hbody.
      change ("`"%char :: L "``json") with (L "```json").
      now rewrite (json_fence_not_at_closing post Hpost Hjson). }
    rewrite H1, app_assoc.
    rewrite (replace_nonempty "`"%char (L "``")).
    rewrite (replace_from_clean "`"%char (L "``"))
      by (apply not_In_app; assumption).
    rewrite (replace_from_match "`"%char (L "``")); cbn [app].
    rewrite (replace_from_nothing "`"%char (L "``")) by exact Hpost.
    now rewrite <- app_assoc.
  - assert (H : ~ In "`"%char (pre ++ body ++ post))
      by (repeat apply not_In_app; assumption).
    rewrite (replace_nonempty "`"%char (L "``json")).
    rewrite (replace_from_nothing "`"%char (L "``json")) by exact H.
    rewrite (replace_nonempty "`"%char (L "``")).
    now rewrite (replace_from_nothing "`"%char (L "``")) by exact H.
Qed.

(** * Parsing a path string *)

Lemma split_sep_clean (w : str) : ~ In "/"%char w -> split_sep w = [w].
Proof.
  induction w as [| c r IH]; intros H; [ reflexivity | ].
  cbn [split_sep]; destruct (ascii_eq_dec c "/"%char) as [-> | _].
  - exfalso; apply H; now left.
  - rewrite IH by (intros Hin; apply H; now right); reflexivity.
Qed.

Lemma split_sep_nonempty (s : str) : split_sep s <> [].
Proof.
  destruct s as [| c r]; [ discriminate | ].
  cbn [split_sep]; destruct (ascii_eq_dec c "/"%char); [ discriminate | ].
  destruct (split_sep r); discriminate.
Qed.

(** The text after the last separator is the last piece. *)
Lemma split_sep_last (a w : str) :
  ~ In "/"%char w ->
  split_sep ((a ++ ["/"%char]) ++ w) = split_sep a ++ [w].
Proof.
  intros Hw; induction a as [| c r IH].
  - cbn [app split_sep]. destruct (ascii_eq_dec "/"%char "/"%char); [ | congruence ].
    now rewrite split_sep_clean.
  - cbn [app split_sep]; destruct (ascii_eq_dec c "/"%char); [ now rewrite IH | ].
    rewrite IH. assert (Hn := split_sep_nonempty r).
    destruct (split_sep r); [ congruence | reflexivity ].
Qed.

Lemma lstrip_sep_cases (a w : str) :
  ~ In "/"%char w ->
  lstrip_sep ((a ++ ["/"%char]) ++ w) = w
  \/ exists b, lstrip_sep ((a ++ ["/"%char]) ++ w) = (b ++ ["/"%char]) ++ w.
Proof.
  intros Hw; induction a as [| c r IH].
  - left; cbn [app lstrip_sep].
    destruct (ascii_eq_dec "/"%char "/"%char); [ | congruence ].
    destruct w as [| x w']; [ reflexivity | ].
    cbn [lstrip_sep]; destruct (ascii_eq_dec x "/"%char) as [-> | _];
      [ exfalso; apply Hw; now left | reflexivity ].
  - cbn [app lstrip_sep]; destruct (ascii_eq_dec c "/"%char); [ exact IH | ].
    right; now exists (c :: r).
Qed.

Lemma snd_splitroot (part : str) :
  snd (splitroot part) = part \/ snd (splitroot part) = lstrip_sep part.
Proof.
  unfold splitroot; destruct part as [| c r]; [ now left | ].
  destruct (ascii_eq_dec c "/"%char); [ right | now left ].
  destruct (_ =? 2); reflexivity.
Qed.

Lemma parts_parse_path (s : str) :
  parts (parse_path s) = filter is_component (split_sep (snd (splitroot s))).
Proof. unfold parse_path; destruct (splitroot s); reflexivity. Qed.

Lemma lstrip_sep_clean (w : str) : ~ In "/"%char w -> lstrip_sep w = w.
Proof.
  destruct w as [| c r]; [ reflexivity | intros H ].
  cbn [lstrip_sep]; destruct (ascii_eq_dec c "/"%char) as [-> | _];
    [ exfalso; apply H; now left | reflexivity ].
Qed.

(** The name of a parsed path is the text after the last separator, when
    that text is a component. *)
Lemma parse_path_name (s w : str) :
  s = [] \/ (exists a, s = a ++ ["/"%char]) ->
  ~ In "/"%char w ->
  is_component w = true ->
  name (parse_path (s ++ w)) = w.
Proof.
  intros Hs Hw Hc; unfold name; rewrite parts_parse_path.
  assert (Hone : last (filter is_component [w]) [] = w)
    by (cbn [filter]; now rewrite Hc).
  assert (Hmore : forall b,
            last (filter is_component (split_sep ((b ++ ["/"%char]) ++ w))) [] = w).
  { intros b; rewrite split_sep_last by exact Hw.
    rewrite filter_app; cbn [filter]; rewrite Hc. apply last_last. }
  destruct Hs as [-> | [a ->]].
  - cbn [app].
    destruct (snd_splitroot w) as [-> | ->];
      [ | rewrite lstrip_sep_clean by exact Hw ];
      now rewrite split_sep_clean.
  - destruct (snd_splitroot ((a ++ ["/"%char]) ++ w)) as [-> | ->];
      [ apply Hmore | ].
    destruct (lstrip_sep_cases a w Hw) as [-> | [b ->]];
      [ now rewrite split_sep_clean | apply Hmore ].
Qed.

(** Every string is a directory part, empty or ending in a separator,
    followed by a last segment without separator. *)
Lemma last_segment (x : str) :
  exists s u, x = s ++ u
              /\ (s = [] \/ exists a, s = a ++ ["/"%char])
              /\ ~ In "/"%char u.
Proof.
  induction x as [| c r (s & u & -> & Hs & Hu)].
  - exists [], []; repeat split; [ now left | intros [] ].
  - destruct Hs as [-> | [a ->]].
    + destruct (ascii_eq_dec c "/"%char) as [-> | Hc].
      * exists ["/"%char], u; repeat split; [ right; now exists [] | exact Hu ].
      * exists [], (c :: u); repeat split; [ now left | ].
        intros [H | H]; [ congruence | contradiction ].
    + exists ((c :: a) ++ ["/"%char]), u; repeat split;
        [ right; now exists (c :: a) | exact Hu ].
Qed.

Lemma is_component_long (w : str) : 2 <= List.length w -> is_component w = true.
Proof.
  destruct w as [| a [| b r]]; cbn [List.length]; try lia; intros _.
  unfold is_component, str_eqb.
  destruct (str_eq_dec _ _) as [E | _]; [ discriminate E | reflexivity ].
Qed.

(** The file a conversion writes has a name ending in [.jpeg]. *)
Lemma jpeg_name (s : str) :
  exists t, name (parse_path (s ++ L ".jpeg")) = t ++ L ".jpeg".
Proof.
  destruct (last_segment s) as (d & u & -> & Hd & Hu).
  exists u; rewrite <- app_assoc; apply parse_path_name; [ exact Hd | | ].
  - intros H; apply in_app_or in H; destruct H as [H | H]; [ contradiction | ].
    cbn in H; repeat (destruct H as [H | H]; [ discriminate | ]); exact H.
  - apply is_component_long; rewrite length_app; cbn; lia.
Qed.

Lemma app_same_length_tail {A} (a b x y : list A) :
  a ++ x = b ++ y -> List.length x = List.length y -> x = y.
Proof.
  intros H Hl.
  assert (Hab : List.length a = List.length b).
  { apply (f_equal (@List.length A)) in H; rewrite !length_app in H; lia. }
  apply (f_equal (skipn (List.length a))) in H.
  rewrite skipn_app, Nat.sub_diag, skipn_all in H.
  rewrite Hab, skipn_app, Nat.sub_diag, skipn_all in H. exact H.
Qed.

(** A path with the legacy suffix is never the file a conversion writes. *)
Lemma legacy_is_no_output (p : Path) (s : str) :
  has_legacy_suffix p = true -> parse_path (s ++ L ".jpeg") <> p.
Proof.
  intros Hleg Heq.
  destruct (jpeg_name s) as [t Ht]; rewrite Heq in Ht.
  destruct (legacy_suffix_parts p Hleg) as [Hs _].
  destruct (suffix_of_name p Hs) as [a Ha].
  apply str_eqb_eq in Hleg.
  assert (H : lower (a ++ suffix p) = lower (t ++ L ".jpeg")) by congruence.
  rewrite !lower_app, Hleg in H.
  apply app_same_length_tail in H; [ discriminate H | reflexivity ].
Qed.

(** * Further properties of the normalization *)

Section ConversionContract.

Variable decode : str -> exn + image.

(** X5. [convert_webp_to_jpeg] never touches the logger, changes no path
    but the new path [splitext(file_path)[0] + ".jpeg"], and ends in one of
    three ways.  It returns the message for a path without the legacy
    extension, and then nothing at all has happened.  It returns the new
    path, and then the file read at the given path decodes and the new path
    holds its JPEG encoding.  Or an exception [e] ends the conversion: an
    [IOError] is caught and the failure message returned, any other
    exception of Pillow leaves the function; the new path is then as it
    was, unless [e] came from the encoder after the save had opened it,
    which leaves a file that existed there empty. *)
Theorem convert_webp_to_jpeg_contract (file_path : str) (st : state) :
  let result := convert_webp_to_jpeg decode file_path st in
  let new_file_path := fst (splitext file_path) ++ L ".jpeg" in
  let out := parse_path new_file_path in
  level (snd result) = level st
  /\ log (snd result) = log st
  /\ (forall p, out <> p -> lookup (fs (snd result)) p = lookup (fs st) p)
  /\ ((endswith (lower file_path) (L ".webp") = false
       /\ result = (inr not_webp_message, st))
      \/ (endswith (lower file_path) (L ".webp") = true
          /\ fst result = inr new_file_path
          /\ exists c jpeg,
               fs_read (fs st) (parse_path file_path) = inr c
               /\ decode c = inr (Saves jpeg)
               /\ lookup (fs (snd result)) out = Some (File jpeg))
      \/ (endswith (lower file_path) (L ".webp") = true
          /\ exists e,
               result = caught e (snd result)
               /\ (lookup (fs (snd result)) out = lookup (fs st) out
                   \/ exists c removes_created,
                        fs_read (fs st) (parse_path file_path) = inr c
                        /\ decode c = inr (SaveRaises e removes_created)
                        /\ lookup (fs (snd result)) out
                           = match lookup (fs st) out with
                             | Some _ => Some (File [])
                             | None => if removes_created then None
                                       else Some (File [])
                             end))).
Proof.
  intros result new_file_path out; subst result.
  destruct (endswith (lower file_path) (L ".webp")) eqn:Hend.
  2:{ unfold convert_webp_to_jpeg; rewrite Hend; cbn [negb ret snd].
      split; [ reflexivity | ]. split; [ reflexivity | ].
      split; [ reflexivity | ]. left; split; reflexivity. }
  rewrite (convert_webp_to_jpeg_cases decode file_path st Hend).
  cbn zeta. fold new_file_path. fold out.
  destruct (fs_read (fs st) (parse_path file_path)) as [e | c] eqn:Hread.
  { cbn [fst snd level log fs emit].
    split; [ reflexivity | ]. split; [ reflexivity | ].
    split; [ reflexivity | ]. right; right.
    split; [ reflexivity | ]. exists e. unfold caught.
    rewrite (fs_read_IOError _ _ _ Hread); cbn [snd fs emit]; split; [ reflexivity | now left ]. }
  destruct (decode c) as [e | img] eqn:Hdec.
  { assert (H : snd (caught e (emit (EvImageOpen (parse_path file_path)) st))
                = emit (EvImageOpen (parse_path file_path)) st)
      by (unfold caught; now destruct (is_IOError e)).
    rewrite H; cbn [level log fs emit].
    split; [ reflexivity | ]. split; [ reflexivity | ].
    split; [ reflexivity | ]. right; right.
    split; [ reflexivity | ]. exists e; split; [ | now left ].
    unfold caught; now destruct (is_IOError e). }
  destruct (fs_create (fs st) out []) as [e | fs'] eqn:Hc.
  { cbn [fst snd level log fs emit].
    split; [ reflexivity | ]. split; [ reflexivity | ].
    split; [ reflexivity | ]. right; right.
    split; [ reflexivity | ]. exists e. unfold caught.
    rewrite (fs_create_IOError _ _ _ _ Hc); cbn [snd fs emit]; split; [ reflexivity | now left ]. }
  destruct img as [jpeg | e rm].
  - cbn [fst snd level log fs set_fs emit].
    destruct (write_after_create_frame _ _ _ jpeg Hc) as (Hframe & _ & Hout).
    split; [ reflexivity | ]. split; [ reflexivity | ].
    split; [ exact Hframe | ]. right; left.
    split; [ reflexivity | ]. split; [ reflexivity | ].
    exists c, jpeg. split; [ reflexivity | ]. split; [ exact Hdec | exact Hout ].
  - set (f2 := after_failed_save (fs st) fs' out rm).
    assert (H : snd (caught e (set_fs f2
                 (emit (EvImageSave out)
                    (emit (EvImageOpen (parse_path file_path)) st))))
                = set_fs f2 (emit (EvImageSave out)
                               (emit (EvImageOpen (parse_path file_path)) st)))
      by (unfold caught; now destruct (is_IOError e)).
    rewrite H; cbn [level log fs set_fs emit].
    destruct (after_failed_save_frame _ _ _ rm Hc) as (Hframe & _).
    split; [ reflexivity | ]. split; [ reflexivity | ].
    split; [ exact Hframe | ]. right; right.
    split; [ reflexivity | ]. exists e.
    split; [ unfold caught; now destruct (is_IOError e) | ].
    right; exists c, rm. split; [ reflexivity | ]. split; [ exact Hdec | ].
    subst f2; unfold after_failed_save.
    revert Hc; unfold fs_create.
    destruct (lookup (fs st) out) as [[c' |] |] eqn:Hout; cbn [andb];
      [ | discriminate | ].
    + intros H'; injection H' as <-; apply lookup_write_eq.
    + destruct (is_dir (fs st) (parent out)); [ | discriminate ].
      intros H'; injection H' as <-. destruct rm.
      * apply lookup_delete_eq.
      * apply lookup_write_eq.
Qed.

Lemma convert_loop_length (entries : list Path) :
  forall (acc : list Path) (st : state),
  (forall f, In f entries -> lookup (fs st) f <> None) ->
  match fst (convert_loop decode entries acc st) with
  | inr r => List.length r
             = List.length acc + List.length (legacy_files (fs st) entries)
  | inl _ => True
  end.
Proof.
  induction entries as [| file rest IH]; intros acc st Hex.
  - cbn; lia.
  - rewrite convert_loop_cons.
    unfold legacy_files; cbn [filter].
    destruct (is_file (fs st) file && has_legacy_suffix file) eqn:Htest.
    + apply andb_prop in Htest; destruct Htest as [_ Hleg].
      destruct (convert_step decode file st Hleg) as (_ & Hkind & _).
      destruct (convert_webp_to_jpeg decode (path_str file)
                  (emit (EvIsFile file) st)) as [[e | s] st1];
        cbn [fst snd] in *; [ exact I | ].
      specialize (IH (acc ++ [parse_path s]) st1).
      assert (Hsame : legacy_files (fs st1) rest = legacy_files (fs st) rest).
      { apply filter_ext_in; intros f Hf.
        destruct (Hkind f (Hex f (or_intror Hf))) as [_ ->]; reflexivity. }
      destruct (fst (convert_loop decode rest (acc ++ [parse_path s]) st1));
        [ exact I | ].
      rewrite IH by (intros f Hf; apply Hkind, Hex; now right).
      rewrite length_app, Hsame; unfold legacy_files; cbn [List.length]; lia.
    + specialize (IH acc (emit (EvIsFile file) st)).
      destruct (fst (convert_loop decode rest acc (emit (EvIsFile file) st)));
        [ exact I | ].
      apply IH; intros f Hf; cbn [fs emit]; apply Hex; now right.
Qed.

(** X6. When the directory can be listed, the normalization either raises
    an exception of Pillow that is no [IOError], or returns a list with one
    element for each listed regular file whose suffix is the legacy
    extension up to case, whether the conversion of that file succeeded or
    not.  It returns whenever Pillow raises nothing but [IOError]s. *)
Theorem convert_files_to_jpeg_length
    (directory_path : Path) (st : state) (entries : list Path) :
  fs_iterdir (fs st) directory_path = inr entries ->
  let result := convert_files_to_jpeg decode directory_path st in
  match fst result with
  | inr converted =>
      List.length converted
      = List.length (filter (fun file => is_file (fs st) file
                                         && has_legacy_suffix file) entries)
  | inl e => is_IOError e = false /\ exists c, pillow_raises decode c e
  end
  /\ ((forall c e, pillow_raises decode c e -> is_IOError e = true) ->
      exists converted, fst result = inr converted).
Proof.
  intros Hes result; subst result.
  rewrite (convert_files_to_jpeg_listing _ _ _ _ Hes).
  destruct (fs_iterdir_listdir _ _ _ Hes) as [-> _].
  assert (Hex : forall f, In f (listdir (fs st) directory_path) ->
                  lookup (fs (emit (EvIterdir directory_path) st)) f <> None).
  { intros f Hf; cbn [fs emit]; now apply listdir_exists in Hf. }
  assert (Hlen := convert_loop_length (listdir (fs st) directory_path) []
                    (emit (EvIterdir directory_path) st) Hex).
  destruct (convert_loop_spec decode (listdir (fs st) directory_path) []
              (emit (EvIterdir directory_path) st) Hex) as (_ & _ & _ & T).
  destruct (fst (convert_loop decode (listdir (fs st) directory_path) []
                   (emit (EvIterdir directory_path) st))) as [e | converted].
  - split; [ exact T | ].
    intros Hio; destruct T as [He [c Hc]].
    rewrite (Hio c e Hc) in He; discriminate.
  - split; [ exact Hlen | intros _; now exists converted ].
Qed.

(** X7. The normalization never modifies or deletes a legacy file: when
    the directory can be listed, every path whose suffix is the legacy
    extension up to case holds after the run what it held before. *)
Theorem convert_files_to_jpeg_keeps_legacy_files
    (directory_path : Path) (st : state) (entries : list Path) (p : Path) :
  fs_iterdir (fs st) directory_path = inr entries ->
  has_legacy_suffix p = true ->
  lookup (fs (snd (convert_files_to_jpeg decode directory_path st))) p
  = lookup (fs st) p.
Proof.
  intros Hes Hleg; rewrite (convert_files_to_jpeg_listing _ _ _ _ Hes).
  destruct (fs_iterdir_listdir _ _ _ Hes) as [-> _].
  destruct (convert_loop_spec decode (listdir (fs st) directory_path) []
              (emit (EvIterdir directory_path) st))
    as (F & _).
  { intros f Hf; cbn [fs emit]; now apply listdir_exists in Hf. }
  rewrite F; [ reflexivity | ].
  intros f _ _ _; unfold output_path; now apply legacy_is_no_output.
Qed.

End ConversionContract.

(** * From a path to its string and back *)

Lemma valid_name_spec (nm : str) :
  valid_name nm = true -> is_component nm = true /\ ~ In "/"%char nm.
Proof.
  unfold valid_name; intros H; apply andb_prop in H; destruct H as [Hc Hs].
  split; [ exact Hc | intros Hin ].
  apply negb_true_iff in Hs.
  assert (Hex : existsb (fun c => if ascii_eq_dec c "/"%char then true else false)
                        nm = true).
  { apply existsb_exists; exists "/"%char; split; [ exact Hin | ].
    destruct (ascii_eq_dec "/"%char "/"%char); congruence. }
  congruence.
Qed.

Lemma split_sep_cons_clean (x r : str) :
  ~ In "/"%char x -> split_sep (x ++ "/"%char :: r) = x :: split_sep r.
Proof.
  intros Hx; induction x as [| c x' IH].
  - cbn [app split_sep];
      destruct (ascii_eq_dec "/"%char "/"%char); [ reflexivity | congruence ].
  - cbn [app split_sep]; destruct (ascii_eq_dec c "/"%char) as [-> | _].
    + exfalso; apply Hx; now left.
    + rewrite IH by (intros Hin; apply Hx; now right); reflexivity.
Qed.

Lemma split_sep_join (ps : list str) :
  ps <> [] ->
  Forall (fun nm => ~ In "/"%char nm) ps ->
  split_sep (join (L "/") ps) = ps.
Proof.
  intros Hne Hall; destruct ps as [| x l]; [ congruence | clear Hne ].
  revert x Hall; induction l as [| y l' IH]; intros x Hall.
  - apply split_sep_clean; now inversion Hall.
  - change (join (L "/") (x :: y :: l'))
      with (x ++ "/"%char :: join (L "/") (y :: l')).
    inversion Hall as [| ? ? Hx Hrest]; subst.
    rewrite split_sep_cons_clean by exact Hx.
    now rewrite IH.
Qed.

Lemma filter_all {A} (f : A -> bool) (l : list A) :
  Forall (fun x => f x = true) l -> filter f l = l.
Proof. induction 1 as [| x l Hx _ IH]; cbn; [ | rewrite Hx, IH ]; reflexivity. Qed.

Lemma join_head (ps : list str) :
  ps <> [] ->
  Forall (fun nm => valid_name nm = true) ps ->
  exists c r, join (L "/") ps = c :: r /\ c <> "/"%char.
Proof.
  intros Hne Hall; destruct Hall as [| x l Hx _]; [ congruence | ].
  destruct (valid_name_spec x Hx) as [Hc Hs].
  destruct x as [| c x']; [ discriminate Hc | ].
  assert (Hcs : c <> "/"%char) by (intros ->; apply Hs; now left).
  destruct l as [| y l']; [ now exists c, x' | ].
  change (join (L "/") ((c :: x') :: y :: l'))
    with (c :: x' ++ L "/" ++ join (L "/") (y :: l')).
  now eexists _, _.
Qed.

Lemma splitroot_relative (c : ascii) (r : str) :
  c <> "/"%char -> splitroot (c :: r) = ([], c :: r).
Proof.
  intros H; unfold splitroot;
    destruct (ascii_eq_dec c "/"%char); [ contradiction | reflexivity ].
Qed.

Lemma splitroot_one (c : ascii) (r : str) :
  c <> "/"%char -> splitroot ("/"%char :: c :: r) = (L "/", c :: r).
Proof.
  intros H; unfold splitroot, lstrip_sep.
  destruct (ascii_eq_dec "/"%char "/"%char); [ | congruence ].
  destruct (ascii_eq_dec c "/"%char); [ contradiction | ].
  replace (List.length ("/"%char :: c :: r) - List.length (c :: r) =? 2)
    with false; [ reflexivity | ].
  symmetry; apply Nat.eqb_neq; cbn [List.length]; lia.
Qed.

Lemma splitroot_two (c : ascii) (r : str) :
  c <> "/"%char ->
  splitroot ("/"%char :: "/"%char :: c :: r) = (L "//", c :: r).
Proof.
  intros H; unfold splitroot, lstrip_sep.
  destruct (ascii_eq_dec "/"%char "/"%char); [ | congruence ].
  destruct (ascii_eq_dec c "/"%char); [ contradiction | ].
  replace (List.length ("/"%char :: "/"%char :: c :: r)
           - List.length (c :: r) =? 2)
    with true; [ reflexivity | ].
  symmetry; apply Nat.eqb_eq; cbn [List.length]; lia.
Qed.

(** [Path(str(p)) == p] for a path that pathlib built. *)
Lemma parse_path_str (p : Path) :
  valid_path p = true -> parse_path (path_str p) = p.
Proof.
  destruct p as [rt ps]; unfold valid_path; cbn [root parts].
  intros H; apply andb_prop in H; destruct H as [Hrt Hps].
  assert (Hall : Forall (fun nm => valid_name nm = true) ps)
    by (apply Forall_forall, forallb_forall; exact Hps).
  assert (Hroot : rt = [] \/ rt = L "/" \/ rt = L "//").
  { unfold valid_root in Hrt.
    apply orb_prop in Hrt; destruct Hrt as [Hrt | Hrt];
      [ apply orb_prop in Hrt; destruct Hrt as [Hrt | Hrt] | ];
      apply str_eqb_eq in Hrt; tauto. }
  destruct ps as [| x l].
  { destruct Hroot as [-> | [-> | ->]]; reflexivity. }
  assert (Hne : x :: l <> []) by discriminate.
  destruct (join_head (x :: l) Hne Hall) as (c & r & Hj & Hc).
  assert (Hsplit : filter is_component (split_sep (c :: r)) = x :: l).
  { rewrite <- Hj, split_sep_join; [ | exact Hne | ].
    - apply filter_all; eapply Forall_impl; [ | exact Hall ].
      intros nm Hnm; apply (valid_name_spec nm Hnm).
    - eapply Forall_impl; [ | exact Hall ].
      intros nm Hnm; apply (valid_name_spec nm Hnm). }
  assert (Hstr : path_str (mkPath rt (x :: l)) = rt ++ c :: r).
  { rewrite <- Hj; unfold path_str; cbn [root parts]; now destruct rt. }
  rewrite Hstr; unfold parse_path.
  destruct Hroot as [-> | [-> | ->]].
  - cbn [app]; rewrite (splitroot_relative c r Hc), Hsplit; reflexivity.
  - change (L "/" ++ c :: r) with ("/"%char :: c :: r).
    rewrite (splitroot_one c r Hc), Hsplit; reflexivity.
  - change (L "//" ++ c :: r) with ("/"%char :: "/"%char :: c :: r).
    rewrite (splitroot_two c r Hc), Hsplit; reflexivity.
Qed.

(** * The output path of a conversion *)

Lemma rfind_range (s : str) (c : ascii) : (-1 <= rfind s c < len s)%Z.
Proof.
  unfold len; induction s as [| x r IH]; [ cbn; lia | ].
  cbn [rfind List.length]. destruct (0 <=? rfind r c)%Z eqn:E.
  - apply Z.leb_le in E; lia.
  - destruct (ascii_eq_dec x c); lia.
Qed.

Lemma rfind_absent (s : str) (c : ascii) : ~ In c s -> rfind s c = (-1)%Z.
Proof.
  induction s as [| x r IH]; intros H; [ reflexivity | ].
  cbn [rfind]; rewrite IH by (intros Hin; apply H; now right).
  cbn. destruct (ascii_eq_dec x c) as [-> | _];
    [ exfalso; apply H; now left | reflexivity ].
Qed.

Lemma rfind_app (a b : str) (c : ascii) :
  rfind (a ++ b) c
  = if (0 <=? rfind b c)%Z then (len a + rfind b c)%Z else rfind a c.
Proof.
  unfold len; induction a as [| x r IH].
  - cbn [app List.length]. destruct (0 <=? rfind b c)%Z eqn:E; [ lia | ].
    apply Z.leb_gt in E. assert (H := rfind_range b c). cbn; lia.
  - cbn [app rfind List.length]. rewrite IH.
    destruct (0 <=? rfind b c)%Z eqn:E.
    + apply Z.leb_le in E.
      replace (0 <=? Z.of_nat (List.length r) + rfind b c)%Z with true
        by (symmetry; apply Z.leb_le; lia).
      lia.
    + reflexivity.
Qed.

Lemma rfind_sep_end (a : str) : rfind (a ++ ["/"%char]) "/"%char = len a.
Proof.
  rewrite rfind_app; cbn [rfind].
  destruct (ascii_eq_dec "/"%char "/"%char); [ cbn; lia | congruence ].
Qed.

Lemma join_snoc (init : list str) (x : str) :
  join (L "/") (init ++ [x])
  = match init with
    | [] => []
    | _ :: _ => join (L "/") init ++ L "/"
    end ++ x.
Proof.
  induction init as [| y l IH]; [ reflexivity | ].
  destruct l as [| z l'].
  - change (join (L "/") ([y] ++ [x])) with (y ++ L "/" ++ x).
    cbn [join]; now rewrite <- app_assoc.
  - change (join (L "/") ((y :: z :: l') ++ [x]))
      with (y ++ L "/" ++ join (L "/") ((z :: l') ++ [x])).
    rewrite IH.
    change (join (L "/") (y :: z :: l'))
      with (y ++ L "/" ++ join (L "/") (z :: l')).
    now rewrite <- !app_assoc.
Qed.

(** The text in front of the name in [str(p)]: empty, or ending in a
    separator. *)
Lemma path_str_split (rt : str) (init : list str) (w : str) :
  valid_root rt = true ->
  exists pre,
    path_str (mkPath rt (init ++ [w])) = pre ++ w
    /\ (pre = [] \/ exists a, pre = a ++ ["/"%char])
    /\ forall w', path_str (mkPath rt (init ++ [w'])) = pre ++ w'.
Proof.
  intros Hrt.
  assert (Hroot : rt = [] \/ exists a, rt = a ++ ["/"%char]).
  { unfold valid_root in Hrt.
    apply orb_prop in Hrt; destruct Hrt as [Hrt | Hrt];
      [ apply orb_prop in Hrt; destruct Hrt as [Hrt | Hrt] | ];
      apply str_eqb_eq in Hrt; subst;
      [ now left | right; now exists [] | right; now exists (L "/") ]. }
  assert (Hstr : forall x, path_str (mkPath rt (init ++ [x]))
                           = rt ++ join (L "/") (init ++ [x])).
  { intros x; unfold path_str; cbn [root parts].
    destruct rt; [ | reflexivity ]. destruct init; reflexivity. }
  assert (Hjoin := join_snoc init).
  exists (rt ++ match init with
                | [] => []
                | _ :: _ => join (L "/") init ++ L "/"
                end).
  split; [ now rewrite Hstr, Hjoin, app_assoc | ].
  split; [ | intros w'; now rewrite Hstr, Hjoin, app_assoc ].
  destruct init as [| y l]; [ now rewrite app_nil_r | ].
  right; exists (rt ++ join (L "/") (y :: l)); now rewrite app_assoc.
Qed.

Lemma upto_app (a b : str) (i : Z) :
  (0 <= i)%Z -> upto (a ++ b) (len a + i) = a ++ upto b i.
Proof.
  intros Hi; unfold upto, len.
  replace (Z.to_nat (Z.of_nat (List.length a) + i))
    with (List.length a + Z.to_nat i) by lia.
  apply firstn_app_2.
Qed.

Lemma from_app (a b : str) : from (a ++ b) (len a) = b.
Proof.
  unfold from, len; rewrite Nat2Z.id, skipn_app, Nat.sub_diag, skipn_all.
  reflexivity.
Qed.

(** [os.path.splitext] on a path string cuts where [Path.suffix] cuts,
    unless the stem consists of dots. *)
Lemma splitext_path_string (pre nm : str) :
  pre = [] \/ (exists a, pre = a ++ ["/"%char]) ->
  ~ In "/"%char nm ->
  (0 < rfind nm "."%char)%Z ->
  has_non_dot (upto nm (rfind nm "."%char)) = true ->
  fst (splitext (pre ++ nm)) = pre ++ upto nm (rfind nm "."%char).
Proof.
  intros Hpre Hnm Hi Hdots; unfold splitext.
  assert (Hsep : rfind (pre ++ nm) "/"%char = (len pre - 1)%Z).
  { rewrite rfind_app, (rfind_absent nm) by exact Hnm. cbn [Z.leb].
    destruct Hpre as [-> | [a ->]]; [ reflexivity | ].
    rewrite rfind_sep_end; unfold len; rewrite length_app; cbn; lia. }
  assert (Hdot : rfind (pre ++ nm) "."%char = (len pre + rfind nm "."%char)%Z).
  { rewrite rfind_app.
    destruct (0 <=? rfind nm "."%char)%Z eqn:E; [ reflexivity | ].
    apply Z.leb_gt in E; lia. }
  rewrite Hsep, Hdot.
  assert (Hlen : (0 <= len pre)%Z) by (unfold len; lia).
  replace (len pre - 1 <? len pre + rfind nm "."%char)%Z with true
    by (symmetry; apply Z.ltb_lt; lia).
  unfold slice.
  replace (len pre - 1 + 1)%Z with (len pre) by lia.
  rewrite upto_app by lia. rewrite from_app.
  unfold has_non_dot in Hdots; rewrite Hdots. reflexivity.
Qed.

Lemma valid_path_last (p : Path) :
  valid_path p = true -> parts p <> [] ->
  valid_root (root p) = true
  /\ valid_name (name p) = true
  /\ Forall (fun nm => valid_name nm = true) (removelast (parts p))
  /\ parts p = removelast (parts p) ++ [name p].
Proof.
  unfold valid_path, name; intros H Hne.
  apply andb_prop in H; destruct H as [Hrt Hps].
  assert (Happ := app_removelast_last [] Hne).
  assert (Hall : Forall (fun nm => valid_name nm = true) (parts p))
    by (apply Forall_forall, forallb_forall; exact Hps).
  rewrite Happ in Hall; apply Forall_app in Hall; destruct Hall as [Hinit Hlast].
  repeat split; [ exact Hrt | now inversion Hlast | exact Hinit | exact Happ ].
Qed.

Lemma rfind_jpeg (s : str) : rfind (s ++ L ".jpeg") "."%char = len s.
Proof. rewrite rfind_app; cbn; lia. Qed.

Lemma In_upto (s : str) (i : Z) (c : ascii) : In c (upto s i) -> In c s.
Proof.
  unfold upto; intros H.
  rewrite <- (firstn_skipn (Z.to_nat i) s); apply in_or_app; now left.
Qed.

(** Where a conversion writes. *)
Lemma output_path_sibling (file : Path) :
  valid_path file = true ->
  suffix file <> [] ->
  has_non_dot (stem file) = true ->
  output_path file
  = mkPath (root file) (removelast (parts file) ++ [stem file ++ L ".jpeg"])
  /\ parent (output_path file) = parent file
  /\ stem (output_path file) = stem file
  /\ suffix (output_path file) = L ".jpeg".
Proof.
  intros Hvalid Hsuf Hdots.
  assert (Hne : parts file <> []).
  { intros E; apply Hsuf; unfold suffix, name; rewrite E; reflexivity. }
  destruct (valid_path_last file Hvalid Hne) as (Hrt & Hnm & Hinit & Hparts).
  destruct (valid_name_spec _ Hnm) as [_ Hslash].
  set (i := rfind (name file) "."%char) in *.
  assert (Hcond : ((0 <? i) && (i <? len (name file) - 1))%Z = true).
  { unfold suffix in Hsuf; fold i in Hsuf.
    destruct ((0 <? i) && (i <? len (name file) - 1))%Z; congruence. }
  assert (Hstem : stem file = upto (name file) i)
    by (unfold stem; fold i; now rewrite Hcond).
  apply andb_prop in Hcond; destruct Hcond as [Hi _]; apply Z.ltb_lt in Hi.
  destruct (path_str_split (root file) (removelast (parts file)) (name file) Hrt)
    as (pre & Hstr & Hpre & Hother).
  assert (Hfile : path_str file = pre ++ name file).
  { rewrite <- Hstr, <- Hparts; now destruct file. }
  set (w := stem file ++ L ".jpeg").
  set (q := mkPath (root file) (removelast (parts file) ++ [w])).
  assert (Hw_slash : ~ In "/"%char w).
  { unfold w; intros H; apply in_app_or in H; destruct H as [H | H].
    - apply Hslash; rewrite Hstem in H; now apply In_upto in H.
    - cbn in H; repeat (destruct H as [H | H]; [ discriminate | ]); exact H. }
  assert (Hw_valid : valid_name w = true).
  { unfold valid_name; apply andb_true_intro; split.
    - apply is_component_long; unfold w; rewrite length_app; cbn; lia.
    - apply negb_true_iff; destruct (existsb _ w) eqn:E; [ | reflexivity ].
      apply existsb_exists in E; destruct E as [c [Hc E]].
      destruct (ascii_eq_dec c "/"%char) as [-> | _];
        [ contradiction | discriminate ]. }
  assert (Hq_valid : valid_path q = true).
  { unfold valid_path, q; cbn [root parts]; rewrite Hrt; cbn [andb].
    apply forallb_forall, Forall_forall, Forall_app; split; [ exact Hinit | ].
    constructor; [ exact Hw_valid | constructor ]. }
  assert (Hout : output_path file = q).
  { unfold output_path; rewrite Hfile.
    rewrite splitext_path_string; try assumption;
      [ | fold i; now rewrite <- Hstem ].
    fold i; rewrite <- Hstem, <- app_assoc. fold w.
    rewrite <- (Hother w). fold q. now apply parse_path_str. }
  assert (Hname : name q = w) by (unfold name, q; cbn [parts]; apply last_last).
  assert (Hlen : (0 < len (stem file))%Z).
  { rewrite Hstem; unfold len, upto.
    assert (Hr := rfind_range (name file) "."%char); fold i in Hr.
    unfold len in Hr; rewrite length_firstn; lia. }
  assert (Hqcond : ((0 <? rfind w "."%char)
                    && (rfind w "."%char <? len w - 1))%Z = true).
  { unfold w; rewrite rfind_jpeg; apply andb_true_intro; split.
    - now apply Z.ltb_lt.
    - apply Z.ltb_lt; unfold len; rewrite length_app; cbn [List.length L].
      unfold len in Hlen; cbn; lia. }
  assert (Hqstem : stem q = stem file).
  { unfold stem; rewrite Hname, Hqcond; unfold w; rewrite rfind_jpeg.
    unfold upto, len; rewrite Nat2Z.id, firstn_app, Nat.sub_diag, firstn_all.
    cbn [firstn]; apply app_nil_r. }
  rewrite Hout; split; [ reflexivity | ].
  split; [ | split; [ exact Hqstem | ] ].
  - unfold parent, q; cbn [root parts]; rewrite removelast_last.
    destruct file as [rt ps]; cbn [root parts] in *.
    now rewrite Hparts at 2; rewrite removelast_last.
  - unfold suffix; rewrite Hname, Hqcond; unfold w; rewrite rfind_jpeg.
    now rewrite from_app.
Qed.

(** X8. A well-formed path that has a suffix, and whose stem is not made of
    dots only, is converted into its sibling of the same stem with the
    suffix [.jpeg]; the converted file of a tracked legacy file therefore
    finds a counterpart of its stem in the tracked list. *)
Theorem output_path_keeps_stem (file : Path) :
  valid_path file = true ->
  suffix file <> [] ->
  has_non_dot (stem file) = true ->
  output_path file
  = mkPath (root file) (removelast (parts file) ++ [stem file ++ L ".jpeg"])
  /\ parent (output_path file) = parent file
  /\ stem (output_path file) = stem file
  /\ suffix (output_path file) = L ".jpeg"
  /\ forall webp_files,
       In file webp_files ->
       exists w, find_webp webp_files (output_path file) = Some w
                 /\ stem w = stem file.
Proof.
  intros Hvalid Hsuf Hdots.
  destruct (output_path_sibling file Hvalid Hsuf Hdots) as (H1 & H2 & H3 & H4).
  repeat split; try assumption.
  intros webp_files Hin; unfold find_webp.
  destruct (find (fun w0 => str_eqb (stem w0) (stem (output_path file)))
                 webp_files) as [w0 |] eqn:Hfind.
  - exists w0; split; [ reflexivity | ].
    apply find_some in Hfind; destruct Hfind as [_ Hfind].
    apply str_eqb_eq in Hfind; congruence.
  - exfalso. apply (find_none _ _ Hfind) in Hin.
    rewrite H3 in Hin.
    unfold str_eqb in Hin; destruct (str_eq_dec _ _); congruence.
Qed.

(** * The command on a path that is no directory, and what it logs *)

Lemma within_ret {A} (a : A) : logs_within_level (ret a).
Proof. intros st; split; [ reflexivity | exists []; now rewrite app_nil_r ]. Qed.

Lemma within_raise {A} (e : exn) : logs_within_level (@raise A e).
Proof. intros st; split; [ reflexivity | exists []; now rewrite app_nil_r ]. Qed.

Lemma within_lift {A} (r : exn + A) : logs_within_level (lift r).
Proof. intros st; split; [ reflexivity | exists []; now rewrite app_nil_r ]. Qed.

Lemma within_query {A} (f : state -> exn + A) : logs_within_level (query f).
Proof. intros st; split; [ reflexivity | exists []; now rewrite app_nil_r ]. Qed.

Lemma within_fs_query {A} (f : FS -> exn + A) : logs_within_level (fs_query f).
Proof. intros st; split; [ reflexivity | exists []; now rewrite app_nil_r ]. Qed.

Lemma within_do_emit (e : event) : logs_within_level (do_emit e).
Proof. intros st; split; [ reflexivity | exists []; now rewrite app_nil_r ]. Qed.

Lemma within_fs_update f : logs_within_level (fs_update f).
Proof.
  intros st; unfold fs_update; destruct (f (fs st));
    (split; [ reflexivity | exists []; cbn; now rewrite app_nil_r ]).
Qed.

Lemma within_logger lvl msg : logs_within_level (logger lvl msg).
Proof.
  intros st; unfold logger, log_record; cbn [snd].
  destruct (Nat.leb_spec (levelno (level st)) (levelno lvl)).
  - split; [ reflexivity | exists [(lvl, msg)]; split; [ reflexivity | ] ].
    constructor; [ exact H | constructor ].
  - split; [ reflexivity | exists []; now rewrite app_nil_r ].
Qed.

Lemma within_bind {A B} (m : M A) (k : A -> M B) :
  logs_within_level m -> (forall a, logs_within_level (k a)) ->
  logs_within_level (bind m k).
Proof.
  intros Hm Hk st; unfold bind.
  destruct (Hm st) as [Hl [l [Hlog Hall]]].
  destruct (m st) as [[e | a] st1]; cbn [snd] in *.
  - split; [ exact Hl | now exists l ].
  - destruct (Hk a st1) as [Hl2 [l2 [Hlog2 Hall2]]].
    split; [ congruence | exists (l ++ l2) ].
    split; [ now rewrite Hlog2, Hlog, app_assoc | ].
    apply Forall_app; split; [ exact Hall | now rewrite <- Hl ].
Qed.

Lemma within_try_except {A} (m : M A) is_E (h : exn -> M A) :
  logs_within_level m -> (forall e, logs_within_level (h e)) ->
  logs_within_level (try_except m is_E h).
Proof.
  intros Hm Hh st; unfold try_except.
  destruct (Hm st) as [Hl [l [Hlog Hall]]].
  destruct (m st) as [[e | a] st1]; cbn [snd] in *.
  - destruct (is_E e); [ | split; [ exact Hl | now exists l ] ].
    destruct (Hh e st1) as [Hl2 [l2 [Hlog2 Hall2]]].
    split; [ congruence | exists (l ++ l2) ].
    split; [ now rewrite Hlog2, Hlog, app_assoc | ].
    apply Forall_app; split; [ exact Hall | now rewrite <- Hl ].
  - split; [ exact Hl | now exists l ].
Qed.

Create HintDb within.
#[export] Hint Resolve within_ret within_raise within_lift within_query
  within_fs_query within_do_emit within_fs_update within_logger : within.

Ltac within :=
  repeat first
    [ solve [ auto with within ]
    | apply within_bind; [ | intros ? ]
    | apply within_try_except; [ | intros ? ]
    | match goal with
      | |- logs_within_level (match ?x with _ => _ end) => destruct x
      | |- logs_within_level (if ?x then _ else _) => destruct x
      end ].

Section Logging.

Variable decode : str -> exn + image.
Variable chat : list event -> str -> exn + str.
Variable loads : str -> exn + list str.

Lemma within_process_loop d delim files webp :
  logs_within_level (process_loop chat loads d delim files webp).
Proof.
  revert webp; induction files as [| f r IH]; intros webp; cbn [process_loop].
  - within.
  - apply within_bind; [ | intros a; apply IH ].
    unfold process_one, process_body, process_handler, generate_keywords,
      path_rename, path_unlink; within.
Qed.

Lemma within_report_remaining webp : logs_within_level (report_remaining webp).
Proof. induction webp as [| w r IH]; cbn [report_remaining]; within. Qed.

Lemma within_process_image d files webp delim :
  logs_within_level (process_image chat loads d files webp delim).
Proof.
  unfold process_image; within;
    first [ apply within_process_loop | apply within_report_remaining ].
Qed.

Lemma within_convert_loop entries acc :
  logs_within_level (convert_loop decode entries acc).
Proof.
  revert acc; induction entries as [| f r IH]; intros acc; cbn [convert_loop].
  - within.
  - unfold path_is_file, convert_webp_to_jpeg, image_open, image_save.
    apply within_bind; [ within | intros isf ].
    destruct (isf && _); [ | apply IH ].
    apply within_bind; [ within | intros a; apply IH ].
Qed.

Lemma within_convert_files_to_jpeg d :
  logs_within_level (convert_files_to_jpeg decode d).
Proof. unfold convert_files_to_jpeg; within; apply within_convert_loop. Qed.

#[local] Hint Resolve within_convert_files_to_jpeg within_process_image
  : within.

(** X9. Without the verbose flag the command logs nothing but errors:
    whatever the directory and the answers of the classifier, every record
    a run adds to the log is at the level ERROR. *)
Theorem quiet_run_logs_only_errors
    (directory_path delimiter : str) (st : state) :
  exists l,
    log (snd (process_dir decode chat loads directory_path delimiter false st))
    = log st ++ l
    /\ Forall (fun r => fst r = ERROR) l.
Proof.
  unfold process_dir.
  destruct (negb (accepted delimiter)).
  { exists []; cbn; now rewrite app_nil_r. }
  set (rest := fun _ : unit => bind _ _).
  unfold bind at 1, configure_logging.
  assert (Hrest : logs_within_level (rest tt)).
  { unfold rest; within. }
  destruct (Hrest (mkState (fs st) ERROR (log st) (trace st)))
    as [_ [l [Hlog Hall]]].
  exists l; split; [ exact Hlog | ].
  eapply Forall_impl; [ | exact Hall ].
  intros [lvl msg]; cbn [level fst levelno]; destruct lvl; cbn; intros; [ lia | lia | reflexivity ].
Qed.


End Logging.

(** * What a batch does to the world *)

Lemma chat_calls_app (a b : list event) :
  chat_calls (a ++ b) = chat_calls a + chat_calls b.
Proof. unfold chat_calls; now rewrite filter_app, length_app. Qed.

Lemma list_remove_other (x y : Path) (l : list Path) :
  In x l -> x <> y -> In x (list_remove y l).
Proof.
  induction l as [| z r IH]; [ intros [] | ].
  intros Hin Hne; cbn [list_remove]; destruct (Path_eq_dec z y) as [-> | Hzy].
  - destruct Hin as [-> | Hin]; [ congruence | exact Hin ].
  - destruct Hin as [-> | Hin]; [ now left | right; now apply IH ].
Qed.

(** Case analysis on the membership of an event in a short explicit list. *)
Ltac in_cases H :=
  cbn [In] in H;
  repeat match type of H with
         | _ \/ _ => destruct H as [H | H]
         end;
  try discriminate H; try contradiction.

(** A run of the body that ended before the rename. *)
Ltac short_trace :=
  split; [ reflexivity | ]; split; [ cbn; lia | ];
  split; [ intros ? Hp; in_cases Hp; now injection Hp | ];
  split; [ intros ? ? Hn; in_cases Hn | discriminate ].

Section Batch.

Variable chat : list event -> str -> exn + str.
Variable loads : str -> exn + list str.
Variables (directory_path : Path) (delimiter : str).

(** The events one run of the body adds, and what they say. *)
Lemma process_body_events (file : Path) (webp : list Path) (st : state) :
  exists t,
    trace (snd (process_body chat loads directory_path delimiter file webp st))
    = trace st ++ t
    /\ chat_calls t <= 1
    /\ (forall p, In (EvRead p) t -> p = file)
    /\ (forall src dst, In (EvRename src dst) t ->
          src = file
          /\ exists keywords new_file_name,
               keywords_to_string_with_delimiter keywords delimiter
               = inr new_file_name
               /\ dst = joinpath directory_path (new_file_name ++ suffix file))
    /\ (forall a,
          fst (process_body chat loads directory_path delimiter file webp st)
          = inr a ->
          a = webp
          \/ exists w, In w webp /\ a = list_remove w webp /\ In (EvUnlink w) t).
Proof.
  destruct (fs_read (fs st) file) as [e0 | img] eqn:Hread.
  { exists [EvRead file].
    unfold process_body, generate_keywords, bind, do_emit, fs_query, query.
    cbn [fs trace emit]; rewrite Hread; cbn [fst snd trace emit].
    short_trace. }
  destruct (chat ((trace st ++ [EvRead file]) ++ [EvChat img]) img)
    as [e0 | content] eqn:Hchat.
  { exists [EvRead file; EvChat img].
    unfold process_body, generate_keywords, bind, do_emit, fs_query, query, lift.
    cbn [fs trace emit]; rewrite Hread; cbn [fs trace emit]; rewrite Hchat.
    cbn [fst snd trace emit]. rewrite <- app_assoc.
    short_trace. }
  destruct (loads (strip_fences content)) as [e0 | keywords] eqn:Hloads.
  { exists [EvRead file; EvChat img].
    unfold process_body, generate_keywords, bind, do_emit, fs_query, query, lift.
    cbn [fs trace emit]; rewrite Hread; cbn [fs trace emit].
    rewrite Hchat, Hloads.
    cbn [fst snd trace emit]. rewrite <- app_assoc.
    short_trace. }
  destruct (keywords_to_string_with_delimiter keywords delimiter)
    as [e0 | new_file_name] eqn:Hname.
  { exists [EvRead file; EvChat img].
    unfold process_body, generate_keywords, bind, do_emit, fs_query, query, lift.
    cbn [fs trace emit]; rewrite Hread; cbn [fs trace emit].
    rewrite Hchat, Hloads, Hname.
    cbn [fst snd trace emit]. rewrite <- app_assoc.
    short_trace. }
  rewrite (process_body_classified chat loads directory_path delimiter file webp
             st img content new_file_name keywords Hread Hchat Hloads Hname).
  cbv zeta.
  set (target := joinpath directory_path (new_file_name ++ suffix file)).
  assert (Hren : forall src dst,
            EvRename file target = EvRename src dst ->
            src = file
            /\ exists keywords0 n,
                 keywords_to_string_with_delimiter keywords0 delimiter = inr n
                 /\ dst = joinpath directory_path (n ++ suffix file)).
  { intros src dst H; injection H as <- <-; split; [ reflexivity | ].
    now exists keywords, new_file_name. }
  destruct (fs_rename (fs st) file target) as [e0 | fs1].
  { exists [EvRead file; EvChat img; EvRename file target].
    cbn [fst snd trace emit]. rewrite <- !app_assoc.
    split; [ reflexivity | ]. split; [ cbn; lia | ].
    split; [ intros p Hp; in_cases Hp; now injection Hp | ].
    split; [ intros src dst H; in_cases H; now apply Hren | discriminate ]. }
  destruct (find_webp webp file) as [w |] eqn:Hfind.
  - exists [EvRead file; EvChat img; EvRename file target; EvUnlink w].
    assert (Hshape :
      chat_calls [EvRead file; EvChat img; EvRename file target; EvUnlink w] <= 1
      /\ (forall p, In (EvRead p)
                       [EvRead file; EvChat img; EvRename file target; EvUnlink w] ->
                    p = file)
      /\ (forall src dst,
            In (EvRename src dst)
               [EvRead file; EvChat img; EvRename file target; EvUnlink w] ->
            src = file
            /\ exists keywords0 n,
                 keywords_to_string_with_delimiter keywords0 delimiter = inr n
                 /\ dst = joinpath directory_path (n ++ suffix file))).
    { split; [ cbn; lia | split ].
      - intros p Hp; in_cases Hp; now injection Hp.
      - intros src dst H; in_cases H; now apply Hren. }
    destruct Hshape as (S1 & S2 & S3).
    destruct (find_webp_In _ _ _ Hfind) as [Hin _].
    destruct (fs_unlink fs1 w) as [e0 | fs2]; cbn [fst snd].
    + repeat first [ rewrite trace_log_record
                   | progress cbn [fst snd trace set_fs emit] ].
      rewrite <- !app_assoc.
      split; [ reflexivity | ]. split; [ exact S1 | ]. split; [ exact S2 | ].
      split; [ exact S3 | discriminate ].
    + repeat first [ rewrite trace_log_record
                   | progress cbn [fst snd trace set_fs emit] ].
      rewrite <- !app_assoc.
      split; [ reflexivity | ]. split; [ exact S1 | ]. split; [ exact S2 | ].
      split; [ exact S3 | ].
      intros a H; injection H as <-; right; exists w.
      split; [ exact Hin | split; [ reflexivity | cbn; tauto ] ].
  - exists [EvRead file; EvChat img; EvRename file target].
    repeat first [ rewrite trace_log_record
                 | progress cbn [fst snd trace set_fs emit] ].
    rewrite <- !app_assoc.
    split; [ reflexivity | ]. split; [ cbn; lia | ].
    split; [ intros p Hp; in_cases Hp; now injection Hp | ].
    split.
    + intros src dst H; in_cases H; now apply Hren.
    + intros a H; injection H as <-; now left.
Qed.

(** The same for one iteration of the loop. *)
Lemma process_one_events (file : Path) (webp : list Path) (st : state) :
  exists t a,
    process_one chat loads directory_path delimiter file webp st
    = (inr a, snd (process_one chat loads directory_path delimiter file webp st))
    /\ trace (snd (process_one chat loads directory_path delimiter file webp st))
       = trace st ++ t
    /\ chat_calls t
       <= (if str_eqb (name file) (L ".DS_Store") then 0 else 1)
    /\ (forall p, In (EvRead p) t ->
          p = file /\ str_eqb (name file) (L ".DS_Store") = false)
    /\ (forall src dst, In (EvRename src dst) t ->
          src = file
          /\ str_eqb (name file) (L ".DS_Store") = false
          /\ exists keywords new_file_name,
               keywords_to_string_with_delimiter keywords delimiter
               = inr new_file_name
               /\ dst = joinpath directory_path (new_file_name ++ suffix file))
    /\ (a = webp
        \/ exists w, In w webp /\ a = list_remove w webp /\ In (EvUnlink w) t).
Proof.
  unfold process_one.
  destruct (str_eqb (name file) (L ".DS_Store")) eqn:Hds.
  { exists [], webp; cbn; rewrite app_nil_r.
    repeat split; try lia; try contradiction; now left. }
  destruct (process_body_events file webp st) as (t & Ht & Hc & Hr & Hn & Ha).
  unfold try_except.
  destruct (process_body chat loads directory_path delimiter file webp st)
    as [[e | a] st1]; cbn [fst snd] in *.
  - cbn [is_Exception]; rewrite process_handler_eq; cbn [fst snd].
    rewrite trace_log_record.
    exists t, webp. split; [ reflexivity | ]. split; [ exact Ht | ].
    split; [ exact Hc | ]. split; [ intros p Hp; split; auto | ].
    split; [ | now left ].
    intros src dst H; destruct (Hn src dst H) as [-> Hex]; auto.
  - exists t, a. split; [ reflexivity | ]. split; [ exact Ht | ].
    split; [ exact Hc | ]. split; [ intros p Hp; split; auto | ].
    split; [ | now apply Ha ].
    intros src dst H; destruct (Hn src dst H) as [-> Hex]; auto.
Qed.

(** The events of the loop of line 118. *)
Lemma process_loop_events (files webp : list Path) (st : state) :
  exists t remaining,
    process_loop chat loads directory_path delimiter files webp st
    = (inr remaining,
       snd (process_loop chat loads directory_path delimiter files webp st))
    /\ trace (snd (process_loop chat loads directory_path delimiter files webp st))
       = trace st ++ t
    /\ chat_calls t <= List.length (processed_files files)
    /\ (forall p, In (EvRead p) t -> In p (processed_files files))
    /\ (forall src dst, In (EvRename src dst) t ->
          In src (processed_files files)
          /\ exists keywords new_file_name,
               keywords_to_string_with_delimiter keywords delimiter
               = inr new_file_name
               /\ dst = joinpath directory_path (new_file_name ++ suffix src))
    /\ (forall w, In w webp -> ~ In w remaining -> In (EvUnlink w) t).
Proof.
  revert webp st; induction files as [| f r IH]; intros webp st.
  - exists [], webp; cbn; rewrite app_nil_r.
    repeat split; try lia; try contradiction.
  - cbn [process_loop].
    destruct (process_one_events f webp st)
      as (t1 & a & Hone & Ht1 & Hc1 & Hr1 & Hn1 & Ha1).
    rewrite (bind_inr _ _ _ _ _ Hone).
    set (st1 := snd (process_one chat loads directory_path delimiter f webp st))
      in *.
    destruct (IH a st1) as (t2 & remaining & Hloop & Ht2 & Hc2 & Hr2 & Hn2 & Hu2).
    exists (t1 ++ t2), remaining.
    split; [ exact Hloop | ].
    split; [ now rewrite Ht2, Ht1, app_assoc | ].
    unfold processed_files in *; cbn [filter].
    split; [ | split; [ | split ] ].
    + rewrite chat_calls_app.
      destruct (str_eqb (name f) (L ".DS_Store")); cbn [negb List.length]; lia.
    + intros p Hp; apply in_app_or in Hp; destruct Hp as [Hp | Hp].
      * destruct (Hr1 p Hp) as [-> Hds]; rewrite Hds; now left.
      * destruct (negb _); [ right | ]; now apply Hr2.
    + intros src dst H; apply in_app_or in H; destruct H as [H | H].
      * destruct (Hn1 src dst H) as (-> & Hds & Hex); rewrite Hds.
        split; [ now left | exact Hex ].
      * destruct (Hn2 src dst H) as [Hin Hex]; split; [ | exact Hex ].
        destruct (negb _); [ right | ]; exact Hin.
    + intros w Hw Hnot; apply in_or_app.
      destruct Ha1 as [-> | (w' & Hw' & -> & Hun)]; [ right; now apply Hu2 | ].
      destruct (Path_eq_dec w w') as [-> | Hne]; [ now left | right ].
      apply Hu2; [ now apply list_remove_other | exact Hnot ].
Qed.

End Batch.

Lemma builder_result_no_digit (keywords : list str) (delimiter n : str) :
  keywords_to_string_with_delimiter keywords delimiter = inr n ->
  accepted delimiter = true /\ has_digit n = false.
Proof.
  unfold keywords_to_string_with_delimiter.
  destruct (accepted delimiter) eqn:Hacc; cbn [negb]; [ | discriminate ].
  intros H; split; [ reflexivity | ].
  destruct (accepted_single _ Hacc) as [d [-> Hd]].
  rewrite cleaned_keywords_spec in H. injection H as <-.
  apply has_digit_join; [ cbn; now rewrite Hd | ].
  now apply (entries_no_digit d keywords).
Qed.

Section BatchProperties.

Variable chat : list event -> str -> exn + str.
Variable loads : str -> exn + list str.
Variables (directory_path : Path) (delimiter : str).

Lemma process_image_run (converted_files webp_files : list Path) (st : state) :
  exists remaining,
    process_loop chat loads directory_path delimiter converted_files webp_files st
    = (inr remaining,
       snd (process_loop chat loads directory_path delimiter converted_files
                         webp_files st))
    /\ fst (process_image chat loads directory_path converted_files webp_files
                          delimiter st) = inr remaining
    /\ trace (snd (process_image chat loads directory_path converted_files
                                 webp_files delimiter st))
       = trace (snd (process_loop chat loads directory_path delimiter
                                  converted_files webp_files st))
    /\ fs (snd (process_image chat loads directory_path converted_files
                              webp_files delimiter st))
       = fs (snd (process_loop chat loads directory_path delimiter
                               converted_files webp_files st)).
Proof.
  destruct (process_loop_events chat loads directory_path delimiter
              converted_files webp_files st) as (t & remaining & Hloop & _).
  exists remaining; split; [ exact Hloop | ].
  unfold process_image; rewrite (bind_inr _ _ _ _ _ Hloop).
  destruct (report_remaining_spec remaining
              (snd (process_loop chat loads directory_path delimiter
                                 converted_files webp_files st)))
    as (H1 & H2 & H3 & _).
  unfold bind.
  destruct (report_remaining remaining _) as [[e | u] st2]; cbn [fst snd] in *;
    [ discriminate | repeat split; assumption ].
Qed.

(** X11. One attempt per image and no retry: [process_image] calls the
    classifier at most once for each file of the batch that is not named
    [.DS_Store], and reads no other file. *)
Theorem process_image_one_call_per_file
    (converted_files webp_files : list Path) (st : state) :
  exists t,
    trace (snd (process_image chat loads directory_path converted_files
                              webp_files delimiter st))
    = trace st ++ t
    /\ chat_calls t <= List.length (processed_files converted_files)
    /\ forall p, In (EvRead p) t ->
                 In p converted_files
                 /\ str_eqb (name p) (L ".DS_Store") = false.
Proof.
  destruct (process_image_run converted_files webp_files st)
    as (remaining & _ & _ & Htr & _).
  destruct (process_loop_events chat loads directory_path delimiter
              converted_files webp_files st)
    as (t & rem & _ & Ht & Hc & Hr & _).
  exists t; rewrite Htr; split; [ exact Ht | ]. split; [ exact Hc | ].
  intros p Hp; apply Hr, filter_In in Hp; destruct Hp as [Hin Hds].
  split; [ exact Hin | now apply negb_true_iff in Hds ].
Qed.

Lemma process_image_renames_batch_files_aux
    (converted_files webp_files : list Path) (st : state) (src dst : Path) :
  In (EvRename src dst)
     (trace (snd (process_image chat loads directory_path converted_files
                                webp_files delimiter st))) ->
  In (EvRename src dst) (trace st) \/ accepted delimiter = true.
Proof.
  destruct (process_image_run converted_files webp_files st)
    as (remaining & _ & _ & Htr & _).
  destruct (process_loop_events chat loads directory_path delimiter
              converted_files webp_files st)
    as (t & rem & _ & Ht & _ & _ & Hn & _).
  rewrite Htr, Ht; intros H; apply in_app_or in H.
  destruct H as [H | H]; [ now left | right ].
  destruct (Hn src dst H) as (_ & keywords & n & Hname & _).
  now apply builder_result_no_digit in Hname.
Qed.

(** X12. Every rename [process_image] performs takes a file of the batch
    that is not named [.DS_Store] to the directory joined with a name the
    builder derived, followed by the suffix of that file; the delimiter is
    then an accepted one and the derived name holds no digit. *)
Theorem process_image_renames_batch_files
    (converted_files webp_files : list Path) (st : state) (src dst : Path) :
  In (EvRename src dst)
     (trace (snd (process_image chat loads directory_path converted_files
                                webp_files delimiter st))) ->
  In (EvRename src dst) (trace st)
  \/ (In src converted_files
      /\ str_eqb (name src) (L ".DS_Store") = false
      /\ accepted delimiter = true
      /\ exists keywords new_file_name,
           keywords_to_string_with_delimiter keywords delimiter
           = inr new_file_name
           /\ has_digit new_file_name = false
           /\ dst = joinpath directory_path (new_file_name ++ suffix src)).
Proof.
  destruct (process_image_run converted_files webp_files st)
    as (remaining & _ & _ & Htr & _).
  destruct (process_loop_events chat loads directory_path delimiter
              converted_files webp_files st)
    as (t & rem & _ & Ht & _ & _ & Hn & _).
  rewrite Htr, Ht; intros H; apply in_app_or in H.
  destruct H as [H | H]; [ now left | right ].
  destruct (Hn src dst H) as (Hin & keywords & n & Hname & ->).
  apply filter_In in Hin; destruct Hin as [Hin Hds].
  destruct (builder_result_no_digit _ _ _ Hname) as [Hacc Hdig].
  split; [ exact Hin | ]. split; [ now apply negb_true_iff in Hds | ].
  split; [ exact Hacc | now exists keywords, n ].
Qed.

(** X13. A tracked legacy file leaves the tracked list only by being
    unlinked: a file of [webp_files] that is not in the list
    [process_image] leaves behind was the argument of an unlink during the
    run. *)
Theorem process_image_untracks_by_unlink
    (converted_files webp_files remaining : list Path) (st : state) (w : Path) :
  fst (process_image chat loads directory_path converted_files webp_files
                     delimiter st) = inr remaining ->
  In w webp_files ->
  ~ In w remaining ->
  exists t,
    trace (snd (process_image chat loads directory_path converted_files
                              webp_files delimiter st))
    = trace st ++ t
    /\ In (EvUnlink w) t.
Proof.
  intros Hres Hin Hnot.
  destruct (process_image_run converted_files webp_files st)
    as (rem & Hloop & Hfst & Htr & _).
  assert (rem = remaining) by congruence; subst rem.
  destruct (process_loop_events chat loads directory_path delimiter
              converted_files webp_files st)
    as (t & rem & Hloop2 & Ht & _ & _ & _ & Hu).
  assert (rem = remaining) by congruence; subst rem.
  exists t; rewrite Htr; split; [ exact Ht | now apply Hu ].
Qed.

(** With a delimiter that is not accepted the body always raises before the
    rename. *)
Lemma process_one_bad_delimiter (file : Path) (webp : list Path) (st : state) :
  accepted delimiter = false ->
  fst (process_one chat loads directory_path delimiter file webp st) = inr webp
  /\ fs (snd (process_one chat loads directory_path delimiter file webp st))
     = fs st.
Proof.
  intros Hacc; unfold process_one.
  destruct (str_eqb (name file) (L ".DS_Store")); [ now split | ].
  unfold try_except.
  assert (Hname : forall keywords,
            exists e, keywords_to_string_with_delimiter keywords delimiter = inl e).
  { intros keywords; unfold keywords_to_string_with_delimiter; rewrite Hacc.
    now eexists. }
  assert (Hbody : exists e st1,
            process_body chat loads directory_path delimiter file webp st
            = (inl e, st1) /\ fs st1 = fs st).
  { unfold process_body, generate_keywords, bind, do_emit, fs_query, query, lift.
    cbn [fs trace emit].
    destruct (fs_read (fs st) file) as [e0 | img]; [ now eexists _, _ | ].
    cbn [fs trace emit].
    destruct (chat _ img) as [e0 | content]; [ now eexists _, _ | ].
    destruct (loads (strip_fences content)) as [e0 | keywords];
      [ now eexists _, _ | ].
    destruct (Hname keywords) as [e ->]; now eexists _, _. }
  destruct Hbody as (e & st1 & -> & Hfs).
  cbn [is_Exception]; rewrite process_handler_eq; cbn [fst snd].
  now rewrite fs_log_record.
Qed.

(** X14. Called with a delimiter that is not accepted, [process_image]
    neither renames nor deletes: the builder's [ValueError] is caught for
    every file, the file system is left as it was and the tracked list is
    returned whole. *)
Theorem process_image_bad_delimiter
    (converted_files webp_files : list Path) (st : state) :
  ~ In delimiter accepted_delimiters ->
  fst (process_image chat loads directory_path converted_files webp_files
                     delimiter st) = inr webp_files
  /\ fs (snd (process_image chat loads directory_path converted_files
                            webp_files delimiter st)) = fs st
  /\ forall src dst,
       In (EvRename src dst)
          (trace (snd (process_image chat loads directory_path converted_files
                                     webp_files delimiter st))) ->
       In (EvRename src dst) (trace st).
Proof.
  intros Hnot.
  assert (Hacc : accepted delimiter = false).
  { destruct (accepted delimiter) eqn:H; [ | reflexivity ].
    apply accepted_In in H; contradiction. }
  destruct (process_image_run converted_files webp_files st)
    as (rem & Hloop & Hfst & Htr & Hfs).
  assert (Hl : fst (process_loop chat loads directory_path delimiter
                      converted_files webp_files st) = inr webp_files
               /\ fs (snd (process_loop chat loads directory_path delimiter
                             converted_files webp_files st)) = fs st).
  { clear - Hacc. revert st.
    induction converted_files as [| f r IH]; intros st; [ now split | ].
    cbn [process_loop].
    destruct (process_one_bad_delimiter f webp_files st Hacc) as [H1 H2].
    destruct (process_one chat loads directory_path delimiter f webp_files st)
      as [res st1] eqn:Hone; cbn [fst snd] in *; subst res.
    rewrite (bind_inr _ _ _ _ _ Hone).
    destruct (IH st1) as [H3 H4]; split; [ exact H3 | congruence ]. }
  destruct Hl as [Hl1 Hl2].
  rewrite Hloop in Hl1; cbn [fst] in Hl1.
  split; [ congruence | ]. split; [ congruence | ].
  intros src dst H.
  destruct (process_image_renames_batch_files_aux converted_files webp_files st
              src dst H) as [Hold | Hacc']; [ exact Hold | congruence ].
Qed.

End BatchProperties.

(** * One legacy image, from the command line to the renamed file *)

Lemma valid_path_child (d : Path) (nm : str) :
  valid_path d = true -> valid_name nm = true -> valid_path (child d nm) = true.
Proof.
  unfold valid_path, child; cbn [root parts]; intros H Hnm.
  apply andb_prop in H; destruct H as [-> Hps]; cbn [andb].
  rewrite forallb_app, Hps; cbn; now rewrite Hnm.
Qed.

Lemma name_child (d : Path) (nm : str) : name (child d nm) = nm.
Proof. unfold name, child; cbn [parts]; apply last_last. Qed.

Lemma parent_child (d : Path) (nm : str) : parent (child d nm) = d.
Proof.
  unfold parent, child; cbn [root parts]; rewrite removelast_last.
  now destruct d.
Qed.

Lemma child_neq_dir (d : Path) (nm : str) : child d nm <> d.
Proof.
  intros H; apply (f_equal parts) in H; cbn [child parts] in H.
  apply (f_equal (@List.length str)) in H; rewrite length_app in H; cbn in H; lia.
Qed.

Lemma child_inj (d : Path) (a b : str) : child d a = child d b -> a = b.
Proof.
  intros H; apply (f_equal name) in H; now rewrite !name_child in H.
Qed.

Lemma is_child_of_child (d : Path) (nm : str) : is_child_of d (child d nm) = true.
Proof.
  unfold is_child_of; rewrite parent_child, Path_eqb_refl.
  cbn [child parts]; destruct (parts d); reflexivity.
Qed.

Lemma is_child_of_self (d : Path) : is_child_of d d = false.
Proof.
  unfold is_child_of; destruct (parts d) as [| x l] eqn:E; [ reflexivity | ].
  apply Path_eqb_neq; intros H; apply (f_equal parts) in H.
  unfold parent in H; cbn [parts] in H; rewrite E in H.
  apply (f_equal (@List.length str)) in H.
  assert (Hl := app_removelast_last [] (l := x :: l) ltac:(discriminate)).
  apply (f_equal (@List.length str)) in Hl; rewrite length_app in Hl; cbn in Hl.
  cbn in H; lia.
Qed.

(** [d / w] for a plain file name [w]. *)
Lemma joinpath_name (d : Path) (w : str) :
  valid_name w = true -> joinpath d w = child d w.
Proof.
  intros Hw; unfold joinpath.
  assert (H : parse_path w = mkPath [] [w]).
  { change w with (path_str (mkPath [] [w])) at 1.
    apply parse_path_str; unfold valid_path; cbn; now rewrite Hw. }
  now rewrite H.
Qed.

Lemma valid_jpeg_name (n : str) :
  ~ In "/"%char n -> valid_name (n ++ L ".jpeg") = true.
Proof.
  intros Hn; unfold valid_name; apply andb_true_intro; split.
  - apply is_component_long; rewrite length_app; cbn; lia.
  - apply negb_true_iff; destruct (existsb _ _) eqn:E; [ | reflexivity ].
    apply existsb_exists in E; destruct E as [c [Hc E]].
    destruct (ascii_eq_dec c "/"%char) as [-> | _]; [ | discriminate ].
    apply in_app_or in Hc; destruct Hc as [Hc | Hc]; [ contradiction | ].
    cbn in Hc; repeat (destruct Hc as [Hc | Hc]; [ discriminate | ]);
      contradiction.
Qed.

Lemma jpeg_is_not_legacy (s nm : str) (d : Path) :
  has_legacy_suffix (child d nm) = true -> s ++ L ".jpeg" <> nm.
Proof.
  intros Hleg Heq.
  destruct (legacy_suffix_parts _ Hleg) as [Hs _].
  destruct (suffix_of_name _ Hs) as [a Ha]; rewrite name_child in Ha.
  apply str_eqb_eq in Hleg.
  assert (H : lower (a ++ suffix (child d nm)) = lower (s ++ L ".jpeg"))
    by congruence.
  rewrite !lower_app, Hleg in H.
  apply app_same_length_tail in H; [ discriminate H | reflexivity ].
Qed.

Lemma jpeg_is_not_DS_Store (s : str) :
  str_eqb (s ++ L ".jpeg") (L ".DS_Store") = false.
Proof.
  unfold str_eqb; destruct (str_eq_dec _ _) as [E | _]; [ | reflexivity ].
  change (L ".DS_Store") with (L ".DS_" ++ L "Store") in E.
  apply app_same_length_tail in E; [ discriminate E | reflexivity ].
Qed.

Lemma lookup_head (q : Path) (n : node) (r : FS) : lookup ((q, n) :: r) q = Some n.
Proof. cbn [lookup]; destruct (Path_eq_dec q q); congruence. Qed.

Lemma lookup_tail (q p : Path) (n : node) (r : FS) :
  q <> p -> lookup ((q, n) :: r) p = lookup r p.
Proof. intros H; cbn [lookup]; destruct (Path_eq_dec q p); congruence. Qed.

(** * Renaming inside a directory *)

Lemma fsencode_length_app (a b : str) :
  fsencode_length (a ++ b) = fsencode_length a + fsencode_length b.
Proof. unfold fsencode_length; rewrite filter_app, !length_app; lia. Qed.

Lemma has_nul_app (a b : str) : has_nul (a ++ b) = has_nul a || has_nul b.
Proof. unfold has_nul; apply existsb_app. Qed.

Lemma name_stem_suffix (p : Path) : name p = stem p ++ suffix p.
Proof.
  unfold stem, suffix; destruct (_ && _)%bool.
  - unfold upto, from; now rewrite firstn_skipn.
  - now rewrite app_nil_r.
Qed.

(** The string of a path directly inside a top-level directory. *)
Lemma path_str_child_top (d : Path) (x : str) :
  top_level d = true ->
  path_str (child d x)
  = root d ++ match parts d with
              | [] => x
              | y :: _ => y ++ L "/" ++ x
              end.
Proof.
  unfold top_level, path_str, child; cbn [root parts].
  destruct (parts d) as [| y [| z l]]; [ | | discriminate ]; intros _;
    cbn [app join]; now destruct (root d).
Qed.

Lemma has_nul_top (d : Path) :
  top_level d = true ->
  has_nul (path_str d) = false ->
  match parts d with [] => True | y :: _ => has_nul y = false end.
Proof.
  unfold top_level, path_str.
  destruct (parts d) as [| y [| z l]]; [ trivial | | discriminate ].
  intros _; cbn [join].
  destruct (root d) as [| r0 rt]; [ trivial | ].
  rewrite has_nul_app; intros H; now apply orb_false_elim in H.
Qed.

(** A good name directly inside a listed top-level directory is listed
    under the path the program writes. *)
Lemma fs_locate_child (f : FS) (d : Path) (x : str) :
  top_level d = true ->
  (parts d <> [] -> lookup f d = Some Dir) ->
  x <> L ".." ->
  fsencode_length x <= NAME_MAX ->
  fs_locate f (child d x) = inr (child d x).
Proof.
  intros Htop Hdir Hx Hlen.
  unfold fs_locate, fs_parent, last_name.
  rewrite name_child. unfold child at 1 2 3; cbn [root parts].
  rewrite removelast_last.
  assert (Hne : str_eqb x (L "..") = false).
  { destruct (str_eqb x (L "..")) eqn:E; [ | reflexivity ].
    apply str_eqb_eq in E; contradiction. }
  assert (Hlt : (NAME_MAX <? fsencode_length x) = false)
    by (apply Nat.ltb_ge; exact Hlen).
  assert (Hwalk : fs_walk f (mkPath (root d) []) (parts d) = inr d).
  { unfold top_level in Htop.
    destruct d as [rt [| y [| z l]]]; cbn [root parts] in *;
      [ reflexivity | | discriminate ].
    apply andb_prop in Htop; destruct Htop as [Hy Hl].
    apply negb_true_iff in Hy; apply Nat.leb_le in Hl.
    cbn [fs_walk]; rewrite Hy.
    assert (Hl' : (NAME_MAX <? fsencode_length y) = false)
      by (apply Nat.ltb_ge; exact Hl).
    rewrite Hl'.
    change (child (mkPath rt []) y) with (mkPath rt [y]).
    rewrite Hdir by discriminate. reflexivity. }
  rewrite Hwalk.
  destruct (parts d ++ [x]) eqn:E; [ now destruct (parts d) | ].
  now rewrite Hne, Hlt.
Qed.

(** The checks of [os.rename] on a path string pass for a good name inside
    a top-level directory. *)
Lemma rename_checks_child (d : Path) (x : str) :
  top_level d = true ->
  valid_root (root d) = true ->
  has_nul (path_str d) = false ->
  has_nul x = false ->
  fsencode_length x <= NAME_MAX ->
  has_nul (path_str (child d x)) = false
  /\ (PATH_MAX <=? fsencode_length (path_str (child d x))) = false.
Proof.
  intros Htop Hroot Hd Hx Hlen.
  rewrite (path_str_child_top d x Htop).
  assert (Hrt : has_nul (root d) = false /\ fsencode_length (root d) <= 2).
  { unfold valid_root in Hroot.
    apply orb_prop in Hroot; destruct Hroot as [Hroot | Hroot];
      [ apply orb_prop in Hroot; destruct Hroot as [Hroot | Hroot] | ];
      apply str_eqb_eq in Hroot; rewrite Hroot; split;
      first [ reflexivity | vm_compute; lia ]. }
  destruct Hrt as [Hrn Hrl].
  assert (Hy := has_nul_top d Htop Hd).
  unfold top_level in Htop.
  destruct (parts d) as [| y [| z l]] eqn:Hp; [ | | discriminate ].
  - rewrite has_nul_app, fsencode_length_app, Hrn, Hx; split; [ reflexivity | ].
    apply Nat.leb_gt; unfold NAME_MAX, PATH_MAX in *; lia.
  - apply andb_prop in Htop; destruct Htop as [_ Hl]; apply Nat.leb_le in Hl.
    rewrite !has_nul_app, !fsencode_length_app, Hrn, Hy, Hx.
    split; [ reflexivity | ].
    apply Nat.leb_gt.
    change (fsencode_length (L "/")) with 1.
    unfold NAME_MAX, PATH_MAX in *; lia.
Qed.

(** [os.rename] between two good names of a listed top-level directory. *)
Lemma fs_rename_child (f : FS) (d : Path) (a b : str) :
  top_level d = true ->
  valid_root (root d) = true ->
  has_nul (path_str d) = false ->
  (parts d <> [] -> lookup f d = Some Dir) ->
  has_nul a = false -> fsencode_length a <= NAME_MAX ->
  has_nul b = false -> fsencode_length b <= NAME_MAX ->
  b <> L ".." ->
  fs_rename f (child d a) (child d b)
  = match lookup f (child d a) with
    | None => inl FileNotFoundError
    | Some Dir => inl IsADirectoryError
    | Some (File c) =>
        if Path_eq_dec (child d a) (child d b) then inr f
        else match lookup f (child d b) with
             | Some Dir => inl IsADirectoryError
             | _ => inr (write (delete f (child d a)) (child d b) (File c))
             end
    end.
Proof.
  intros Htop Hroot Hd Hdir Ha Hla Hb Hlb Hbdd.
  destruct (rename_checks_child d a Htop Hroot Hd Ha Hla) as [Hna Hpa].
  destruct (rename_checks_child d b Htop Hroot Hd Hb Hlb) as [Hnb Hpb].
  unfold fs_rename. rewrite Hna, Hnb, Hpa, Hpb; cbn [orb].
  now rewrite (fs_locate_child f d b Htop Hdir Hbdd Hlb).
Qed.

(** * One legacy image, from the command line to the renamed file *)

Section OneImage.

Variable decode : str -> exn + image.
Variable chat : list event -> str -> exn + str.
Variable loads : str -> exn + list str.

Variables (d : Path) (nm c jpeg : str).

Hypothesis Hd : valid_path d = true.
Hypothesis Hnm : valid_name nm = true.
Hypothesis Hsuffix : suffix (child d nm) = L ".webp".
Hypothesis Hdots : has_non_dot (stem (child d nm)) = true.
Hypothesis Hdecode : decode c = inr (Saves jpeg).

Lemma one_image_output :
  output_path (child d nm) = child d (stem (child d nm) ++ L ".jpeg")
  /\ stem (child d (stem (child d nm) ++ L ".jpeg")) = stem (child d nm)
  /\ suffix (child d (stem (child d nm) ++ L ".jpeg")) = L ".jpeg"
  /\ has_legacy_suffix (child d nm) = true
  /\ child d nm <> child d (stem (child d nm) ++ L ".jpeg").
Proof.
  assert (Hleg : has_legacy_suffix (child d nm) = true)
    by (unfold has_legacy_suffix; now rewrite Hsuffix).
  destruct (output_path_sibling (child d nm)) as (H1 & _ & H3 & H4).
  { now apply valid_path_child. }
  { rewrite Hsuffix; discriminate. }
  { exact Hdots. }
  assert (Hout : output_path (child d nm)
                 = child d (stem (child d nm) ++ L ".jpeg")).
  { rewrite H1; unfold child at 2 3; cbn [root parts].
    now rewrite removelast_last. }
  rewrite Hout in H3, H4.
  repeat split; try assumption.
  intros E; apply child_inj in E; symmetry in E.
  now apply (jpeg_is_not_legacy _ _ d Hleg) in E.
Qed.

(** The normalization of a directory that holds this one image. *)
Lemma one_image_converted (s : state) :
  fs s = [(d, Dir); (child d nm, File c)] ->
  exists s',
    convert_files_to_jpeg decode d s
    = (inr [child d (stem (child d nm) ++ L ".jpeg")], s')
    /\ fs s' = [(d, Dir); (child d nm, File c);
                (child d (stem (child d nm) ++ L ".jpeg"), File jpeg)].
Proof.
  intros Hfs.
  destruct one_image_output as (Hout & _ & _ & Hleg & Hfo).
  set (f := child d nm) in *.
  set (out := child d (stem f ++ L ".jpeg")) in *.
  assert (Hdf : d <> f) by (intros E; symmetry in E; now apply child_neq_dir in E).
  assert (Hdo : d <> out) by (intros E; symmetry in E; now apply child_neq_dir in E).
  assert (Hlist : fs_iterdir (fs s) d = inr [f]).
  { rewrite Hfs; unfold fs_iterdir; rewrite lookup_head.
    unfold listdir; cbn [map fst filter].
    rewrite is_child_of_self; unfold f; now rewrite is_child_of_child. }
  rewrite (convert_files_to_jpeg_listing decode d s [f] Hlist).
  assert (Hisf : is_file (fs s) f = true).
  { rewrite Hfs; unfold is_file; now rewrite lookup_tail, lookup_head. }
  rewrite convert_loop_cons. cbn [fs emit]. rewrite Hisf, Hleg; cbn [andb].
  rewrite (convert_webp_to_jpeg_cases decode (path_str f) _
             (legacy_suffix_endswith f Hleg)).
  cbn zeta; cbn [fs emit].
  change (parse_path (fst (splitext (path_str f)) ++ L ".jpeg"))
    with (output_path f).
  rewrite (parse_path_str f) by (now apply valid_path_child).
  assert (Hread : fs_read (fs s) f = inr c).
  { rewrite Hfs; unfold fs_read; now rewrite lookup_tail, lookup_head. }
  rewrite Hread, Hdecode, Hout.
  assert (Hcreate : fs_create (fs s) out []
                    = inr [(d, Dir); (f, File c); (out, File [])]).
  { rewrite Hfs; unfold fs_create.
    rewrite lookup_tail, lookup_tail by assumption. cbn [lookup].
    unfold is_dir, out; rewrite parent_child, lookup_head.
    cbn [write].
    destruct (Path_eq_dec d (child d (stem f ++ L ".jpeg"))); [ contradiction | ].
    destruct (Path_eq_dec f (child d (stem f ++ L ".jpeg"))); [ contradiction | ].
    reflexivity. }
  rewrite Hcreate. cbn [write].
  destruct (Path_eq_dec d out); [ contradiction | ].
  destruct (Path_eq_dec f out); [ contradiction | ].
  destruct (Path_eq_dec out out); [ | congruence ].
  cbn [convert_loop ret app].
  change (parse_path (fst (splitext (path_str f)) ++ L ".jpeg"))
    with (output_path f).
  rewrite Hout.
  eexists; split; [ reflexivity | reflexivity ].
Qed.

Variables (delimiter content n : str) (keywords : list str).

Hypothesis Htop : top_level d = true.
Hypothesis Hdnul : has_nul (path_str d) = false.
Hypothesis Hnmnul : has_nul nm = false.
Hypothesis Hnmlen : fsencode_length nm <= NAME_MAX.
Hypothesis Hchat : forall history, chat history jpeg = inr content.
Hypothesis Hloads : loads (strip_fences content) = inr keywords.
Hypothesis Hname : keywords_to_string_with_delimiter keywords delimiter = inr n.
Hypothesis Hn : ~ In "/"%char n.
Hypothesis Hnnul : has_nul n = false.
Hypothesis Hnlen : fsencode_length (n ++ L ".jpeg") <= NAME_MAX.

(** The name of the normalized file is as good as the name of the legacy
    file. *)
Lemma one_image_output_name :
  has_nul (stem (child d nm) ++ L ".jpeg") = false
  /\ fsencode_length (stem (child d nm) ++ L ".jpeg") <= NAME_MAX.
Proof.
  assert (E : nm = stem (child d nm) ++ L ".webp").
  { rewrite <- Hsuffix, <- name_stem_suffix; now rewrite name_child. }
  assert (Hn1 := Hnmnul). assert (Hl1 := Hnmlen).
  rewrite E in Hn1, Hl1.
  rewrite has_nul_app in Hn1; apply orb_false_elim in Hn1; destruct Hn1 as [Hs _].
  rewrite fsencode_length_app in Hl1.
  rewrite has_nul_app, fsencode_length_app, Hs.
  split; [ reflexivity | exact Hl1 ].
Qed.

(** The renaming of the one normalized file and the removal of its legacy
    original. *)
Lemma one_image_processed (s : state) :
  fs s = [(d, Dir); (child d nm, File c);
          (child d (stem (child d nm) ++ L ".jpeg"), File jpeg)] ->
  exists s',
    process_image chat loads d [child d (stem (child d nm) ++ L ".jpeg")]
      [child d nm] delimiter s = (inr [], s')
    /\ fs s' = [(d, Dir); (child d (n ++ L ".jpeg"), File jpeg)].
Proof.
  intros Hfs.
  destruct one_image_output as (_ & Hstem & Hsuf & Hleg & Hfo).
  destruct one_image_output_name as [Hanul Halen].
  set (f := child d nm) in *.
  set (out := child d (stem f ++ L ".jpeg")) in *.
  set (target := child d (n ++ L ".jpeg")).
  assert (Hdf : d <> f) by (intros E; symmetry in E; now apply child_neq_dir in E).
  assert (Hdo : d <> out) by (intros E; symmetry in E; now apply child_neq_dir in E).
  assert (Hdt : d <> target) by (intros E; symmetry in E; now apply child_neq_dir in E).
  assert (Hft : f <> target).
  { intros E; apply child_inj in E; symmetry in E.
    now apply (jpeg_is_not_legacy _ _ d Hleg) in E. }
  assert (Htarget : joinpath d (n ++ suffix out) = target).
  { rewrite Hsuf; apply joinpath_name; now apply valid_jpeg_name. }
  assert (HDS : str_eqb (name out) (L ".DS_Store") = false).
  { unfold out; rewrite name_child; apply jpeg_is_not_DS_Store. }
  assert (Hread : fs_read (fs s) out = inr jpeg).
  { rewrite Hfs; unfold fs_read.
    now rewrite !lookup_tail, lookup_head by assumption. }
  assert (Hfind : find_webp [f] out = Some f).
  { unfold find_webp; cbn [find]; rewrite Hstem.
    now destruct (str_eqb_eq (stem f) (stem f)) as [_ ->]. }
  assert (Hbnul : has_nul (n ++ L ".jpeg") = false).
  { now rewrite has_nul_app, Hnnul. }
  assert (Hbdd : n ++ L ".jpeg" <> L "..").
  { intros E; apply (f_equal (@List.length ascii)) in E.
    rewrite length_app in E; cbn in E; lia. }
  assert (Hroot : valid_root (root d) = true).
  { unfold valid_path in Hd; now apply andb_prop in Hd. }
  unfold process_image, bind at 1; cbn [process_loop]; unfold bind at 1.
  unfold process_one; rewrite HDS; unfold try_except.
  rewrite (process_body_classified chat loads d delimiter out [f] s
             jpeg content n keywords Hread (Hchat _) Hloads Hname).
  rewrite Htarget, Hfind.
  assert (Hstep : exists fs1,
            fs_rename (fs s) out target = inr fs1
            /\ fs_unlink fs1 f = inr [(d, Dir); (target, File jpeg)]).
  { unfold out at 1, target at 1.
    rewrite (fs_rename_child (fs s) d (stem f ++ L ".jpeg") (n ++ L ".jpeg")
               Htop Hroot Hdnul)
      by (first [ assumption | intros _; rewrite Hfs; apply lookup_head ]).
    fold out. fold target. rewrite Hfs.
    rewrite !lookup_tail, lookup_head by assumption.
    destruct (Path_eq_dec out target) as [E | E].
    - eexists; split; [ reflexivity | ].
      unfold fs_unlink; rewrite lookup_tail, lookup_head by assumption.
      unfold delete; cbn [filter fst].
      rewrite (Path_eqb_neq d f), (Path_eqb_refl f), (Path_eqb_neq out f)
        by congruence.
      cbn [negb]; now rewrite <- E.
    - rewrite !lookup_tail by congruence.
      cbn [lookup]. eexists; split; [ reflexivity | ].
      unfold delete; cbn [filter fst].
      rewrite (Path_eqb_neq d out), (Path_eqb_neq f out), (Path_eqb_refl out)
        by congruence.
      cbn [negb write].
      destruct (Path_eq_dec d target); [ contradiction | ].
      destruct (Path_eq_dec f target); [ contradiction | ].
      unfold fs_unlink; rewrite lookup_tail, lookup_head by assumption.
      unfold delete; cbn [filter fst].
      rewrite (Path_eqb_neq d f), (Path_eqb_refl f), (Path_eqb_neq target f)
        by congruence.
      reflexivity. }
  destruct Hstep as (fs1 & Hren & Hunl).
  rewrite Hren; cbn zeta; rewrite Hunl.
  cbn [list_remove].
  destruct (Path_eq_dec f f); [ | congruence ].
  cbn [process_loop report_remaining]; unfold ret, bind.
  eexists; split; [ reflexivity | ].
  now rewrite fs_log_record.
Qed.

End OneImage.

(** X15. A top-level directory whose only entry is one readable legacy
    image [<stem>.webp] ends up holding exactly one file: the decoded image
    under the name the classifier's keywords give, with the extension
    [.jpeg].  The derived name must be one the file system takes: no
    slash, no NUL byte, and with its extension no longer than [NAME_MAX]
    bytes.  The run returns normally; the legacy file and the intermediate
    [<stem>.jpeg] are both gone. *)
Theorem process_dir_renames_one_image
    (decode : str -> exn + image) (chat : list event -> str -> exn + str)
    (loads : str -> exn + list str)
    (d : Path) (nm c jpeg delimiter content n : str) (keywords : list str)
    (verbose : bool) (st : state) :
  valid_path d = true ->
  top_level d = true ->
  has_nul (path_str d) = false ->
  valid_name nm = true ->
  has_nul nm = false ->
  fsencode_length nm <= NAME_MAX ->
  suffix (child d nm) = L ".webp" ->
  has_non_dot (stem (child d nm)) = true ->
  fs st = [(d, Dir); (child d nm, File c)] ->
  decode c = inr (Saves jpeg) ->
  (forall history, chat history jpeg = inr content) ->
  loads (strip_fences content) = inr keywords ->
  keywords_to_string_with_delimiter keywords delimiter = inr n ->
  ~ In "/"%char n ->
  has_nul n = false ->
  fsencode_length (n ++ L ".jpeg") <= NAME_MAX ->
  let result := process_dir decode chat loads (path_str d) delimiter verbose st in
  fst result = inr tt
  /\ fs (snd result) = [(d, Dir); (child d (n ++ L ".jpeg"), File jpeg)].
Proof.
  intros Hd Htop Hdnul Hnm Hnmnul Hnmlen Hsuffix Hdots Hfs Hdecode Hchat Hloads
         Hname Hn Hnnul Hnlen result.
  subst result.
  destruct (builder_result_no_digit _ _ _ Hname) as [Hacc _].
  rewrite (process_dir_accepted decode chat loads _ _ verbose st Hacc).
  cbn zeta; rewrite (parse_path_str d Hd).
  assert (Hfs0 : fs (before_normalization d verbose st)
                 = [(d, Dir); (child d nm, File c)]).
  { unfold before_normalization; rewrite fs_log_record; exact Hfs. }
  destruct (one_image_converted decode d nm c jpeg Hd Hnm Hsuffix Hdots Hdecode
              _ Hfs0) as (s1 & Hconv & Hfs1).
  rewrite Hconv.
  assert (Hglob : fs_glob_webp (fs st) d = [child d nm]).
  { rewrite Hfs; unfold fs_glob_webp, is_dir; rewrite lookup_head.
    unfold listdir; cbn [map fst filter].
    rewrite is_child_of_self, is_child_of_child; cbn [filter].
    rewrite name_child.
    destruct (suffix_of_name (child d nm)) as [a Ha];
      [ rewrite Hsuffix; discriminate | ].
    rewrite name_child, Hsuffix in Ha; rewrite Ha.
    now rewrite endswith_app. }
  rewrite Hglob.
  destruct (one_image_processed chat loads d nm c jpeg Hd Hnm Hsuffix Hdots
              delimiter content n keywords Htop Hdnul Hnmnul Hnmlen
              Hchat Hloads Hname Hn Hnnul Hnlen
              (log_record INFO
                 (L "Converted " ++ str_of_nat (List.length
                    [child d (stem (child d nm) ++ L ".jpeg")])
                  ++ L " files to JPEG") s1))
    as (s2 & Hproc & Hfs2).
  { now rewrite fs_log_record. }
  unfold bind; rewrite Hproc; unfold ret; cbn [fst snd].
  split; [ reflexivity | exact Hfs2 ].
Qed.

(** * What the normalization converts *)

Section Normalization.

Variable decode : str -> exn + image.

(** A legacy file that decodes and saves is written over the file that its
    output path holds, when no other entry of the listing has that output
    path. *)
Lemma convert_loop_overwrites (f : Path) (c jpeg : str) (entries : list Path) :
  valid_path f = true ->
  has_legacy_suffix f = true ->
  decode c = inr (Saves jpeg) ->
  forall (acc : list Path) (st : state),
  fs_read (fs st) f = inr c ->
  is_file (fs st) (output_path f) = true ->
  (forall f', In f' entries -> lookup (fs st) f' <> None) ->
  (forall f', In f' entries -> has_legacy_suffix f' = true ->
              is_file (fs st) f' = true ->
              output_path f' = output_path f -> f' = f) ->
  match fst (convert_loop decode entries acc st) with
  | inl _ => True
  | inr _ =>
      In f entries \/ lookup (fs st) (output_path f) = Some (File jpeg) ->
      lookup (fs (snd (convert_loop decode entries acc st))) (output_path f)
      = Some (File jpeg)
  end.
Proof.
  intros Hvalid Hleg Hdec.
  assert (Hisf_of_read : forall s, fs_read (fs s) f = inr c ->
                                   is_file (fs s) f = true).
  { intros s; unfold fs_read, is_file.
    destruct (lookup (fs s) f) as [[x |] |]; [ reflexivity | | ]; discriminate. }
  induction entries as [| h rest IH]; intros acc st Hread Hp Hex Huniq.
  - cbn [convert_loop ret fst snd]. intros [[] | H]; exact H.
  - rewrite convert_loop_cons.
    destruct (is_file (fs st) h && has_legacy_suffix h) eqn:Htest.
    + apply andb_prop in Htest; destruct Htest as [Hisf Hlegh].
      destruct (convert_step decode h st Hlegh)
        as (Hframe & Hkind & _ & _ & _ & _).
      assert (Hstep : forall s st1,
                convert_webp_to_jpeg decode (path_str h) (emit (EvIsFile h) st)
                = (inr s, st1) ->
                In f (h :: rest)
                \/ lookup (fs st) (output_path f) = Some (File jpeg) ->
                In f rest
                \/ lookup (fs st1) (output_path f) = Some (File jpeg)).
      { intros s st1 Hconv Hor.
        destruct (Path_eq_dec (output_path h) (output_path f)) as [Heq | Hne].
        - right. assert (h = f) by (apply Huniq; auto; now left). subst h.
          revert Hconv.
          rewrite (convert_webp_to_jpeg_cases decode (path_str f) _
                     (legacy_suffix_endswith f Hleg)).
          cbn zeta; cbn [fs emit].
          change (parse_path (fst (splitext (path_str f)) ++ L ".jpeg"))
            with (output_path f).
          rewrite (parse_path_str f Hvalid), Hread, Hdec.
          unfold is_file in Hp; unfold fs_create.
          destruct (lookup (fs st) (output_path f)) as [[old |] |];
            try discriminate.
          intros H; injection H as _ <-. cbn [fs set_fs].
          apply lookup_write_eq.
        - destruct Hor as [[-> | Hin] | Hl];
            [ congruence | now left | right ].
          assert (E : snd (convert_webp_to_jpeg decode (path_str h)
                             (emit (EvIsFile h) st)) = st1)
            by now rewrite Hconv.
          rewrite <- E, Hframe by exact Hne. exact Hl. }
      destruct (convert_webp_to_jpeg decode (path_str h) (emit (EvIsFile h) st))
        as [[e | s] st1] eqn:Hconv; cbn [fst snd] in *; [ exact I | ].
      specialize (IH (acc ++ [parse_path s]) st1).
      assert (Hread1 : fs_read (fs st1) f = inr c).
      { unfold fs_read; rewrite Hframe; [ exact Hread | ].
        unfold output_path; now apply legacy_is_no_output. }
      assert (Hp1 : is_file (fs st1) (output_path f) = true).
      { destruct (Hkind (output_path f)) as [_ ->]; [ | exact Hp ].
        unfold is_file in Hp.
        destruct (lookup (fs st) (output_path f)); [ discriminate | discriminate Hp ]. }
      specialize (IH Hread1 Hp1).
      assert (Hex1 : forall f', In f' rest -> lookup (fs st1) f' <> None).
      { intros f' Hf'; apply Hkind, Hex; now right. }
      assert (Huniq1 : forall f', In f' rest -> has_legacy_suffix f' = true ->
                is_file (fs st1) f' = true ->
                output_path f' = output_path f -> f' = f).
      { intros f' Hf' Hl Hi Ho; apply Huniq; auto; [ now right | ].
        destruct (Hkind f' (Hex f' (or_intror Hf'))) as [_ <-]; exact Hi. }
      specialize (IH Hex1 Huniq1).
      destruct (fst (convert_loop decode rest (acc ++ [parse_path s]) st1));
        [ exact I | ].
      intros Hor; apply IH, (Hstep s st1 eq_refl Hor).
    + specialize (IH acc (emit (EvIsFile h) st) Hread Hp).
      cbn [fs emit] in IH.
      assert (Hex1 : forall f', In f' rest -> lookup (fs st) f' <> None)
        by (intros f' Hf'; apply Hex; now right).
      assert (Huniq1 : forall f', In f' rest -> has_legacy_suffix f' = true ->
                is_file (fs st) f' = true ->
                output_path f' = output_path f -> f' = f)
        by (intros f' Hf'; apply Huniq; now right).
      specialize (IH Hex1 Huniq1).
      destruct (fst (convert_loop decode rest acc (emit (EvIsFile h) st)));
        [ exact I | ].
      intros [[-> | Hin] | Hl]; apply IH; [ | now left | now right ].
      rewrite (Hisf_of_read st Hread), Hleg in Htest; discriminate.
Qed.

(** One run of the normalization on a directory that can be listed. *)
Lemma convert_files_to_jpeg_run
    (directory_path : Path) (s : state) (es : list Path) :
  fs_iterdir (fs s) directory_path = inr es ->
  let result := convert_files_to_jpeg decode directory_path s in
  (forall q, In (EvImageOpen q) (trace (snd result)) ->
     In (EvImageOpen q) (trace s)
     \/ exists f, In f es /\ has_legacy_suffix f = true
                  /\ is_file (fs s) f = true
                  /\ q = parse_path (path_str f))
  /\ (forall p,
        (forall f, In f es -> has_legacy_suffix f = true ->
                   is_file (fs s) f = true -> output_path f <> p) ->
        lookup (fs (snd result)) p = lookup (fs s) p)
  /\ match fst result with
     | inr converted =>
         (forall f, In f es -> has_legacy_suffix f = true ->
            is_file (fs s) f = true ->
            In (EvImageOpen (parse_path (path_str f))) (trace (snd result))
            /\ (In (output_path f) converted
                \/ In (parse_path failed_message) converted))
         /\ (forall q, In q converted ->
               exists f, In f es /\ has_legacy_suffix f = true
                         /\ is_file (fs s) f = true
                         /\ (q = output_path f \/ q = parse_path failed_message))
     | inl e => is_IOError e = false /\ exists c, pillow_raises decode c e
     end.
Proof.
  intros Hes result; subst result.
  rewrite (convert_files_to_jpeg_listing _ _ _ _ Hes).
  destruct (fs_iterdir_listdir _ _ _ Hes) as [-> _].
  destruct (convert_loop_spec decode (listdir (fs s) directory_path) []
              (emit (EvIterdir directory_path) s))
    as (F & _ & O & T).
  { intros f Hf; cbn [fs emit]; now apply listdir_exists in Hf. }
  cbn [fs trace emit] in *.
  split; [ | split; [ exact F | ] ].
  - intros q Hq; destruct (O q Hq) as [H | H]; [ left | now right ].
    now apply In_trace_Iterdir in H.
  - destruct (fst (convert_loop decode (listdir (fs s) directory_path) []
                     (emit (EvIterdir directory_path) s))) as [e | converted];
      [ exact T | ].
    destruct T as (C & R & _). split; [ exact C | ].
    intros q Hq; destruct (R q Hq) as [[] | H]; exact H.
Qed.

(** C9 (amended). The normalization of a directory opens, for conversion,
    only listed regular files whose suffix is the legacy extension up to
    case, in each run, so a second run acts only on the files that still
    bear the legacy extension then.  It changes no path but the output paths
    (stem plus [.jpeg]) of those legacy files.  It ends by returning a list
    whose elements all come from such files, or by raising an exception of
    Pillow that is no [IOError].  When it returns, the output path of a
    legacy file that Pillow decodes and saves holds the new image, whatever
    file it held before, provided no other legacy file of the listing has
    the same output path. *)
Theorem C9_normalization_acts_on_legacy_files
    (directory_path : Path) (st : state) (entries : list Path) :
  fs_iterdir (fs st) directory_path = inr entries ->
  let result := convert_files_to_jpeg decode directory_path st in
  (forall q, In (EvImageOpen q) (trace (snd result)) ->
     In (EvImageOpen q) (trace st)
     \/ exists f, In f entries /\ has_legacy_suffix f = true
                  /\ is_file (fs st) f = true
                  /\ q = parse_path (path_str f))
  /\ (forall p,
        (forall f, In f entries -> has_legacy_suffix f = true ->
                   is_file (fs st) f = true -> output_path f <> p) ->
        lookup (fs (snd result)) p = lookup (fs st) p)
  /\ match fst result with
     | inr converted =>
         (forall q, In q converted ->
            exists f, In f entries /\ has_legacy_suffix f = true
                      /\ is_file (fs st) f = true
                      /\ (q = output_path f \/ q = parse_path failed_message))
         /\ (forall f c jpeg old,
               In f entries ->
               valid_path f = true ->
               has_legacy_suffix f = true ->
               fs_read (fs st) f = inr c ->
               decode c = inr (Saves jpeg) ->
               lookup (fs st) (output_path f) = Some (File old) ->
               (forall f', In f' entries -> has_legacy_suffix f' = true ->
                           is_file (fs st) f' = true ->
                           output_path f' = output_path f -> f' = f) ->
               lookup (fs (snd result)) (output_path f) = Some (File jpeg))
     | inl e => is_IOError e = false /\ exists c, pillow_raises decode c e
     end
  /\ (forall entries2,
        fs_iterdir (fs (snd result)) directory_path = inr entries2 ->
        forall q,
          In (EvImageOpen q)
             (trace (snd (convert_files_to_jpeg decode directory_path
                            (snd result)))) ->
          In (EvImageOpen q) (trace (snd result))
          \/ exists f, In f entries2 /\ has_legacy_suffix f = true
                       /\ is_file (fs (snd result)) f = true
                       /\ q = parse_path (path_str f)).
Proof.
  intros Hes result.
  destruct (convert_files_to_jpeg_run directory_path st entries Hes)
    as (O & F & T).
  fold result in O, F, T.
  split; [ exact O | ]. split; [ exact F | ].
  split.
  - assert (Hover := fun f c jpeg (Hv : valid_path f = true)
                         (Hl : has_legacy_suffix f = true)
                         (Hd : decode c = inr (Saves jpeg)) =>
              convert_loop_overwrites f c jpeg entries Hv Hl Hd []
                (emit (EvIterdir directory_path) st)).
    unfold result in *.
    rewrite (convert_files_to_jpeg_listing _ _ _ _ Hes) in *.
    destruct (fst (convert_loop decode entries []
                     (emit (EvIterdir directory_path) st))) as [e | converted];
      [ exact T | ].
    destruct T as (_ & R). split; [ exact R | ].
    intros f c jpeg old Hin Hv Hl Hread Hd Hold Huniq.
    apply (Hover f c jpeg Hv Hl Hd); cbn [fs emit]; auto.
    + unfold is_file; now rewrite Hold.
    + destruct (fs_iterdir_listdir _ _ _ Hes) as [-> _].
      intros f' Hf'; now apply listdir_exists in Hf'.
  - intros entries2 Hes2 q Hq.
    destruct (convert_files_to_jpeg_run directory_path (snd result) entries2 Hes2)
      as (O2 & _).
    now apply O2.
Qed.

End Normalization.

(** * Files whose legacy extension is not in lower case *)

Section CaseVariant.

Variable decode : str -> exn + image.
Variable chat : list event -> str -> exn + str.
Variable loads : str -> exn + list str.



End CaseVariant.

(** * More runs on the example directories *)

Section MoreScenarios.

Import Examples.

(** The only keyword holds a digit: the derived name is empty. *)
Lemma builder_empty_name_witness :
  accepted (L "_") = true
  /\ (keywords_to_string_with_delimiter [L "ocean2"] (L "_") = inr []
      <-> filter (fun k => negb (has_digit k)) [L "ocean2"] = []
          \/ filter (fun k => negb (has_digit k)) [L "ocean2"] = [[]]).
Proof.
  split; [ reflexivity | ].
  apply (builder_empty_name [L "ocean2"] (L "_")); reflexivity.
Defined.

(** Scenario A already holds five keywords free of digits: a seventh
    keyword changes nothing. *)
Lemma builder_ignores_the_rest_witness :
  5 <= List.length (filter (fun k => negb (has_digit k)) scenario_A_keywords)
  /\ keywords_to_string_with_delimiter (scenario_A_keywords ++ [L "moon"])
                                       (L "_")
     = keywords_to_string_with_delimiter scenario_A_keywords (L "_").
Proof.
  split; [ vm_compute; lia | ].
  apply (builder_ignores_the_rest scenario_A_keywords [L "moon"] (L "_")).
  vm_compute; lia.
Defined.

(** An answer with a sentence before the fence and one after it. *)
Lemma strip_fences_unwraps_witness :
  (~ In "`"%char (L "Here: ")
   /\ ~ In "`"%char (L " A ")
   /\ ~ In "`"%char (L " Done.")
   /\ startswith (L " Done.") (L "json") = false)
  /\ strip_fences (L "Here: " ++ L "```json" ++ L " A " ++ L "```" ++ L " Done.")
     = strip (L "Here: " ++ L " A " ++ L " Done.")
  /\ strip_fences (L "Here: " ++ L " A " ++ L " Done.")
     = strip (L "Here: " ++ L " A " ++ L " Done.").
Proof.
  split.
  - repeat split; try reflexivity; cbn; intuition discriminate.
  - apply (strip_fences_unwraps (L "Here: ") (L " A ") (L " Done."));
      try reflexivity; cbn; intuition discriminate.
Defined.

(** The file that is no image still gives one element. *)
Lemma convert_files_to_jpeg_length_witness :
  fs_iterdir (fs (initial_state fs_bad)) pics = inr [child pics (L "bad.webp")]
  /\ let result := convert_files_to_jpeg decode pics (initial_state fs_bad) in
     match fst result with
     | inr converted =>
         List.length converted
         = List.length
             (filter (fun file => is_file (fs (initial_state fs_bad)) file
                                  && has_legacy_suffix file)
                     [child pics (L "bad.webp")])
     | inl e => is_IOError e = false /\ exists c, pillow_raises decode c e
     end
     /\ ((forall c e, pillow_raises decode c e -> is_IOError e = true) ->
         exists converted, fst result = inr converted).
Proof.
  split; [ reflexivity | ].
  apply (convert_files_to_jpeg_length decode pics (initial_state fs_bad)
           [child pics (L "bad.webp")]).
  reflexivity.
Defined.

(** A decompression bomb ends the normalization before the next file is
    looked at: the exception is no [IOError] and leaves the command. *)
Example decompression_bomb_aborts :
  let result := process_dir decode (chat (L "cat")) loads (L "pics") (L "_")
                            false (initial_state fs_bomb) in
  fst result = inl DecompressionBombError
  /\ fs (snd result) = fs_bomb
  /\ trace (snd result)
     = [EvGlob pics; EvIterdir pics; EvIsFile (child pics (L "big.webp"));
        EvImageOpen (child pics (L "big.webp"))].
Proof. vm_compute. repeat split. Qed.

(** [photo.webp] is still there after the normalization. *)
Lemma convert_files_to_jpeg_keeps_legacy_files_witness :
  (fs_iterdir (fs (initial_state fs_photo)) pics = inr [photo_webp]
   /\ has_legacy_suffix photo_webp = true)
  /\ lookup (fs (snd (convert_files_to_jpeg decode pics
                        (initial_state fs_photo)))) photo_webp
     = lookup (fs (initial_state fs_photo)) photo_webp.
Proof.
  split; [ split; reflexivity | ].
  apply (convert_files_to_jpeg_keeps_legacy_files decode pics
           (initial_state fs_photo) [photo_webp] photo_webp); reflexivity.
Defined.

(** [pics/photo.webp] is converted into [pics/photo.jpeg]. *)
Lemma output_path_keeps_stem_witness :
  (valid_path photo_webp = true
   /\ suffix photo_webp <> []
   /\ has_non_dot (stem photo_webp) = true)
  /\ output_path photo_webp
     = mkPath (root photo_webp)
              (removelast (parts photo_webp) ++ [stem photo_webp ++ L ".jpeg"])
  /\ parent (output_path photo_webp) = parent photo_webp
  /\ stem (output_path photo_webp) = stem photo_webp
  /\ suffix (output_path photo_webp) = L ".jpeg"
  /\ forall webp_files,
       In photo_webp webp_files ->
       exists w, find_webp webp_files (output_path photo_webp) = Some w
                 /\ stem w = stem photo_webp.
Proof.
  split.
  - repeat split; try reflexivity; vm_compute; discriminate.
  - apply (output_path_keeps_stem photo_webp);
      try reflexivity; vm_compute; discriminate.
Defined.


(** Scenario A on the converted directory: the one rename of the run. *)
Lemma process_image_renames_batch_files_witness :
  In (EvRename photo_jpeg (child pics (L "sunset_beach_wave_sky_cloud.jpeg")))
     (trace (snd (process_image (chat (L "A")) loads pics [photo_jpeg]
                                [photo_webp] (L "_") st_converted)))
  /\ (In (EvRename photo_jpeg
                   (child pics (L "sunset_beach_wave_sky_cloud.jpeg")))
         (trace st_converted)
      \/ (In photo_jpeg [photo_jpeg]
          /\ str_eqb (name photo_jpeg) (L ".DS_Store") = false
          /\ accepted (L "_") = true
          /\ exists keywords new_file_name,
               keywords_to_string_with_delimiter keywords (L "_")
               = inr new_file_name
               /\ has_digit new_file_name = false
               /\ child pics (L "sunset_beach_wave_sky_cloud.jpeg")
                  = joinpath pics (new_file_name ++ suffix photo_jpeg))).
Proof.
  assert (H : In (EvRename photo_jpeg
                    (child pics (L "sunset_beach_wave_sky_cloud.jpeg")))
                 (trace (snd (process_image (chat (L "A")) loads pics
                                [photo_jpeg] [photo_webp] (L "_")
                                st_converted))))
    by (vm_compute; auto 10).
  split; [ exact H | ].
  exact (process_image_renames_batch_files (chat (L "A")) loads pics (L "_")
           [photo_jpeg] [photo_webp] st_converted photo_jpeg
           (child pics (L "sunset_beach_wave_sky_cloud.jpeg")) H).
Defined.

(** Scenario A on the converted directory: [photo.webp] is no longer
    tracked, and it has been unlinked. *)
Lemma process_image_untracks_by_unlink_witness :
  (fst (process_image (chat (L "A")) loads pics [photo_jpeg] [photo_webp]
                      (L "_") st_converted) = inr []
   /\ In photo_webp [photo_webp]
   /\ ~ In photo_webp [])
  /\ exists t,
       trace (snd (process_image (chat (L "A")) loads pics [photo_jpeg]
                                 [photo_webp] (L "_") st_converted))
       = trace st_converted ++ t
       /\ In (EvUnlink photo_webp) t.
Proof.
  split; [ split; [ reflexivity | split; [ now left | intros [] ] ] | ].
  apply (process_image_untracks_by_unlink (chat (L "A")) loads pics (L "_")
           [photo_jpeg] [photo_webp] [] st_converted photo_webp);
    [ reflexivity | now left | intros [] ].
Defined.

(** The plus sign is no accepted delimiter. *)
Lemma process_image_bad_delimiter_witness :
  ~ In (L "+") accepted_delimiters
  /\ fst (process_image (chat (L "A")) loads pics [photo_jpeg] [photo_webp]
                        (L "+") st_converted) = inr [photo_webp]
  /\ fs (snd (process_image (chat (L "A")) loads pics [photo_jpeg]
                            [photo_webp] (L "+") st_converted))
     = fs st_converted
  /\ forall src dst,
       In (EvRename src dst)
          (trace (snd (process_image (chat (L "A")) loads pics [photo_jpeg]
                                     [photo_webp] (L "+") st_converted))) ->
       In (EvRename src dst) (trace st_converted).
Proof.
  assert (H : ~ In (L "+") accepted_delimiters)
    by (cbn; intuition discriminate).
  split; [ exact H | ].
  exact (process_image_bad_delimiter (chat (L "A")) loads pics (L "+")
           [photo_jpeg] [photo_webp] st_converted H).
Defined.

(** The single keyword [cat] on [pics/photo.webp]. *)
Lemma process_dir_renames_one_image_witness :
  (valid_path pics = true
   /\ top_level pics = true
   /\ has_nul (path_str pics) = false
   /\ valid_name (L "photo.webp") = true
   /\ has_nul (L "photo.webp") = false
   /\ fsencode_length (L "photo.webp") <= NAME_MAX
   /\ suffix (child pics (L "photo.webp")) = L ".webp"
   /\ has_non_dot (stem (child pics (L "photo.webp"))) = true
   /\ fs (initial_state fs_photo)
      = [(pics, Dir); (child pics (L "photo.webp"), File (L "RIFFphoto"))]
   /\ decode (L "RIFFphoto") = inr (Saves (L "JFIFRIFFphoto"))
   /\ (forall history,
         chat (L "cat") history (L "JFIFRIFFphoto") = inr (L "```json cat ```"))
   /\ loads (strip_fences (L "```json cat ```")) = inr [L "cat"]
   /\ keywords_to_string_with_delimiter [L "cat"] (L "_") = inr (L "cat")
   /\ ~ In "/"%char (L "cat")
   /\ has_nul (L "cat") = false
   /\ fsencode_length (L "cat" ++ L ".jpeg") <= NAME_MAX)
  /\ let result := process_dir decode (chat (L "cat")) loads (path_str pics)
                     (L "_") false (initial_state fs_photo) in
     fst result = inr tt
     /\ fs (snd result)
        = [(pics, Dir);
           (child pics (L "cat" ++ L ".jpeg"), File (L "JFIFRIFFphoto"))].
Proof.
  assert (H : ~ In "/"%char (L "cat")) by (cbn; intuition discriminate).
  assert (H1 : fsencode_length (L "photo.webp") <= NAME_MAX)
    by (vm_compute; lia).
  assert (H2 : fsencode_length (L "cat" ++ L ".jpeg") <= NAME_MAX)
    by (vm_compute; lia).
  split.
  - repeat (split; [ solve [ reflexivity | exact H | exact H1 ] | ]).
    exact H2.
  - apply (process_dir_renames_one_image decode (chat (L "cat")) loads pics
             (L "photo.webp") (L "RIFFphoto") (L "JFIFRIFFphoto") (L "_")
             (L "```json cat ```") (L "cat") [L "cat"] false
             (initial_state fs_photo));
      solve [ reflexivity | exact H | exact H1 | exact H2 ].
Defined.

(** A keyword that climbs out of the directory: the image ends up in the
    working directory, and the legacy file is deleted all the same. *)
Example climbing_name_run :
  let result := process_dir decode (chat (L "up")) loads (L "pics") (L "_")
                            false (initial_state fs_photo) in
  fst result = inr tt
  /\ fs (snd result)
     = [(pics, Dir); (mkPath [] [L "up.jpeg"], File (L "JFIFRIFFphoto"))].
Proof. vm_compute. split; reflexivity. Qed.

(** A derived name the file system refuses: with a NUL byte the rename
    raises [ValueError], with more than [NAME_MAX] bytes it raises
    [OSError]; a name that climbs out of the directory moves the file. *)
Example rename_of_a_bad_name :
  fs_rename fs_converted photo_jpeg
            (joinpath pics ((Ascii.zero :: L "cat") ++ L ".jpeg"))
  = inl (ValueError (L "embedded null byte"))
  /\ fs_rename fs_converted photo_jpeg
               (joinpath pics (repeat "a"%char 300 ++ L ".jpeg"))
     = inl (OSError ENAMETOOLONG)
  /\ fs_rename fs_converted photo_jpeg (joinpath pics (L "../up" ++ L ".jpeg"))
     = inr [(pics, Dir); (photo_webp, File (L "RIFFphoto"));
            (mkPath [] [L "up.jpeg"], File (L "JFIFRIFFphoto"))].
Proof. vm_compute. repeat split. Qed.

(** C9 fails as stated on [fs_overwrite], and the amended statement holds
    there: only [photo.webp] is opened, only its output path [photo.jpeg]
    changes, and it holds the new image in place of the old one. *)
Lemma C9_normalization_acts_on_legacy_files_witness :
  fs_iterdir (fs (initial_state fs_overwrite)) pics = inr [photo_webp; photo_jpeg]
  /\ (let st := initial_state fs_overwrite in
      let entries := [photo_webp; photo_jpeg] in
      let result := convert_files_to_jpeg decode pics st in
      (forall q, In (EvImageOpen q) (trace (snd result)) ->
         In (EvImageOpen q) (trace st)
         \/ exists f, In f entries /\ has_legacy_suffix f = true
                      /\ is_file (fs st) f = true
                      /\ q = parse_path (path_str f))
      /\ (forall p,
            (forall f, In f entries -> has_legacy_suffix f = true ->
                       is_file (fs st) f = true -> output_path f <> p) ->
            lookup (fs (snd result)) p = lookup (fs st) p)
      /\ match fst result with
         | inr converted =>
             (forall q, In q converted ->
                exists f, In f entries /\ has_legacy_suffix f = true
                          /\ is_file (fs st) f = true
                          /\ (q = output_path f
                              \/ q = parse_path failed_message))
             /\ (forall f c jpeg old,
                   In f entries ->
                   valid_path f = true ->
                   has_legacy_suffix f = true ->
                   fs_read (fs st) f = inr c ->
                   decode c = inr (Saves jpeg) ->
                   lookup (fs st) (output_path f) = Some (File old) ->
                   (forall f', In f' entries -> has_legacy_suffix f' = true ->
                               is_file (fs st) f' = true ->
                               output_path f' = output_path f -> f' = f) ->
                   lookup (fs (snd result)) (output_path f) = Some (File jpeg))
         | inl e => is_IOError e = false /\ exists c, pillow_raises decode c e
         end
      /\ (forall entries2,
            fs_iterdir (fs (snd result)) pics = inr entries2 ->
            forall q,
              In (EvImageOpen q)
                 (trace (snd (convert_files_to_jpeg decode pics (snd result)))) ->
              In (EvImageOpen q) (trace (snd result))
              \/ exists f, In f entries2 /\ has_legacy_suffix f = true
                           /\ is_file (fs (snd result)) f = true
                           /\ q = parse_path (path_str f)))
  /\ lookup (fs (snd (convert_files_to_jpeg decode pics
                        (initial_state fs_overwrite)))) photo_jpeg
     = Some (File (L "JFIFRIFFphoto")).
Proof.
  pose proof (C9_normalization_acts_on_legacy_files decode pics
                (initial_state fs_overwrite) [photo_webp; photo_jpeg] eq_refl)
    as H.
  split; [ reflexivity | ]. split; [ exact H | ].
  cbv zeta in H. destruct H as (_ & _ & T & _).
  assert (E : fst (convert_files_to_jpeg decode pics (initial_state fs_overwrite))
              = inr [photo_jpeg]) by reflexivity.
  rewrite E in T. destruct T as [_ Hover].
  assert (Huniq : forall f', In f' [photo_webp; photo_jpeg] ->
            has_legacy_suffix f' = true ->
            is_file (fs (initial_state fs_overwrite)) f' = true ->
            output_path f' = output_path photo_webp -> f' = photo_webp).
  { intros f' [<- | [<- | []]]; [ reflexivity | ].
    intros Hl; discriminate Hl. }
  exact (Hover photo_webp (L "RIFFphoto") (L "JFIFRIFFphoto") (L "JFIFold")
           (or_introl eq_refl) eq_refl eq_refl eq_refl eq_refl eq_refl Huniq).
Defined.



End MoreScenarios.
